(** * azbot-telegram: the polling cursor loop and the session registry

    A shallow embedding of [BotPoller] (src/azbot-telegram/bot-poller.js),
    [BotMaster] (src/aztgbot/bot-master.js, the ES-module variant with
    [cleanup]) and the identifier helpers of bot-utils.js; then of
    [toSnakeCase], [toSnakeCaseObject] and [FormData] of bot-utils.js and
    of the later [onUpdates] that docs/bot-master.js.html documents.

    Conventions of the embedding.
    - JavaScript numbers that the code uses as counters, offsets and
      millisecond clocks are [Z]; an optional option ([undefined]/[null]
      or a value) is an [option].
    - Everything outside the two classes (the Telegram server behind
      [botAPI], the host's servant class and callbacks, the clock) is an
      oracle over an abstract external state [E], collected in [Host].
    - An [async] method is a computation in the monad [M]: it threads the
      heap of the program ([World]) and ends either [Fulfilled] or
      [Rejected].  [await f()] is a call: the computation resumes with the
      settled value, and no other handler of this program runs in between.
      The one [await] that is cut in two is [await this.skipUpdates()] in
      [startPollUpdates], which stands between the test of [isPolling] and
      its write: the call stops there, the heap records it ([starting]),
      and the rest runs as an event of its own ([Skipped]), so that a
      second start, a stop or a signal can fall in between.
      The un-awaited [this.pollUpdates()] is recorded as a cycle in flight
      that the event loop resumes later, from its log and its request on.
    - Every call that leaves the classes, the settling of every awaited
      call, and every write to [pollingParam.offset] (an object shared with
      [botAPI]) is appended to [trace], oldest first, so that orderings can
      be stated. *)

From Stdlib Require Import ZArith List String Ascii Bool Lia Permutation.
From Stdlib Require Import DecimalString DecimalZ DecimalPos Sorting.Sorted.
Import ListNotations.

Local Open Scope string_scope.
Local Open Scope list_scope.
Local Open Scope Z_scope.

(** ** Data *)

(** The part of a Telegram [Update] the core looks at. *)
Record Message := mkMessage {
  from_id : option Z;   (* update["message"]["from"]["id"] *)
  chat_id : option Z;   (* update["message"]["chat"]["id"] *)
  text : option string
}.

Record Update := mkUpdate {
  update_id : Z;
  message : option Message
}.

Inductive Error :=
| TelegramError (code : Z) (description : string)
| TypeError (msg : string)
| HostError (msg : string).

(** How a call or an awaited promise ends. *)
Inductive Settled (A : Type) :=
| Fulfilled (a : A)
| Rejected (error : Error).
Arguments Fulfilled {A} a.
Arguments Rejected {A} error.

Record PollingParam := mkParam {
  offset : Z;
  timeout : Z
}.

Record Me := mkMe { me_id : Z; me_username : string }.

(** [new this.BotServant(botAPI, identifier, botID, botName)]: an object
    identity [handle] and the identifier it was built for. *)
Record Instance := mkInstance {
  handle : nat;
  inst_identifier : string
}.

Record Bot := mkBot {
  lastActiveTime : Z;
  instance : Instance
}.

Inductive Level := Debug | Warn | Err.

Inductive LogArg :=
| Text (s : string)
| Thrown (error : Error)
| PollingSince (o : Z)
| GotUpdates (n : nat)
| Listening
| Exiting
| Creating (identifier : string)
| Removing (identifier : string).

Inductive Signal := SIGINT | SIGTERM.

(** Calls that leave the two classes. *)
Inductive Call :=
| GetUpdates (p : PollingParam)
| GetMe
| OnUpdates (updates : list Update)
| StartCallback
| StopCallback
| OnCreate (i : Instance)
| ProcessUpdate (i : Instance) (u : Update)
| OnRemove (i : Instance).

(** What the classes do, in program order.  [Invoke] is the moment a call
    is made; [Settle] the moment an awaited call has returned or thrown. *)
Inductive Effect :=
| Invoke (c : Call)
| Settle (c : Call) (ok : bool)
| Log (l : Level) (a : LogArg)
| OffsetAssigned (v : Z)
| SetTimeout (id : nat) (delay : Z)
| ClearTimeout (id : option nat)
| ProcessOn (s : Signal)
| New (i : Instance)
| Delete (identifier : string).

(** The second constructor argument of [BotPoller]: a function of the
    host, or [this.onUpdates.bind(this)] of the [BotMaster] that owns the
    poller. *)
Inductive Callback := HostCallback | MasterCallback.

Record BotPoller := mkPoller {
  onUpdates_cb : Callback;
  pollingInterval : Z;
  coolDownInterval : Z;
  skippingUpdates : option bool;
  isPolling : bool;
  pollingID : option nat;
  pollingParam : PollingParam
}.

Record PollerOpts := mkPollerOpts {
  opt_pollingInterval : option Z;
  opt_skippingUpdates : option bool
}.

(** [x || d] on an optional number: [undefined], [null] and [0] are falsy. *)
Definition or_default (x : option Z) (d : Z) : Z :=
  match x with
  | Some n => if n =? 0 then d else n
  | None => d
  end.

(** [constructor(botAPI, onUpdates, opts)]; [None] is an [onUpdates] that
    is not a function. *)
Definition new_BotPoller (onUpdates : option Callback) (opts : PollerOpts)
  : Settled BotPoller :=
  match onUpdates with
  | None => Rejected (TypeError "Expect a Function as `onUpdates`")
  | Some cb =>
      Fulfilled {|
        onUpdates_cb := cb;
        pollingInterval := or_default (opt_pollingInterval opts) 1500;
        coolDownInterval := 6000;
        skippingUpdates := opt_skippingUpdates opts;
        isPolling := false;
        pollingID := None;
        pollingParam := {| offset := 0; timeout := 1 |}
      |}
  end.

(** ** Plain objects used as maps

    [this.bots] is [{}]: string keys, [==null] test, assignment, [delete]
    and [Object.entries].  The list keeps own properties in creation
    order. *)
Module Obj.
Section Obj.
Context {V : Type}.

Definition t := list (string * V).

Fixpoint get (o : t) (k : string) : option V :=
  match o with
  | [] => None
  | (k', v) :: rest => if String.eqb k k' then Some v else get rest k
  end.

Fixpoint set (o : t) (k : string) (v : V) : t :=
  match o with
  | [] => [(k, v)]
  | (k', v') :: rest =>
      if String.eqb k k' then (k', v) :: rest else (k', v') :: set rest k v
  end.

Fixpoint delete (o : t) (k : string) : t :=
  match o with
  | [] => []
  | (k', v') :: rest =>
      if String.eqb k k' then delete rest k else (k', v') :: delete rest k
  end.

Definition keys (o : t) : list string := map fst o.
End Obj.

(** Names every object inherits from [Object.prototype]: for these
    [o[k] == null] is false although [o] has no such own property. *)
Definition inherited : list string :=
  [ "constructor"; "__defineGetter__"; "__defineSetter__"; "hasOwnProperty";
    "__lookupGetter__"; "__lookupSetter__"; "isPrototypeOf";
    "propertyIsEnumerable"; "toString"; "valueOf"; "__proto__";
    "toLocaleString" ].

Definition is_inherited (k : string) : bool :=
  existsb (String.eqb k) inherited.

(** Array-index keys (canonical decimal strings below 2^32 - 1) are
    enumerated first, in ascending numeric order; the other keys follow in
    creation order. *)
Definition digit (a : ascii) : option N :=
  let n := N_of_ascii a in
  if ((48 <=? n) && (n <=? 57))%N then Some (n - 48)%N else None.

Fixpoint digits (s : string) (acc : N) : option N :=
  match s with
  | EmptyString => Some acc
  | String a rest =>
      match digit a with
      | Some d => digits rest (10 * acc + d)%N
      | None => None
      end
  end.

Definition array_index (k : string) : option N :=
  match k with
  | EmptyString => None
  | String a rest =>
      if (Ascii.eqb a "0" && negb (String.eqb rest ""))%bool then None
      else match digits k 0 with
           | Some n => if (n <? 2 ^ 32 - 1)%N then Some n else None
           | None => None
           end
  end.

Section Entries.
Context {V : Type}.

Fixpoint insert_index (n : N) (kv : string * V)
         (l : list (N * (string * V))) : list (N * (string * V)) :=
  match l with
  | [] => [(n, kv)]
  | (m, kv') :: rest =>
      if (n <=? m)%N then (n, kv) :: l else (m, kv') :: insert_index n kv rest
  end.

Fixpoint index_part (o : list (string * V)) : list (N * (string * V)) :=
  match o with
  | [] => []
  | kv :: rest =>
      match array_index (fst kv) with
      | Some n => insert_index n kv (index_part rest)
      | None => index_part rest
      end
  end.

Fixpoint name_part (o : list (string * V)) : list (string * V) :=
  match o with
  | [] => []
  | kv :: rest =>
      match array_index (fst kv) with
      | Some _ => name_part rest
      | None => kv :: name_part rest
      end
  end.

(** [Object.entries(o)]: a fresh array, a snapshot of [o]. *)
Definition entries (o : list (string * V)) : list (string * V) :=
  map snd (index_part o) ++ name_part o.
End Entries.
End Obj.

(** ** bot-utils.js: identifiers *)

Definition template (n : Z) : string := NilZero.string_of_int (Z.to_int n).

Definition perFromID (update : Update) : string :=
  match message update with
  | Some m => match from_id m with
              | Some id => template id
              | None => "0"
              end
  | None => "0"
  end.

Definition perChatID (update : Update) : string :=
  match message update with
  | Some m => match chat_id m with
              | Some id => template id
              | None => "0"
              end
  | None => "0"
  end.

(** ** The outside world and the heap *)

(** A host function called (and awaited) by the core: it acts on the
    external state only. *)
Definition HostFn (E A : Type) : Type := E -> Settled A * E.

Record Host (E : Type) := mkHost {
  (* botAPI *)
  api_getUpdates : PollingParam -> HostFn E (list Update);
  api_getMe : HostFn E Me;
  (* the callback of a poller that is used directly *)
  host_onUpdates : list Update -> HostFn E unit;
  (* BotMaster's [identify] *)
  identify : Update -> string;
  (* the servant class: [None] is a method that is not a function *)
  servant_onCreate : option (Instance -> HostFn E unit);
  servant_processUpdate : option (Instance -> Update -> HostFn E unit);
  servant_onRemove : option (Instance -> HostFn E unit);
  (* Date.now() *)
  date_now : E -> Z
}.
Arguments api_getUpdates {E}.
Arguments api_getMe {E}.
Arguments host_onUpdates {E}.
Arguments identify {E}.
Arguments servant_onCreate {E}.
Arguments servant_processUpdate {E}.
Arguments servant_onRemove {E}.
Arguments date_now {E}.

Record BotMaster := mkMaster {
  destroyTimeout : option Z;
  bots : list (string * Bot);
  botID : option Z;
  botName : option string
}.

Record MasterOpts := mkMasterOpts {
  opt_destroyTimeout : option Z;
  master_pollingInterval : option Z;
  master_skippingUpdates : option bool
}.

Record World (E : Type) := mkWorld {
  botPoller : BotPoller;
  botMaster : BotMaster;
  (* pending timeouts, each one a bound [pollUpdates]: handle and delay *)
  timers : list (nat * Z);
  next_timeout : nat;
  (* [pollUpdates()] calls made without [await] and not yet resumed *)
  inflight : nat;
  next_handle : nat;
  (* process.on listeners: each is a [cleanup] closure over its
     [stopCallback] *)
  listeners : list (Signal * option (HostFn E unit));
  trace : list Effect;
  ext : E;
  (* calls of [startPollUpdates()] that wait at [await this.skipUpdates()],
     oldest first: each with the parameters its skip fetch was made with *)
  starting : list PollingParam
}.
Arguments botPoller {E}.
Arguments botMaster {E}.
Arguments timers {E}.
Arguments next_timeout {E}.
Arguments inflight {E}.
Arguments next_handle {E}.
Arguments listeners {E}.
Arguments trace {E}.
Arguments ext {E}.
Arguments starting {E}.

(** ** The monad of async methods *)

Definition M (E A : Type) : Type := World E -> Settled A * World E.

Definition ret {E A} (a : A) : M E A := fun w => (Fulfilled a, w).

Definition throw {E A} (error : Error) : M E A := fun w => (Rejected error, w).

Definition bind {E A B} (c : M E A) (k : A -> M E B) : M E B :=
  fun w =>
    match c w with
    | (Fulfilled a, w') => k a w'
    | (Rejected error, w') => (Rejected error, w')
    end.

(** [try { c } catch (error) { h }] *)
Definition try_catch {E A} (c : M E A) (h : Error -> M E A) : M E A :=
  fun w =>
    match c w with
    | (Fulfilled a, w') => (Fulfilled a, w')
    | (Rejected error, w') => h error w'
    end.

Declare Scope js_scope.
Delimit Scope js_scope with js.
Notation "x <- c ;; k" := (bind c (fun x => k))
  (at level 61, c at next level, right associativity) : js_scope.
Notation "c ;; k" := (bind c (fun _ => k))
  (at level 61, right associativity) : js_scope.
Local Open Scope js_scope.

Section Primitives.
Context {E : Type}.

Definition get_world : M E (World E) := fun w => (Fulfilled w, w).

Definition emit (e : Effect) : M E unit := fun w =>
  (Fulfilled tt,
   mkWorld E (botPoller w) (botMaster w) (timers w) (next_timeout w)
           (inflight w) (next_handle w) (listeners w)
           (trace w ++ [e]) (ext w) (starting w)).

Definition put_poller (p : BotPoller) : M E unit := fun w =>
  (Fulfilled tt,
   mkWorld E p (botMaster w) (timers w) (next_timeout w)
           (inflight w) (next_handle w) (listeners w) (trace w) (ext w)
           (starting w)).

Definition put_master (m : BotMaster) : M E unit := fun w =>
  (Fulfilled tt,
   mkWorld E (botPoller w) m (timers w) (next_timeout w)
           (inflight w) (next_handle w) (listeners w) (trace w) (ext w)
           (starting w)).

(** Run a function of the host on the external state. *)
Definition call {A} (f : HostFn E A) : M E A := fun w =>
  let (r, e') := f (ext w) in
  (r,
   mkWorld E (botPoller w) (botMaster w) (timers w) (next_timeout w)
           (inflight w) (next_handle w) (listeners w) (trace w) e'
           (starting w)).

(** [await body], where [body] is the call [c]. *)
Definition awaiting {A} (c : Call) (body : M E A) : M E A :=
  emit (Invoke c) ;;
  try_catch
    (a <- body ;; emit (Settle c true) ;; ret a)
    (fun error => emit (Settle c false) ;; throw error).

Definition await {A} (c : Call) (f : HostFn E A) : M E A :=
  awaiting c (call f).

(** The second half of [await f()], for a call [c] made earlier: the
    call settles. *)
Definition settling {A} (c : Call) (f : HostFn E A) : M E A :=
  try_catch
    (a <- call f ;; emit (Settle c true) ;; ret a)
    (fun error => emit (Settle c false) ;; throw error).

(** A call whose result is not awaited: only a synchronous throw comes
    back. *)
Definition invoke {A} (c : Call) (f : HostFn E A) : M E A :=
  emit (Invoke c) ;; call f.

Definition log (l : Level) (a : LogArg) : M E unit := emit (Log l a).

(** [setTimeout(this.pollUpdates.bind(this), delay)] *)
Definition setTimeout (delay : Z) : M E nat := fun w =>
  let id := next_timeout w in
  (Fulfilled id,
   mkWorld E (botPoller w) (botMaster w) (timers w ++ [(id, delay)])
           (S id) (inflight w) (next_handle w) (listeners w)
           (trace w ++ [SetTimeout id delay]) (ext w) (starting w)).

Definition cancel (id : option nat) (ts : list (nat * Z)) : list (nat * Z) :=
  match id with
  | Some n => filter (fun t => negb (Nat.eqb (fst t) n)) ts
  | None => ts
  end.

(** [clearTimeout(id)]; [null] and handles that already fired are
    ignored. *)
Definition clearTimeout (id : option nat) : M E unit := fun w =>
  (Fulfilled tt,
   mkWorld E (botPoller w) (botMaster w) (cancel id (timers w))
           (next_timeout w) (inflight w) (next_handle w) (listeners w)
           (trace w ++ [ClearTimeout id]) (ext w) (starting w)).

(** A call of [this.pollUpdates()] whose promise is dropped. *)
Definition spawn_pollUpdates : M E unit := fun w =>
  (Fulfilled tt,
   mkWorld E (botPoller w) (botMaster w) (timers w) (next_timeout w)
           (S (inflight w)) (next_handle w) (listeners w) (trace w) (ext w)
           (starting w)).

(** A call of [startPollUpdates()] stops at [await this.skipUpdates()]:
    the skip fetch, made with [p], is on its way. *)
Definition suspend_start (p : PollingParam) : M E unit := fun w =>
  (Fulfilled tt,
   mkWorld E (botPoller w) (botMaster w) (timers w) (next_timeout w)
           (inflight w) (next_handle w) (listeners w) (trace w) (ext w)
           (starting w ++ [p])).

Definition fresh_handle : M E nat := fun w =>
  (Fulfilled (next_handle w),
   mkWorld E (botPoller w) (botMaster w) (timers w) (next_timeout w)
           (inflight w) (S (next_handle w)) (listeners w) (trace w) (ext w)
           (starting w)).

(** [process.on(s, cleanup)] *)
Definition process_on (s : Signal) (stopCallback : option (HostFn E unit))
  : M E unit := fun w =>
  (Fulfilled tt,
   mkWorld E (botPoller w) (botMaster w) (timers w) (next_timeout w)
           (inflight w) (next_handle w) (listeners w ++ [(s, stopCallback)])
           (trace w ++ [ProcessOn s]) (ext w) (starting w)).

(* field writes *)
Definition set_offset (v : Z) : M E unit :=
  w <- get_world ;;
  let p := botPoller w in
  put_poller (mkPoller (onUpdates_cb p) (pollingInterval p)
                (coolDownInterval p) (skippingUpdates p) (isPolling p)
                (pollingID p) (mkParam v (timeout (pollingParam p)))) ;;
  emit (OffsetAssigned v).

Definition set_isPolling (b : bool) : M E unit :=
  w <- get_world ;;
  let p := botPoller w in
  put_poller (mkPoller (onUpdates_cb p) (pollingInterval p)
                (coolDownInterval p) (skippingUpdates p) b
                (pollingID p) (pollingParam p)).

Definition set_pollingID (id : option nat) : M E unit :=
  w <- get_world ;;
  let p := botPoller w in
  put_poller (mkPoller (onUpdates_cb p) (pollingInterval p)
                (coolDownInterval p) (skippingUpdates p) (isPolling p)
                id (pollingParam p)).

Definition set_bots (b : list (string * Bot)) : M E unit :=
  w <- get_world ;;
  let m := botMaster w in
  put_master (mkMaster (destroyTimeout m) b (botID m) (botName m)).

Definition set_me (me : Me) : M E unit :=
  w <- get_world ;;
  let m := botMaster w in
  put_master (mkMaster (destroyTimeout m) (bots m)
                (Some (me_id me)) (Some (me_username me))).
End Primitives.

(** ** bot-master.js and bot-poller.js *)

Section Program.
Context {E : Type} (host : Host E).

(** *** BotMaster.onUpdates *)

(** The body of [if (this.bots[identifier] == null) { ... }]. *)
Definition create (identifier : string) : M E unit :=
  h <- fresh_handle ;;
  let i := mkInstance h identifier in
  emit (New i) ;;
  w <- get_world ;;
  set_bots (Obj.set (bots (botMaster w)) identifier (mkBot 0 i)) ;;
  log Debug (Creating identifier) ;;
  match servant_onCreate host with
  | Some f => await (OnCreate i) (f i)
  | None => ret tt
  end.

(** [this.bots[identifier]["instance"].processUpdate(update)] and the
    write of [lastActiveTime].  The call is not awaited: [Rejected] is a
    synchronous throw of [processUpdate], the only failure [onUpdates]
    can see.  An identifier that names an inherited property has no
    ["instance"]. *)
Definition process (identifier : string) (update : Update) : M E unit :=
  w <- get_world ;;
  match Obj.get (bots (botMaster w)) identifier with
  | Some bot =>
      match servant_processUpdate host with
      | Some f => invoke (ProcessUpdate (instance bot) update)
                         (f (instance bot) update)
      | None => throw (TypeError "processUpdate is not a function")
      end ;;
      w' <- get_world ;;
      set_bots (Obj.set (bots (botMaster w')) identifier
                  (mkBot (date_now host (ext w')) (instance bot)))
  | None => throw (TypeError "Cannot read properties of undefined")
  end.

Definition on_update (update : Update) : M E unit :=
  let identifier := identify host update in
  w <- get_world ;;
  match Obj.get (bots (botMaster w)) identifier with
  | Some _ => ret tt
  | None => if Obj.is_inherited identifier then ret tt else create identifier
  end ;;
  process identifier update.

(** [for (const update of updates) { ... }] *)
Fixpoint dispatch (updates : list Update) : M E unit :=
  match updates with
  | [] => ret tt
  | update :: rest => on_update update ;; dispatch rest
  end.

(** One turn of the loop over [Object.entries(this.bots)]. *)
Definition sweep_one (T : Z) (entry : string * Bot) : M E unit :=
  let (identifier, bot) := entry in
  w <- get_world ;;
  if date_now host (ext w) - lastActiveTime bot >? T then
    match servant_onRemove host with
    | Some f => await (OnRemove (instance bot)) (f (instance bot))
    | None => ret tt
    end ;;
    log Debug (Removing identifier) ;;
    w' <- get_world ;;
    set_bots (Obj.delete (bots (botMaster w')) identifier) ;;
    emit (Delete identifier)
  else ret tt.

Fixpoint sweep_entries (T : Z) (entries : list (string * Bot)) : M E unit :=
  match entries with
  | [] => ret tt
  | entry :: rest => sweep_one T entry ;; sweep_entries T rest
  end.

(** [if (this.destroyTimeout != null) { for ... }] *)
Definition sweep : M E unit :=
  w <- get_world ;;
  match destroyTimeout (botMaster w) with
  | Some T => sweep_entries T (Obj.entries (bots (botMaster w)))
  | None => ret tt
  end.

Definition onUpdates (updates : list Update) : M E unit :=
  dispatch updates ;; sweep.

(** *** BotPoller *)

Definition call_getUpdates : M E (list Update) :=
  w <- get_world ;;
  await (GetUpdates (pollingParam (botPoller w)))
        (api_getUpdates host (pollingParam (botPoller w))).

(** [this.onUpdates]: the function given to the constructor. *)
Definition callback (cb : Callback) (updates : list Update) : M E unit :=
  match cb with
  | HostCallback => call (host_onUpdates host updates)
  | MasterCallback => onUpdates updates
  end.

(** [await this.onUpdates(updates)] *)
Definition call_onUpdates (updates : list Update) : M E unit :=
  w <- get_world ;;
  awaiting (OnUpdates updates) (callback (onUpdates_cb (botPoller w)) updates).

(** [skipUpdates()] up to its [await]: the offset is forced and the
    request leaves with it.  The result is the parameters it was made
    with. *)
Definition skipUpdates_call : M E PollingParam :=
  set_offset (-1) ;;
  w <- get_world ;;
  emit (Invoke (GetUpdates (pollingParam (botPoller w)))) ;;
  ret (pollingParam (botPoller w)).

(** [skipUpdates()] from the moment its fetch, made with [p], settles. *)
Definition skipUpdates_settle (p : PollingParam) : M E unit :=
  try_catch
    (updates <- settling (GetUpdates p) (api_getUpdates host p) ;;
     (* Should be only one or zero update here. *)
     match updates with
     | first :: _ => set_offset (update_id first + 1)
     | [] => ret tt
     end)
    (fun error =>
       log Warn (Text "Poller: Failed to skip updates before polling.") ;;
       log Err (Thrown error)).

(** [skipUpdates()], from the call to the end, when nothing else runs
    while it waits for its fetch. *)
Definition skipUpdates : M E unit :=
  p <- skipUpdates_call ;;
  skipUpdates_settle p.

(** [this.isPolling = true; this.pollUpdates(); return this.isPolling;] *)
Definition start_polling : M E bool :=
  set_isPolling true ;;
  spawn_pollUpdates ;;
  w <- get_world ;;
  ret (isPolling (botPoller w)).

(** A call of [startPollUpdates()].  It runs to [await
    this.skipUpdates()], where it stops with the flag [isPolling] not yet
    written (the result is [None]: the promise is pending), or, when there
    is nothing to wait for, to its end (the result is what the promise is
    fulfilled with). *)
Definition startPollUpdates : M E (option bool) :=
  w <- get_world ;;
  if negb (isPolling (botPoller w)) then
    (* By default we skip Updates. *)
    match skippingUpdates (botPoller w) with
    | None | Some true =>
        p <- skipUpdates_call ;;
        suspend_start p ;;
        ret None
    | Some false => b <- start_polling ;; ret (Some b)
    end
  else ret (Some (isPolling (botPoller w))).

(** The rest of a call of [startPollUpdates()] that waited for its skip
    fetch, made with [p]; the result is what its promise is fulfilled
    with. *)
Definition startPollUpdates_resume (p : PollingParam) : M E bool :=
  skipUpdates_settle p ;;
  start_polling.

(** [await poller.startPollUpdates()] when nothing else runs before the
    promise settles: the call and, at once, the rest of it. *)
Definition startPollUpdates_awaited : M E bool :=
  w <- get_world ;;
  if negb (isPolling (botPoller w)) then
    (* By default we skip Updates. *)
    match skippingUpdates (botPoller w) with
    | None | Some true => skipUpdates
    | Some false => ret tt
    end ;;
    start_polling
  else ret (isPolling (botPoller w)).

(** The [try] statement of [pollUpdates]; the result is [coolDown]. *)
Definition fetch_and_dispatch : M E bool :=
  try_catch
    (updates <- call_getUpdates ;;
     match updates with
     | first :: _ =>
         log Debug (GotUpdates (List.length updates)) ;;
         call_onUpdates updates ;;
         set_offset (update_id (last updates first) + 1) ;;
         ret false
     | [] => ret false
     end)
    (fun error =>
       log Warn (Text "Poller: Failed to poll updates, cool down.") ;;
       log Err (Thrown error) ;;
       ret true).

(** The [if (this.isPolling)] statement that ends [pollUpdates]. *)
Definition reschedule (coolDown : bool) : M E unit :=
  w <- get_world ;;
  (* Stop updating pollingID when stopPollUpdates() is called. *)
  if isPolling (botPoller w) then
    id <- setTimeout (if coolDown
                      then coolDownInterval (botPoller w)
                      else pollingInterval (botPoller w)) ;;
    set_pollingID (Some id)
  else ret tt.

Definition pollUpdates : M E unit :=
  w <- get_world ;;
  log Debug (PollingSince (offset (pollingParam (botPoller w)))) ;;
  coolDown <- fetch_and_dispatch ;;
  reschedule coolDown.

Definition stopPollUpdates : M E bool :=
  w <- get_world ;;
  (if isPolling (botPoller w) then
     set_isPolling false ;;
     clearTimeout (pollingID (botPoller w))
   else ret tt) ;;
  w' <- get_world ;;
  ret (isPolling (botPoller w')).

(** *** BotMaster.loop *)

Fixpoint remove_all (entries : list (string * Bot)) : M E unit :=
  match entries with
  | [] => ret tt
  | (identifier, bot) :: rest =>
      match servant_onRemove host with
      | Some f => await (OnRemove (instance bot)) (f (instance bot))
      | None => ret tt
      end ;;
      w <- get_world ;;
      set_bots (Obj.delete (bots (botMaster w)) identifier) ;;
      emit (Delete identifier) ;;
      remove_all rest
  end.

Definition call_stopCallback (stopCallback : option (HostFn E unit))
  : M E unit :=
  match stopCallback with
  | Some f => await StopCallback f
  | None => ret tt
  end.

(** The closure [cleanup] of [loop]. *)
Definition cleanup (stopCallback : option (HostFn E unit)) : M E unit :=
  stopPollUpdates ;;
  w <- get_world ;;
  remove_all (Obj.entries (bots (botMaster w))) ;;
  log Debug Exiting ;;
  call_stopCallback stopCallback.

Definition loop (startCallback stopCallback : option (HostFn E unit))
  : M E unit :=
  process_on SIGINT stopCallback ;;
  process_on SIGTERM stopCallback ;;
  match startCallback with
  | Some f => await StartCallback f
  | None => ret tt
  end ;;
  listening <-
    try_catch
      (me <- await GetMe (api_getMe host) ;;
       set_me me ;;
       log Debug Listening ;;
       ret true)
      (fun error =>
         log Warn (Text "Failed to get bot info, exit.") ;;
         log Err (Thrown error) ;;
         call_stopCallback stopCallback ;;
         ret false) ;;
  (* [this.botPoller.startPollUpdates()] is not awaited: [loop] settles
     when the call returns, be the start at its end or waiting for its
     skip fetch. *)
  if listening : bool then startPollUpdates ;; ret tt else ret tt.

(** *** The event loop of the process *)

Definition signal_listeners (s : Signal)
           (l : list (Signal * option (HostFn E unit)))
  : list (option (HostFn E unit)) :=
  map snd (filter (fun x => match fst x, s with
                            | SIGINT, SIGINT | SIGTERM, SIGTERM => true
                            | _, _ => false
                            end) l).

(** Running a listener or a timer callback: the promise of the [async]
    function is dropped, a rejection does not reach the caller. *)
Definition run {A} (c : M E A) (w : World E) : World E := snd (c w).

Inductive Tick :=
| Resume                (* a [pollUpdates] call in flight gets to run *)
| Fire (id : nat)       (* the timeout [id] expires *)
| Kill (s : Signal).    (* the process receives [s] *)

Definition tick (t : Tick) (w : World E) : World E :=
  match t with
  | Resume =>
      match inflight w with
      | S n =>
          run pollUpdates
            (mkWorld E (botPoller w) (botMaster w) (timers w)
               (next_timeout w) n (next_handle w) (listeners w)
               (trace w) (ext w) (starting w))
      | O => w
      end
  | Fire id =>
      if existsb (fun t => Nat.eqb (fst t) id) (timers w) then
        run pollUpdates
          (mkWorld E (botPoller w) (botMaster w) (cancel (Some id) (timers w))
             (next_timeout w) (inflight w) (next_handle w) (listeners w)
             (trace w) (ext w) (starting w))
      else w
  | Kill s =>
      fold_left (fun w' stopCallback => run (cleanup stopCallback) w')
                (signal_listeners s (listeners w)) w
  end.

Definition ticks (ts : list Tick) (w : World E) : World E :=
  fold_left (fun w' t => tick t w') ts w.

(** What the process runs next, starts included: a step of the poll loop
    or of a signal, or the rest of the oldest call of [startPollUpdates]
    that waits for its skip fetch, which now settles. *)
Inductive Event :=
| Run (t : Tick)
| Skipped.

Definition event (ev : Event) (w : World E) : World E :=
  match ev with
  | Run t => tick t w
  | Skipped =>
      match starting w with
      | p :: rest =>
          run (startPollUpdates_resume p)
            (mkWorld E (botPoller w) (botMaster w) (timers w)
               (next_timeout w) (inflight w) (next_handle w) (listeners w)
               (trace w) (ext w) rest)
      | [] => w
      end
  end.

Definition events (evs : list Event) (w : World E) : World E :=
  fold_left (fun w' ev => event ev w') evs w.
End Program.

(** [constructor(botAPI, BotServant, identify, opts)] *)
Definition new_BotMaster (opts : MasterOpts) : BotMaster :=
  {| destroyTimeout := Some (or_default (opt_destroyTimeout opts) (5 * 60 * 1000));
     bots := [];
     botID := None;
     botName := None |}.

Definition master_poller (opts : MasterOpts) : Settled BotPoller :=
  new_BotPoller (Some MasterCallback)
    (mkPollerOpts (master_pollingInterval opts) (master_skippingUpdates opts)).

(** The heap right after the constructors ran. *)
Definition boot {E} (p : BotPoller) (m : BotMaster) (e : E) : World E :=
  mkWorld E p m [] O O O [] [] e [].

(** ** The earlier poller

    src/aztgbot/bot-poller.js keeps a variant of [pollUpdates] without
    cool-down: its [getUpdates] turns a failed fetch into an empty batch,
    the callback is called without [await], and the new offset is computed
    by a loop over the batch. *)
Module Legacy.

(** [let updateID = 0; for (const update of updates) { if (updateID <
    update["update_id"]) { updateID = update["update_id"]; } }] *)
Definition newest (updates : list Update) : Z :=
  fold_left (fun updateID update =>
               if updateID <? update_id update then update_id update
               else updateID)
            updates 0.

(** [getUpdates()]: [catch (error) { updates = []; }] *)
Definition getUpdates (fetch : Settled (list Update)) : list Update :=
  match fetch with
  | Fulfilled updates => updates
  | Rejected _ => []
  end.

(** [if (updateID !== 0) { this.pollingParam["offset"] = updateID + 1; }] *)
Definition next_offset (offset : Z) (fetch : Settled (list Update)) : Z :=
  let updateID := newest (getUpdates fetch) in
  if updateID =? 0 then offset else updateID + 1.

End Legacy.

(** ** bot-utils.js: snake_case

    [toSnakeCase] is three [String.prototype.replace] calls with global
    regular expressions over [[A-Z]] and [_]; each one is a scan of the
    string from left to right.  Strings are sequences of bytes here: the
    expressions look at ASCII capitals and the underscore only, every
    other byte is copied. *)

(** [[A-Z]] *)
Definition is_upper (a : ascii) : bool :=
  let n := N_of_ascii a in ((65 <=? n) && (n <=? 90))%N.

(** [toLowerCase()] on a character. *)
Definition to_lower (a : ascii) : ascii :=
  if is_upper a then ascii_of_N (N_of_ascii a + 32) else a.

(** [.replace(/^([A-Z]+)/g, (match, p1) => p1.toLowerCase())]: the
    capitals the string starts with. *)
Fixpoint lower_head (s : string) : string :=
  match s with
  | String a rest =>
      if is_upper a then String (to_lower a) (lower_head rest) else s
  | EmptyString => EmptyString
  end.

(** [.replace(/(_[A-Z]+)/g, (match, p1) => p1.toLowerCase())]: every run
    of capitals that follows an underscore.  [matching] tells that the
    character before is such an underscore or a capital of its run. *)
Fixpoint lower_after_underscore (matching : bool) (s : string) : string :=
  match s with
  | String a rest =>
      if is_upper a then
        if matching then String (to_lower a) (lower_after_underscore true rest)
        else String a (lower_after_underscore false rest)
      else String a (lower_after_underscore (Ascii.eqb a "_") rest)
  | EmptyString => EmptyString
  end.

(** [.replace(/([A-Z]+)/g, (match, p1) => `_${p1.toLowerCase()}`)]: every
    run of capitals.  [matching] tells that the character before is a
    capital of the run. *)
Fixpoint underscore_upper (matching : bool) (s : string) : string :=
  match s with
  | String a rest =>
      if is_upper a then
        if matching then String (to_lower a) (underscore_upper true rest)
        else String "_" (String (to_lower a) (underscore_upper true rest))
      else String a (underscore_upper false rest)
  | EmptyString => EmptyString
  end.

Definition toSnakeCase (camelCase : string) : string :=
  underscore_upper false (lower_after_underscore false (lower_head camelCase)).

(** ** bot-utils.js: toSnakeCaseObject *)

(** A value of an option object.  [isObject] is true of [JObject] only
    ([null] is not an object for it); an array is the object of its index
    properties, which is all that [Object.entries] sees of it. *)
Inductive Prim :=
| PUndefined
| PNull
| PBool (b : bool)
| PNumber (n : Z)
| PString (s : string).

#[warnings="-register-all"] Inductive JValue :=
| JPrim (p : Prim)
| JObject (props : list (string * JValue)).

(** [for (const entry of entries) { result[toSnakeCase(entry[0])] =
    entry[1]; }].  [result] is a plain object: an assignment to
    [__proto__] goes to the setter it inherits and adds no property. *)
Definition assign (result entries : list (string * JValue))
  : list (string * JValue) :=
  fold_left (fun r entry =>
               let name := toSnakeCase (fst entry) in
               if String.eqb name "__proto__" then r
               else Obj.set r name (snd entry))
            entries result.

(** [isObject(v) ? toSnakeCaseObject(v) : v].  The conversion of a value
    has no effect, so the values are converted first and the loop then
    runs over the entries. *)
Fixpoint snake_value (v : JValue) : JValue :=
  match v with
  | JPrim _ => v
  | JObject props =>
      JObject (assign [] (Obj.entries
                            (map (fun kv => (fst kv, snake_value (snd kv)))
                                 props)))
  end.

(** [toSnakeCaseObject(...objects)] *)
Definition toSnakeCaseObject (objects : list (list (string * JValue)))
  : list (string * JValue) :=
  fold_left (fun result object =>
               assign result
                 (Obj.entries (map (fun kv => (fst kv, snake_value (snd kv)))
                                   object)))
            objects [].

(** ** The later BotMaster.onUpdates

    docs/bot-master.js.html documents a later [onUpdates]: it reads the
    clock once, before the loop over the batch, waits for [processUpdate],
    and stamps the sessions and sweeps with that one reading. *)
Module Latest.
Section Latest.
Context {E : Type} (host : Host E).

(** [await this.bots[identifier]["instance"].processUpdate(update)] and
    [this.bots[identifier]["lastActiveTime"] = now]. *)
Definition process (now : Z) (identifier : string) (update : Update)
  : M E unit :=
  w <- get_world ;;
  match Obj.get (bots (botMaster w)) identifier with
  | Some bot =>
      match servant_processUpdate host with
      | Some f => await (ProcessUpdate (instance bot) update)
                        (f (instance bot) update)
      | None => throw (TypeError "processUpdate is not a function")
      end ;;
      w' <- get_world ;;
      set_bots (Obj.set (bots (botMaster w')) identifier
                  (mkBot now (instance bot)))
  | None => throw (TypeError "Cannot read properties of undefined")
  end.

Definition on_update (now : Z) (update : Update) : M E unit :=
  let identifier := identify host update in
  w <- get_world ;;
  match Obj.get (bots (botMaster w)) identifier with
  | Some _ => ret tt
  | None =>
      if Obj.is_inherited identifier then ret tt else create host identifier
  end ;;
  process now identifier update.

Fixpoint dispatch (now : Z) (updates : list Update) : M E unit :=
  match updates with
  | [] => ret tt
  | update :: rest => on_update now update ;; dispatch now rest
  end.

(** [if (now - bot["lastActiveTime"] > this.destroyTimeout) { ... }] *)
Definition sweep_one (now T : Z) (entry : string * Bot) : M E unit :=
  let (identifier, bot) := entry in
  if now - lastActiveTime bot >? T then
    match servant_onRemove host with
    | Some f => await (OnRemove (instance bot)) (f (instance bot))
    | None => ret tt
    end ;;
    log Debug (Removing identifier) ;;
    w' <- get_world ;;
    set_bots (Obj.delete (bots (botMaster w')) identifier) ;;
    emit (Delete identifier)
  else ret tt.

Fixpoint sweep_entries (now T : Z) (entries : list (string * Bot))
  : M E unit :=
  match entries with
  | [] => ret tt
  | entry :: rest => sweep_one now T entry ;; sweep_entries now T rest
  end.

Definition sweep (now : Z) : M E unit :=
  w <- get_world ;;
  match destroyTimeout (botMaster w) with
  | Some T => sweep_entries now T (Obj.entries (bots (botMaster w)))
  | None => ret tt
  end.

(** [const now = Date.now(); for ... ; if (this.destroyTimeout != null)
    { for ... }] *)
Definition onUpdates (updates : list Update) : M E unit :=
  w <- get_world ;;
  let now := date_now host (ext w) in
  dispatch now updates ;;
  sweep now.
End Latest.
End Latest.

(** ** bot-utils.js: FormData

    The class keeps [this.data], a plain object from field names to arrays
    of parts, and [this.buffer], the body built by the last [getBuffer].
    The boundary comes from [Math.random()] and is a parameter here.
    [set], which assigns [this.data[name]] for any name, and the
    generator [entries] are not modelled. *)
Module FormData.

(** What is passed as a value. *)
Inductive Raw :=
| RString (s : string)
| RBuffer (bytes : string)
| RNumber (n : Z)
| RBool (b : bool)
| RNull
| RUndefined.

(** What is stored: a string or a [Buffer]. *)
Inductive Value :=
| VString (s : string)
| VBuffer (bytes : string).

(** [if (!(isString(value) || isBuffer(value))) { value = `${value}`; }] *)
Definition stored (value : Raw) : Value :=
  match value with
  | RString s => VString s
  | RBuffer bytes => VBuffer bytes
  | RNumber n => VString (template n)
  | RBool true => VString "true"
  | RBool false => VString "false"
  | RNull => VString "null"
  | RUndefined => VString "undefined"
  end.

(** [{name, value, filename}] *)
Record Part := mkPart {
  part_name : string;
  part_value : Value;
  part_filename : option string
}.

Record t := mkFormData {
  buffer : option string;
  boundary : string;
  data : list (string * list Part)
}.

(** [constructor()] *)
Definition new (boundary : string) : t := mkFormData None boundary [].

(** [append(name, value, filename = null)]: for a name that the object
    inherits, [this.data[name]] is not [null] and has no [push]. *)
Definition append (fd : t) (name : string) (value : Raw)
           (filename : option string) : Settled t :=
  let part := mkPart name (stored value) filename in
  match Obj.get (data fd) name with
  | Some parts =>
      Fulfilled (mkFormData (buffer fd) (boundary fd)
                   (Obj.set (data fd) name (parts ++ [part])))
  | None =>
      if Obj.is_inherited name
      then Rejected (TypeError "this.data[name].push is not a function")
      else Fulfilled (mkFormData (buffer fd) (boundary fd)
                        (Obj.set (data fd) name [part]))
  end.

(** [delete(name)] *)
Definition delete (fd : t) (name : string) : t :=
  match Obj.get (data fd) name with
  | Some _ =>
      mkFormData (buffer fd) (boundary fd) (Obj.delete (data fd) name)
  | None => fd
  end.

(** [get(name)]; [None] is [null]. *)
Definition get (fd : t) (name : string) : Settled (option Value) :=
  match Obj.get (data fd) name with
  | Some (part :: _) => Fulfilled (Some (part_value part))
  | Some [] => Rejected (TypeError "Cannot read properties of undefined")
  | None =>
      if Obj.is_inherited name
      then Rejected (TypeError "Cannot read properties of undefined")
      else Fulfilled None
  end.

(** [getAll(name)]; [None] is [null]. *)
Definition getAll (fd : t) (name : string) : Settled (option (list Value)) :=
  match Obj.get (data fd) name with
  | Some parts => Fulfilled (Some (map part_value parts))
  | None =>
      if Obj.is_inherited name
      then Rejected (TypeError "this.data[name].map is not a function")
      else Fulfilled None
  end.

(** [has(name)] *)
Definition has (fd : t) (name : string) : bool :=
  match Obj.get (data fd) name with
  | Some _ => true
  | None => Obj.is_inherited name
  end.

(** What the iterator of [values()] yields: a value, or a part as it is
    stored. *)
Inductive Yield :=
| YValue (v : Value)
| YPart (p : Part).

(** [values()], run to its end: [Object.values(this.data).reduce((acc,
    curr) => acc.concat(curr.map((o) => o["value"])))].  Without an
    initial value [reduce] starts from the first array itself, and throws
    on no array. *)
Definition values (fd : t) : Settled (list Yield) :=
  match Obj.entries (data fd) with
  | [] => Rejected (TypeError "Reduce of empty array with no initial value")
  | (_, parts) :: rest =>
      Fulfilled
        (fold_left (fun acc curr =>
                      acc ++ map (fun o => YValue (part_value o)) (snd curr))
                   rest (map YPart parts))
  end.

Definition bytes (v : Value) : string :=
  match v with
  | VString s => s
  | VBuffer b => b
  end.

Definition CRLF : string := String "013" (String "010" "").

Definition quote : string := String "034" "".

(** The strings pushed for one part. *)
Definition part_bytes (boundary name : string) (o : Part) : string :=
  ((CRLF ++ "--" ++ boundary ++ CRLF)
   ++ ("Content-Disposition: form-data; name=" ++ quote ++ name ++ quote)
   ++ match part_filename o with
      | Some filename => "; filename=" ++ quote ++ filename ++ quote
      | None => ""
      end
   ++ (CRLF ++ CRLF)
   ++ bytes (part_value o))%string.

(** [Buffer.concat(array.map(Buffer.from))] *)
Definition body (boundary : string) (entries : list (string * list Part))
  : string :=
  fold_right (fun entry rest =>
                fold_right (fun o rest' =>
                              (part_bytes boundary (fst entry) o ++ rest')%string)
                           rest (snd entry))
             (CRLF ++ "--" ++ boundary ++ "--")%string
             entries.

(** [getBuffer()]: the body, kept in [this.buffer]. *)
Definition getBuffer (fd : t) : string * t :=
  let b := body (boundary fd) (Obj.entries (data fd)) in
  (b, mkFormData (Some b) (boundary fd) (data fd)).

(** [getLength()] *)
Definition getLength (fd : t) : nat * t :=
  match buffer fd with
  | Some b => (String.length b, fd)
  | None => let (b, fd') := getBuffer fd in (String.length b, fd')
  end.

(** What [getHeaders()] returns. *)
Record Headers := mkHeaders {
  content_type : string;
  transfer_encoding : string;
  content_length : nat
}.

(** [getHeaders()] *)
Definition getHeaders (fd : t) : Headers * t :=
  let (n, fd') := getLength fd in
  (mkHeaders ("multipart/form-data; boundary=" ++ boundary fd)%string
             "chunked" n,
   fd').

End FormData.

(** * Vocabulary of the properties *)

(** The effects that took the heap from [w] to [w']. *)
Definition emitted {E} (w w' : World E) : list Effect :=
  skipn (List.length (trace w)) (trace w').

(** The cursor: [this.pollingParam["offset"]]. *)
Definition cursor {E} (w : World E) : Z := offset (pollingParam (botPoller w)).

(** ** Relations that every step of a computation keeps *)

(** [c] takes every heap to an [R]-related one, however it settles. *)
Definition preserves {E A} (R : World E -> World E -> Prop) (c : M E A) : Prop :=
  forall w, R w (snd (c w)).

(** The effects of [BotMaster.onUpdates] and of a servant. *)
Definition registry_effect (e : Effect) : bool :=
  match e with
  | Log _ _ | New _ | Delete _ => true
  | Invoke (OnCreate _) | Invoke (ProcessUpdate _ _) | Invoke (OnRemove _) => true
  | Settle (OnCreate _) _ | Settle (OnRemove _) _ => true
  | _ => false
  end.

(** [w'] differs from [w] in the registry, the external state and by
    registry effects only: the poller and its timers are as they were. *)
Record keeps_poller {E} (w w' : World E) : Prop := {
  kp_poller : botPoller w' = botPoller w;
  kp_timers : timers w' = timers w;
  kp_next : next_timeout w' = next_timeout w;
  kp_inflight : inflight w' = inflight w;
  kp_listeners : listeners w' = listeners w;
  kp_starting : starting w' = starting w;
  kp_trace : exists evs,
      trace w' = trace w ++ evs /\ forallb registry_effect evs = true
}.

Definition registry_only {E A} (c : M E A) : Prop := preserves keeps_poller c.

(** Effects other than a fetch, a dispatch or a write of the cursor. *)
Definition off_cycle (e : Effect) : bool :=
  match e with
  | Invoke (GetUpdates _) | Settle (GetUpdates _) _ => false
  | Invoke (OnUpdates _) | Settle (OnUpdates _) _ => false
  | OffsetAssigned _ => false
  | _ => true
  end.

(** [w'] has the cursor of [w], and nothing was fetched or dispatched on
    the way. *)
Record keeps_cursor {E} (w w' : World E) : Prop := {
  kc_param : pollingParam (botPoller w') = pollingParam (botPoller w);
  kc_trace : exists evs,
      trace w' = trace w ++ evs /\ forallb off_cycle evs = true
}.

(** ** One polling cycle *)

(** What happened in a cycle. *)
Inductive Outcome :=
| FetchFailed (error : Error)
| NoUpdates
| Dispatched (updates : list Update)
| DispatchFailed (updates : list Update) (error : Error).

Definition last_id (updates : list Update) : Z :=
  update_id (last updates (mkUpdate 0 None)).

Definition fetched (o : Outcome) : Settled (list Update) :=
  match o with
  | FetchFailed error => Rejected error
  | NoUpdates => Fulfilled []
  | Dispatched updates | DispatchFailed updates _ => Fulfilled updates
  end.

(** The callback is entered with a batch that has an element. *)
Definition nonempty_batch (o : Outcome) : Prop :=
  match o with
  | Dispatched [] | DispatchFailed [] _ => False
  | _ => True
  end.

Definition cooled (o : Outcome) : bool :=
  match o with
  | FetchFailed _ | DispatchFailed _ _ => true
  | NoUpdates | Dispatched _ => false
  end.

Definition cursor_after (c : Z) (o : Outcome) : Z :=
  match o with
  | Dispatched updates => last_id updates + 1
  | _ => c
  end.

Definition cool_down_log (error : Error) : list Effect :=
  [ Log Warn (Text "Poller: Failed to poll updates, cool down.");
    Log Err (Thrown error) ].

(** The effects of the [try] statement; [inner] are those of the
    callback. *)
Definition try_events (p : PollingParam) (o : Outcome) (inner : list Effect)
  : list Effect :=
  match o with
  | FetchFailed error =>
      [Invoke (GetUpdates p); Settle (GetUpdates p) false] ++ cool_down_log error
  | NoUpdates =>
      [Invoke (GetUpdates p); Settle (GetUpdates p) true]
  | Dispatched updates =>
      [Invoke (GetUpdates p); Settle (GetUpdates p) true;
       Log Debug (GotUpdates (List.length updates)); Invoke (OnUpdates updates)]
      ++ inner
      ++ [Settle (OnUpdates updates) true; OffsetAssigned (last_id updates + 1)]
  | DispatchFailed updates error =>
      [Invoke (GetUpdates p); Settle (GetUpdates p) true;
       Log Debug (GotUpdates (List.length updates)); Invoke (OnUpdates updates)]
      ++ inner
      ++ [Settle (OnUpdates updates) false] ++ cool_down_log error
  end.

Definition delay_after {E} (w : World E) (o : Outcome) : Z :=
  if cooled o then coolDownInterval (botPoller w)
  else pollingInterval (botPoller w).

(** Everything [pollUpdates] does to the poller in one cycle that starts
    in [w], ends in [w'] and went as [o]. *)
Record cycle {E} (host : Host E) (w w' : World E) (o : Outcome)
       (inner : list Effect) : Prop := {
  cy_fetched :
    fetched o = fst (api_getUpdates host (pollingParam (botPoller w)) (ext w));
  cy_nonempty : nonempty_batch o;
  cy_inner : forallb registry_effect inner = true;
  cy_trace :
    trace w' =
    trace w
    ++ Log Debug (PollingSince (cursor w))
       :: try_events (pollingParam (botPoller w)) o inner
    ++ (if isPolling (botPoller w)
        then [SetTimeout (next_timeout w) (delay_after w o)] else []);
  cy_cursor : cursor w' = cursor_after (cursor w) o;
  cy_timeout :
    timeout (pollingParam (botPoller w')) = timeout (pollingParam (botPoller w));
  cy_callback : onUpdates_cb (botPoller w') = onUpdates_cb (botPoller w);
  cy_interval : pollingInterval (botPoller w') = pollingInterval (botPoller w);
  cy_coolDown : coolDownInterval (botPoller w') = coolDownInterval (botPoller w);
  cy_skipping : skippingUpdates (botPoller w') = skippingUpdates (botPoller w);
  cy_isPolling : isPolling (botPoller w') = isPolling (botPoller w);
  cy_pollingID :
    pollingID (botPoller w') =
    if isPolling (botPoller w) then Some (next_timeout w)
    else pollingID (botPoller w);
  cy_timers :
    timers w' =
    timers w ++ (if isPolling (botPoller w)
                 then [(next_timeout w, delay_after w o)] else []);
  cy_inflight : inflight w' = inflight w;
  cy_starting : starting w' = starting w;
  cy_listeners : listeners w' = listeners w
}.

(** ** Batches *)

(** [max(event_id in batch)]; [0] for the empty batch. *)
Definition max_update_id (updates : list Update) : Z :=
  match updates with
  | [] => 0
  | first :: rest => fold_left Z.max (map update_id rest) (update_id first)
  end.

(** Batches are ordered by ascending [update_id]. *)
Definition ascending (updates : list Update) : Prop :=
  Sorted Z.le (map update_id updates).

(** ** Hosts to run the code on *)

Module Demo.

(** A host that plays back what the server and the callback answer: the
    fetches settle as [fetches] says, one after the other (then with empty
    batches), the callback as [dispatches] says (then it returns). *)
Record Script := mkScript {
  fetches : list (Settled (list Update));
  dispatches : list (Settled unit);
  clock : Z
}.

Definition settled_hook (s : Script) : Settled unit * Script := (Fulfilled tt, s).

Definition scripted : Host Script :=
  {| api_getUpdates := fun _ s =>
       match fetches s with
       | r :: rest => (r, mkScript rest (dispatches s) (clock s))
       | [] => (Fulfilled [], s)
       end;
     api_getMe := fun s => (Fulfilled (mkMe 7 "azbot"), s);
     host_onUpdates := fun _ s =>
       match dispatches s with
       | r :: rest => (r, mkScript (fetches s) rest (clock s))
       | [] => (Fulfilled tt, s)
       end;
     identify := perFromID;
     servant_onCreate := Some (fun _ => settled_hook);
     servant_processUpdate := Some (fun _ _ => settled_hook);
     servant_onRemove := Some (fun _ => settled_hook);
     date_now := clock |}.

(** An update of a message sent by user [from]. *)
Definition update (id from : Z) : Update :=
  mkUpdate id (Some (mkMessage (Some from) (Some from) None)).

(** [new BotPoller(botAPI, onUpdates)] *)
Definition poller : BotPoller :=
  {| onUpdates_cb := HostCallback;
     pollingInterval := 1500;
     coolDownInterval := 6000;
     skippingUpdates := None;
     isPolling := false;
     pollingID := None;
     pollingParam := {| offset := 0; timeout := 1 |} |}.

Definition polling (p : BotPoller) : BotPoller :=
  mkPoller (onUpdates_cb p) (pollingInterval p) (coolDownInterval p)
    (skippingUpdates p) true (pollingID p) (pollingParam p).

(** [new BotMaster(botAPI, BotServant, perFromID)] and its poller. *)
Definition master : BotMaster := new_BotMaster (mkMasterOpts None None None).

Definition master_poller : BotPoller :=
  mkPoller MasterCallback 1500 6000 None false None (mkParam 0 1).

(** A server that always has one pending update, the one the offset asks
    for (the update [0] when the offset is negative). *)
Definition endless : Host unit :=
  {| api_getUpdates := fun p s => (Fulfilled [update (Z.max 0 (offset p)) 1], s);
     api_getMe := fun s => (Fulfilled (mkMe 7 "azbot"), s);
     host_onUpdates := fun _ s => (Fulfilled tt, s);
     identify := perFromID;
     servant_onCreate := None;
     servant_processUpdate := Some (fun _ _ s => (Fulfilled tt, s));
     servant_onRemove := None;
     date_now := fun _ => 0 |}.


(** A servant whose [onCreate] throws, on a server with nothing to
    fetch. *)
Definition refusing : Host unit :=
  {| api_getUpdates := fun _ s => (Fulfilled [], s);
     api_getMe := fun s => (Fulfilled (mkMe 7 "azbot"), s);
     host_onUpdates := fun _ s => (Fulfilled tt, s);
     identify := perFromID;
     servant_onCreate := Some (fun _ s => (Rejected (HostError "no database"), s));
     servant_processUpdate := Some (fun _ _ s => (Fulfilled tt, s));
     servant_onRemove := None;
     date_now := fun _ => 0 |}.


(** A poller that is polling, on a server and a callback that answer as
    scripted. *)
Definition world (fs : list (Settled (list Update))) (ds : list (Settled unit))
  : World Script :=
  boot (polling poller) master (mkScript fs ds 0).

Definition batch56 : list Update := [update 5 1; update 6 2].

(** The session of user 7, last active at time 1000. *)
Definition session7 : Bot := mkBot 1000 (mkInstance 0 "7").

(** A master built with [opts] that holds [session7], at time [now]. *)
Definition registry (opts : MasterOpts) (now : Z) : World Script :=
  let m := new_BotMaster opts in
  mkWorld Script master_poller
    (mkMaster (destroyTimeout m) [("7", session7)] (botID m) (botName m))
    [] O O 1%nat [] [] (mkScript [] [] now) [].

Definition default_opts : MasterOpts := mkMasterOpts None None None.

End Demo.

(** ** Starting and stopping *)

(** [pollingParam] with the offset forced to [-1]. *)
Definition forced (p : PollingParam) : PollingParam :=
  {| offset := -1; timeout := timeout p |}.

Definition skip_warning : Effect :=
  Log Warn (Text "Poller: Failed to skip updates before polling.").

(** The effects of [skipUpdates] when its fetch settles as [r]. *)
Definition skip_events (p : PollingParam) (r : Settled (list Update))
  : list Effect :=
  OffsetAssigned (-1) :: Invoke (GetUpdates (forced p))
  :: match r with
     | Fulfilled (first :: _) =>
         [Settle (GetUpdates (forced p)) true;
          OffsetAssigned (update_id first + 1)]
     | Fulfilled [] => [Settle (GetUpdates (forced p)) true]
     | Rejected error =>
         [Settle (GetUpdates (forced p)) false; skip_warning;
          Log Err (Thrown error)]
     end.

Definition skipped_cursor (r : Settled (list Update)) : Z :=
  match r with
  | Fulfilled (first :: _) => update_id first + 1
  | _ => -1
  end.



(** ** Deliveries *)





(** ** Shutdown *)




(** The listeners of [w'] are those of [w]. *)
Definition same_listeners {E} (w w' : World E) : Prop :=
  listeners w' = listeners w.

(** How often the stop hook was invoked. *)
Definition stop_hook_calls (evs : list Effect) : nat :=
  List.length (filter (fun e => match e with
                                | Invoke StopCallback => true
                                | _ => false
                                end) evs).

(** How often the shutdown sequence ran: each run logs that it exits. *)
Definition shutdown_runs (evs : list Effect) : nat :=
  List.length (filter (fun e => match e with
                                | Log Debug Exiting => true
                                | _ => false
                                end) evs).

(** ** The idle sweep *)

(** [Date.now() - bot["lastActiveTime"] > this.destroyTimeout] *)
Definition idle (T now : Z) (bot : Bot) : bool :=
  now - lastActiveTime bot >? T.

(** No [onRemove] of the servant throws, and the clock does not advance
    while one runs. *)
Definition onRemove_instant {E} (host : Host E) : Prop :=
  forall f i e,
    servant_onRemove host = Some f ->
    fst (f i e) = Fulfilled tt /\ date_now host (snd (f i e)) = date_now host e.

(** What the sweep does to evict one session. *)
Definition eviction {E} (host : Host E) (entry : string * Bot) : list Effect :=
  match servant_onRemove host with
  | Some _ => [Invoke (OnRemove (instance (snd entry)));
               Settle (OnRemove (instance (snd entry))) true]
  | None => []
  end ++ [Log Debug (Removing (fst entry)); Delete (fst entry)].

(** The effects of a sweep at time [now] over [entries]. *)
Definition sweep_events {E} (host : Host E) (T now : Z)
           (entries : list (string * Bot)) : list Effect :=
  flat_map (fun entry => if idle T now (snd entry) then eviction host entry
                         else []) entries.

(** ** Sessions in the trace *)

Definition register (k : string) (r : option Instance) (e : Effect)
  : option Instance :=
  match e with
  | New i => if String.eqb (inst_identifier i) k then Some i else r
  | Delete k' => if String.eqb k' k then None else r
  | _ => r
  end.

(** The instance registered under the identifier [k] once the effects
    [evs] have happened: the last one constructed for [k], unless [k] was
    deleted since. *)
Definition registered (evs : list Effect) (k : string) : option Instance :=
  fold_left (register k) evs None.

(** Effects that leave the registry of the trace alone. *)
Definition silent (e : Effect) : Prop :=
  match e with
  | New _ | Delete _ => False
  | _ => True
  end.

(** [e] constructs [i], or calls (or settles) its [onCreate] or its
    [processUpdate]. *)
Definition mentions (e : Effect) (i : Instance) : Prop :=
  match e with
  | New j | Invoke (OnCreate j) | Settle (OnCreate j) _
  | Invoke (ProcessUpdate j _) => j = i
  | _ => False
  end.

(** [onCreate] of [i] was invoked and has settled. *)
Definition onCreate_done (evs : list Effect) (i : Instance) : Prop :=
  In (Invoke (OnCreate i)) evs /\ exists ok, In (Settle (OnCreate i) ok) evs.

(** [onCreate] of [i] was invoked and has returned. *)
Definition onCreate_returned (evs : list Effect) (i : Instance) : Prop :=
  In (Invoke (OnCreate i)) evs /\ In (Settle (OnCreate i) true) evs.

(** What may happen in one call of [onUpdates] whose effects so far are
    [pre]: when the servant has [onCreate], [processUpdate] is called on an
    instance this call constructed only after its [onCreate] has
    returned. *)
Definition created_first {E} (host : Host E) (pre : list Effect) (e : Effect)
  : Prop :=
  match e with
  | Invoke (ProcessUpdate i _) =>
      In (New i) pre -> servant_onCreate host <> None -> onCreate_returned pre i
  | _ => True
  end.

Fixpoint orderly {E} (host : Host E) (pre evs : list Effect) : Prop :=
  match evs with
  | [] => True
  | e :: rest => created_first host pre e /\ orderly host (pre ++ [e]) rest
  end.

(** The [onCreate] of every instance constructed in [evs] has returned. *)
Definition all_created {E} (host : Host E) (evs : list Effect) : Prop :=
  forall i, In (New i) evs -> servant_onCreate host <> None ->
            onCreate_returned evs i.

(** Effects other than a call of [processUpdate] and a construction. *)
Definition no_session (e : Effect) : bool :=
  match e with
  | Invoke (ProcessUpdate _ _) | New _ => false
  | _ => true
  end.

(** What may happen after [pre]: an instance is constructed only for an
    identifier that has none registered, and is a new object;
    [processUpdate] is called only on the instance registered under the
    identifier of the update, and, when the servant has [onCreate], only
    after the [onCreate] of that instance was invoked and has settled. *)
Definition allowed {E} (host : Host E) (pre : list Effect) (e : Effect) : Prop :=
  match e with
  | New i =>
      registered pre (inst_identifier i) = None
      /\ forall e', In e' pre -> ~ mentions e' i
  | Invoke (ProcessUpdate i u) =>
      registered pre (identify host u) = Some i
      /\ (servant_onCreate host <> None -> onCreate_done pre i)
  | _ => True
  end.

Fixpoint lawful {E} (host : Host E) (pre evs : list Effect) : Prop :=
  match evs with
  | [] => True
  | e :: rest => allowed host pre e /\ lawful host (pre ++ [e]) rest
  end.

(** The registry [bots] of [w] is what the effects [evs] say. *)
Record registry_inv {E} (host : Host E) (evs : list Effect) (w : World E)
  : Prop := {
  ri_lawful : lawful host [] evs;
  ri_registered :
    forall k, registered evs k
              = option_map instance (Obj.get (bots (botMaster w)) k);
  ri_created :
    forall k b, Obj.get (bots (botMaster w)) k = Some b ->
                servant_onCreate host <> None ->
                onCreate_done evs (instance b);
  ri_handles :
    forall e i, In e evs -> mentions e i -> (handle i < next_handle w)%nat
}.

(** [w] is reached from a heap whose trace was [base] and whose registry
    was empty. *)
Definition reached {E} (host : Host E) (base : list Effect) (w : World E) : Prop :=
  exists evs, trace w = base ++ evs /\ registry_inv host evs w.

(** [BotMaster.onUpdates] called on one batch after the other. *)
Definition batches {E} (host : Host E) (bs : list (list Update)) (w : World E)
  : World E :=
  fold_left (fun w0 updates => run (onUpdates host updates) w0) bs w.

(** * Vocabulary of the further properties *)

(** ** The schedule of the poller *)

(** A cycle failed: its fetch was rejected, or the callback threw. *)
Definition cycle_failed {E} (host : Host E) (w w' : World E) : Prop :=
  (exists error,
      fst (api_getUpdates host (pollingParam (botPoller w)) (ext w))
      = Rejected error)
  \/ (exists updates, In (Settle (OnUpdates updates) false) (emitted w w')).

(** At most one polling cycle is pending, as a call in flight or as a
    timeout; a pending timeout is the one [pollingID] names, and a poller
    that is not polling has none. *)
Record tidy {E} (w : World E) : Prop := {
  td_single : (inflight w + List.length (timers w) <= 1)%nat;
  td_handle :
    forall t, In t (timers w) -> pollingID (botPoller w) = Some (fst t);
  td_stopped : isPolling (botPoller w) = false -> timers w = []
}.

(** A call of [startPollUpdates] on this poller stops at its [await]:
    the poller is not polling and the backlog is to be skipped. *)
Definition waits_for_skip (p : BotPoller) : bool :=
  negb (isPolling p)
  && match skippingUpdates p with Some false => false | _ => true end.

(** At most one start waits for its skip fetch, and while it waits no
    cycle of the poller is pending. *)
Definition one_start {E} (w : World E) : Prop :=
  starting w = []
  \/ (List.length (starting w) = 1%nat /\ inflight w = O /\ timers w = []).

(** How many fetches were made. *)
Definition fetches (evs : list Effect) : nat :=
  List.length (filter (fun e => match e with
                                | Invoke (GetUpdates _) => true
                                | _ => false
                                end) evs).

(** [w'] has the poller, the timers, the cycles in flight and the starts
    that wait of [w]. *)
Record same_schedule {E} (w w' : World E) : Prop := {
  ss_poller : botPoller w' = botPoller w;
  ss_timers : timers w' = timers w;
  ss_inflight : inflight w' = inflight w;
  ss_starting : starting w' = starting w
}.

(** ** BotMaster.loop *)

(** How an optional hook settles when it is called at [e]: a hook that is
    not a function is not called. *)
Definition hook_result {E} (hook : option (HostFn E unit)) (e : E)
  : Settled unit * E :=
  match hook with
  | Some f => f e
  | None => (Fulfilled tt, e)
  end.

Definition fulfilled {A} (r : Settled A) : bool :=
  match r with
  | Fulfilled _ => true
  | Rejected _ => false
  end.

(** The effects of [if (isFunction(hook)) { await hook(); }]. *)
Definition hook_events {E} (c : Call) (hook : option (HostFn E unit))
           (ok : bool) : list Effect :=
  match hook with
  | Some _ => [Invoke c; Settle c ok]
  | None => []
  end.

(** [w'] has the registry and the identity of [w], and the trace of [w]
    extended. *)
Record master_kept {E} (w w' : World E) : Prop := {
  mk_master : botMaster w' = botMaster w;
  mk_trace : exists evs, trace w' = trace w ++ evs
}.

(** ** BotMaster.onUpdates *)

(** The updates handed to [processUpdate], in order. *)
Definition processed (evs : list Effect) : list Update :=
  flat_map (fun e => match e with
                     | Invoke (ProcessUpdate _ update) => [update]
                     | _ => []
                     end) evs.

(** ** Shutdown *)

(** The effects of tearing sessions down. *)
Definition teardown_effect (e : Effect) : bool :=
  match e with
  | Invoke (OnRemove _) | Settle (OnRemove _) _ | Delete _ => true
  | _ => false
  end.

(** ** More hosts to run the code on *)

Module Sample.

(** A server that cannot be reached. *)
Definition offline : Host unit :=
  {| api_getUpdates := fun _ s => (Rejected (HostError "network"), s);
     api_getMe := fun s => (Rejected (HostError "network"), s);
     host_onUpdates := fun _ s => (Fulfilled tt, s);
     identify := perFromID;
     servant_onCreate := None;
     servant_processUpdate := Some (fun _ _ s => (Fulfilled tt, s));
     servant_onRemove := None;
     date_now := fun _ => 0 |}.

(** A bot that keeps one session per message text. *)
Definition by_text : Host unit :=
  {| api_getUpdates := fun _ s => (Fulfilled [], s);
     api_getMe := fun s => (Fulfilled (mkMe 7 "azbot"), s);
     host_onUpdates := fun _ s => (Fulfilled tt, s);
     identify := fun update =>
       match message update with
       | Some m => match text m with
                   | Some s => s
                   | None => "0"
                   end
       | None => "0"
       end;
     servant_onCreate := None;
     servant_processUpdate := Some (fun _ _ s => (Fulfilled tt, s));
     servant_onRemove := None;
     date_now := fun _ => 0 |}.

(** A servant whose [onRemove] throws. *)
Definition stubborn : Host unit :=
  {| api_getUpdates := fun _ s => (Fulfilled [], s);
     api_getMe := fun s => (Fulfilled (mkMe 7 "azbot"), s);
     host_onUpdates := fun _ s => (Fulfilled tt, s);
     identify := perFromID;
     servant_onCreate := None;
     servant_processUpdate := Some (fun _ _ s => (Fulfilled tt, s));
     servant_onRemove := Some (fun _ s => (Rejected (HostError "busy"), s));
     date_now := fun _ => 0 |}.

(** An update that carries the text [s]. *)
Definition says (id : Z) (s : string) : Update :=
  mkUpdate id (Some (mkMessage (Some 1) (Some 1) (Some s))).

Definition failing_hook : option (HostFn unit unit) :=
  Some (fun s => (Rejected (HostError "no database"), s)).

Definition quiet_hook : option (HostFn unit unit) :=
  Some (fun s => (Fulfilled tt, s)).

(** A master that holds the session of user 7. *)
Definition one_session : World unit :=
  mkWorld unit (Demo.polling Demo.master_poller)
    (mkMaster (Some 300000) [("7", Demo.session7)] None None)
    [] O O 1%nat [] [] tt [].

End Sample.

(** ** Identifiers and option names *)

(** The sender an update is attributed to: a missing one counts as [0]. *)
Definition sender (update : Update) : Z :=
  match message update with
  | Some m => match from_id m with
              | Some id => id
              | None => 0
              end
  | None => 0
  end.

(** The chat an update is attributed to: a missing one counts as [0]. *)
Definition chat (update : Update) : Z :=
  match message update with
  | Some m => match chat_id m with
              | Some id => id
              | None => 0
              end
  | None => 0
  end.

(** No ASCII capital occurs in [s]. *)
Fixpoint no_upper (s : string) : bool :=
  match s with
  | String a rest => negb (is_upper a) && no_upper rest
  | EmptyString => true
  end.


(** Every property name of [v], at every depth, is free of capitals. *)
#[warnings="-register-all"] Inductive snake_keys : JValue -> Prop :=
| sk_prim (p : Prim) : snake_keys (JPrim p)
| sk_object (props : list (string * JValue)) :
    Forall (fun kv => no_upper (fst kv) = true /\ snake_keys (snd kv)) props ->
    snake_keys (JObject props).

(** The entries the loops of [toSnakeCaseObject] go through, in order. *)
Definition all_entries (objects : list (list (string * JValue)))
  : list (string * JValue) :=
  flat_map (fun object => Obj.entries object) objects.

(** The last entry of [entries] whose name converts to [k]. *)
Definition last_named (k : string) (entries : list (string * JValue))
  : option JValue :=
  option_map snd
    (find (fun entry => String.eqb (toSnakeCase (fst entry)) k) (rev entries)).

(** ** Sessions and the clock *)

(** The registry holds a session [k] that was stamped at [now]. *)
Definition served {E} (now : Z) (w : World E) (k : string) : Prop :=
  exists bot,
    Obj.get (bots (botMaster w)) k = Some bot /\ lastActiveTime bot = now.

(** ** Forms *)

(** The values a form holds under [name], in the order they were added. *)
Definition held (fd : FormData.t) (name : string) : list FormData.Value :=
  match Obj.get (FormData.data fd) name with
  | Some parts => map FormData.part_value parts
  | None => []
  end.

(** The forms that the constructor and the methods build. *)
Inductive built : FormData.t -> Prop :=
| built_new (boundary : string) : built (FormData.new boundary)
| built_append (fd fd' : FormData.t) (name : string) (value : FormData.Raw)
               (filename : option string) :
    built fd -> FormData.append fd name value filename = Fulfilled fd' ->
    built fd'
| built_delete (fd : FormData.t) (name : string) :
    built fd -> built (FormData.delete fd name)
| built_getBuffer (fd : FormData.t) :
    built fd -> built (snd (FormData.getBuffer fd)).

(** No field is named like a member of [Object.prototype], and every
    field holds a part. *)
Definition well_formed (fd : FormData.t) : Prop :=
  Forall (fun entry => Obj.is_inherited (fst entry) = false /\ snd entry <> [])
         (FormData.data fd).

(** The number of bytes that the parts of [entries] take in a body. *)
Definition parts_length (boundary : string)
           (entries : list (string * list FormData.Part)) : nat :=
  list_sum
    (map (fun entry =>
            list_sum
              (map (fun o => String.length
                               (FormData.part_bytes boundary (fst entry) o))
                   (snd entry)))
         entries).
(** * Properties *)

(** ** Relations that every step of a computation keeps *)

Section Preserves.
Context {E : Type} (R : World E -> World E -> Prop).
Hypothesis R_refl : forall w, R w w.
Hypothesis R_trans : forall w1 w2 w3, R w1 w2 -> R w2 w3 -> R w1 w3.

Lemma preserves_ret A (a : A) : preserves R (ret a).
Proof. intro w. apply R_refl. Qed.

Lemma preserves_throw A error : preserves R (@throw E A error).
Proof. intro w. apply R_refl. Qed.

Lemma preserves_get_world : preserves R (@get_world E).
Proof. intro w. apply R_refl. Qed.

Lemma preserves_bind A B (c : M E A) (k : A -> M E B) :
  preserves R c -> (forall a, preserves R (k a)) -> preserves R (bind c k).
Proof.
  intros Hc Hk w. unfold bind.
  specialize (Hc w). destruct (c w) as [[a | error] w1]; cbn in *.
  - eapply R_trans; [exact Hc | apply Hk].
  - exact Hc.
Qed.

Lemma preserves_try_catch A (c : M E A) (h : Error -> M E A) :
  preserves R c -> (forall error, preserves R (h error)) ->
  preserves R (try_catch c h).
Proof.
  intros Hc Hh w. unfold try_catch.
  specialize (Hc w). destruct (c w) as [[a | error] w1]; cbn in *.
  - exact Hc.
  - eapply R_trans; [exact Hc | apply Hh].
Qed.
End Preserves.

(** Peel a computation down to its primitives; [prim] closes those. *)
Ltac preserving Hrefl Htrans prim :=
  repeat first
    [ progress intros
    | prim
    | apply preserves_bind; [exact Htrans | |]
    | apply preserves_try_catch; [exact Htrans | |]
    | apply preserves_ret; exact Hrefl
    | apply preserves_throw; exact Hrefl
    | apply preserves_get_world; exact Hrefl
    | match goal with
      | |- preserves _ (match ?x with _ => _ end) => destruct x
      | |- preserves _ (if ?x then _ else _) => destruct x
      end ].

Section Frames.
Context {E : Type}.

Lemma keeps_poller_refl (w : World E) : keeps_poller w w.
Proof.
  split; try reflexivity.
  exists []. now rewrite app_nil_r.
Qed.

Lemma keeps_poller_trans (w1 w2 w3 : World E) :
  keeps_poller w1 w2 -> keeps_poller w2 w3 -> keeps_poller w1 w3.
Proof.
  intros [a1 b1 c1 d1 l1 s1 [ev1 [t1 q1]]] [a2 b2 c2 d2 l2 s2 [ev2 [t2 q2]]].
  split; try congruence.
  exists (ev1 ++ ev2). split.
  - now rewrite t2, t1, app_assoc.
  - now rewrite forallb_app, q1, q2.
Qed.

Lemma registry_only_emit e :
  registry_effect e = true -> preserves (@keeps_poller E) (@emit E e).
Proof.
  intros He w. split; try reflexivity.
  exists [e]. cbn. now rewrite He.
Qed.

Lemma registry_only_call A (f : HostFn E A) : preserves (@keeps_poller E) (call f).
Proof.
  intro w. unfold call. destruct (f (ext w)) as [r e'].
  split; try reflexivity. exists []. cbn. now rewrite app_nil_r.
Qed.

Lemma registry_only_put_master m : preserves (@keeps_poller E) (@put_master E m).
Proof.
  intro w. split; try reflexivity. exists []. cbn. now rewrite app_nil_r.
Qed.

Lemma registry_only_fresh_handle : preserves (@keeps_poller E) (@fresh_handle E).
Proof.
  intro w. split; try reflexivity. exists []. cbn. now rewrite app_nil_r.
Qed.

Lemma keeps_cursor_refl (w : World E) : keeps_cursor w w.
Proof.
  split; try reflexivity.
  exists []. now rewrite app_nil_r.
Qed.

Lemma keeps_cursor_trans (w1 w2 w3 : World E) :
  keeps_cursor w1 w2 -> keeps_cursor w2 w3 -> keeps_cursor w1 w3.
Proof.
  intros [a1 [ev1 [t1 q1]]] [a2 [ev2 [t2 q2]]].
  split; try congruence.
  exists (ev1 ++ ev2). split.
  - now rewrite t2, t1, app_assoc.
  - now rewrite forallb_app, q1, q2.
Qed.

Lemma registry_off_cycle evs :
  forallb registry_effect evs = true -> forallb off_cycle evs = true.
Proof.
  induction evs as [| e evs IH]; [reflexivity |]. cbn.
  intros H. apply andb_prop in H. destruct H as [He Hevs].
  rewrite (IH Hevs), andb_true_r.
  destruct e as [[] | [] | | | | | | |]; try reflexivity; discriminate.
Qed.

Lemma keeps_poller_cursor (w w' : World E) : keeps_poller w w' -> keeps_cursor w w'.
Proof.
  intros [Hp _ _ _ _ _ [evs [Ht He]]]. split.
  - now rewrite Hp.
  - exists evs. split; [exact Ht | now apply registry_off_cycle].
Qed.

Lemma off_cycle_emit e :
  off_cycle e = true -> preserves (@keeps_cursor E) (@emit E e).
Proof.
  intros He w. split; try reflexivity.
  exists [e]. cbn. now rewrite He.
Qed.

Lemma off_cycle_call A (f : HostFn E A) : preserves (@keeps_cursor E) (call f).
Proof. intro w. apply keeps_poller_cursor, registry_only_call. Qed.

Lemma off_cycle_set_isPolling b : preserves (@keeps_cursor E) (@set_isPolling E b).
Proof.
  intro w. split; try reflexivity. exists []. cbn. now rewrite app_nil_r.
Qed.

Lemma off_cycle_clearTimeout id : preserves (@keeps_cursor E) (@clearTimeout E id).
Proof. intro w. split; try reflexivity. exists [ClearTimeout id]. now cbn. Qed.
End Frames.

Ltac registry :=
  preserving uconstr:(keeps_poller_refl) uconstr:(keeps_poller_trans)
    ltac:(first [ apply registry_only_emit; reflexivity
                | apply registry_only_call
                | apply registry_only_put_master
                | apply registry_only_fresh_handle ]).

Section RegistryFrame.
Context {E : Type} (host : Host E).

Lemma registry_only_dispatch updates : registry_only (dispatch host updates).
Proof.
  induction updates as [| update rest IH]; cbn [dispatch].
  - registry.
  - apply (preserves_bind _ (@keeps_poller_trans E)); [| intros; exact IH].
    unfold on_update, create, process, set_bots, log, await, awaiting, invoke.
    registry.
Qed.

Lemma registry_only_sweep_entries T entries :
  registry_only (sweep_entries host T entries).
Proof.
  induction entries as [| entry rest IH]; cbn [sweep_entries].
  - registry.
  - apply (preserves_bind _ (@keeps_poller_trans E)); [| intros; exact IH].
    unfold sweep_one, set_bots, log, await, awaiting. destruct entry. registry.
Qed.

Lemma registry_only_onUpdates updates : registry_only (onUpdates host updates).
Proof.
  unfold onUpdates, sweep.
  apply (preserves_bind _ (@keeps_poller_trans E));
    [apply registry_only_dispatch |].
  registry. apply registry_only_sweep_entries.
Qed.

Lemma registry_only_callback cb updates :
  registry_only (callback host cb updates).
Proof.
  destruct cb; cbn [callback];
    [apply registry_only_call | apply registry_only_onUpdates].
Qed.

Lemma registry_only_remove_all entries :
  registry_only (remove_all host entries).
Proof.
  induction entries as [| [identifier bot] rest IH]; cbn [remove_all].
  - registry.
  - unfold set_bots, await, awaiting. registry. exact IH.
Qed.

(** [cleanup] leaves the cursor alone and neither fetches nor
    dispatches. *)
Lemma cleanup_keeps_cursor stopCallback :
  preserves (@keeps_cursor E) (cleanup host stopCallback).
Proof.
  unfold cleanup, stopPollUpdates, call_stopCallback, log, await, awaiting.
  preserving uconstr:(keeps_cursor_refl) uconstr:(keeps_cursor_trans)
    ltac:(first [ apply off_cycle_emit; reflexivity
                | apply off_cycle_call
                | apply off_cycle_set_isPolling
                | apply off_cycle_clearTimeout
                | intro; apply keeps_poller_cursor, registry_only_remove_all ]).
Qed.
End RegistryFrame.

(** Unfold the monad and its primitives. *)
Ltac js_unfold :=
  unfold bind, try_catch, ret, throw, emit, call, get_world, put_poller,
    put_master, setTimeout, clearTimeout, spawn_pollUpdates, suspend_start,
    fresh_handle, process_on in *.

(** ** One polling cycle *)

Lemma last_default (A : Type) (l : list A) (a d d' : A) :
  last (a :: l) d = last (a :: l) d'.
Proof.
  revert a. induction l as [| b l IH]; intro a; [reflexivity |].
  change (last (b :: l) d = last (b :: l) d'). apply IH.
Qed.

Section Cycle.
Context {E : Type} (host : Host E).

(** The [try] statement, case by case. *)
Lemma fetch_and_dispatch_spec (w : World E) :
  exists (o : Outcome) (inner : list Effect) (w' : World E),
    fetch_and_dispatch host w = (Fulfilled (cooled o), w')
    /\ fetched o = fst (api_getUpdates host (pollingParam (botPoller w)) (ext w))
    /\ nonempty_batch o
    /\ forallb registry_effect inner = true
    /\ trace w' = trace w ++ try_events (pollingParam (botPoller w)) o inner
    /\ cursor w' = cursor_after (cursor w) o
    /\ timeout (pollingParam (botPoller w')) = timeout (pollingParam (botPoller w))
    /\ onUpdates_cb (botPoller w') = onUpdates_cb (botPoller w)
    /\ pollingInterval (botPoller w') = pollingInterval (botPoller w)
    /\ coolDownInterval (botPoller w') = coolDownInterval (botPoller w)
    /\ skippingUpdates (botPoller w') = skippingUpdates (botPoller w)
    /\ isPolling (botPoller w') = isPolling (botPoller w)
    /\ pollingID (botPoller w') = pollingID (botPoller w)
    /\ timers w' = timers w
    /\ next_timeout w' = next_timeout w
    /\ inflight w' = inflight w
    /\ listeners w' = listeners w
    /\ starting w' = starting w.
Proof.
  unfold fetch_and_dispatch, call_getUpdates, call_onUpdates, await, awaiting,
    set_offset, log.
  js_unfold. cbn -[last List.length].
  destruct (api_getUpdates host (pollingParam (botPoller w)) (ext w))
    as [[[| first rest] | error] e1] eqn:Hfetch; cbn -[last List.length].
  - exists NoUpdates, []. eexists. split; [reflexivity |]. cbn.
    repeat split; try reflexivity. now rewrite <- app_assoc.
  - match goal with
    | |- context [callback host ?cb ?us ?w1] =>
        pose proof (registry_only_callback host cb us w1) as Hkeep;
        destruct (callback host cb us w1) as [[[] | error] w2] eqn:Hcb
    end; cbn in Hkeep; destruct Hkeep as [Hp Ht Hn Hi Hl Hs [inner [Htr Hin]]];
      cbn -[last List.length] in *.
    + exists (Dispatched (first :: rest)), inner. eexists.
      split; [reflexivity |]. unfold cursor, last_id.
      cbn -[last List.length].
      rewrite Hp, Htr, (last_default _ rest first first (mkUpdate 0 None)).
      repeat split; try reflexivity; try assumption.
      repeat rewrite <- app_assoc. reflexivity.
    + exists (DispatchFailed (first :: rest) error), inner. eexists.
      split; [reflexivity |]. unfold cursor.
      cbn -[last List.length].
      rewrite Hp, Htr.
      repeat split; try reflexivity; try assumption.
      repeat rewrite <- app_assoc. reflexivity.
  - exists (FetchFailed error), []. eexists. split; [reflexivity |]. cbn.
    repeat split; try reflexivity. repeat rewrite <- app_assoc. reflexivity.
Qed.
(** [pollUpdates] never rejects, and every run of it is a [cycle]. *)
Lemma pollUpdates_cycle (w : World E) :
  fst (pollUpdates host w) = Fulfilled tt
  /\ exists o inner, cycle host w (snd (pollUpdates host w)) o inner.
Proof.
  unfold pollUpdates, reschedule, set_pollingID, log. js_unfold. cbn.
  match goal with
  | |- context [fetch_and_dispatch host ?w0] =>
      destruct (fetch_and_dispatch_spec w0)
        as (o & inner & w1 & Hrun & Hf & Hne & Hin & Htr & Hcur & Hto & Hcb
            & Hpi & Hcd & Hsk & Hip & Hid & Htm & Hnx & Hfl & Hls & Hst);
      rewrite Hrun
  end.
  cbn in Hf, Htr, Hcur, Hto, Hcb, Hpi, Hcd, Hsk, Hip, Hid, Htm, Hnx, Hfl, Hls,
    Hst.
  unfold cursor in Hcur. cbn in Hcur. cbn.
  rewrite Hip.
  destruct (isPolling (botPoller w)) eqn:Hpolling; cbn.
  - split; [reflexivity |]. exists o, inner.
    split; unfold cursor, delay_after; cbn; try assumption; try reflexivity.
    + rewrite Htr, Hnx, Hcd, Hpi. rewrite Hpolling.
      rewrite <- !app_assoc. cbn. reflexivity.
    + now rewrite Hpolling.
    + now rewrite Hpolling, Hnx.
    + now rewrite Hpolling, Htm, Hnx, Hcd, Hpi.
  - split; [reflexivity |]. exists o, inner.
    split; unfold cursor, delay_after; cbn; try assumption; try reflexivity.
    + rewrite Htr, Hpolling, app_nil_r, <- app_assoc. reflexivity.
    + now rewrite Hpolling.
    + now rewrite Hpolling.
    + now rewrite Hpolling, app_nil_r.
Qed.
End Cycle.

(** ** Lists of effects *)

Lemma emitted_app {E} (w w' : World E) (evs : list Effect) :
  trace w' = trace w ++ evs -> emitted w w' = evs.
Proof.
  intros H. unfold emitted. rewrite H, skipn_app, skipn_all, Nat.sub_diag.
  reflexivity.
Qed.

Lemma emitted_refl {E} (w : World E) : emitted w w = [].
Proof. apply emitted_app. now rewrite app_nil_r. Qed.

Lemma forallb_In (P : Effect -> bool) (l : list Effect) (e : Effect) :
  forallb P l = true -> In e l -> P e = true.
Proof. intros H. now apply forallb_forall. Qed.

(** An element that is not in [l1] splits [l1 ++ l2] after [l1]. *)
Lemma split_after (A : Type) (l1 l2 pre post : list A) (y : A) :
  pre ++ y :: post = l1 ++ l2 -> ~ In y l1 ->
  exists pre', pre = l1 ++ pre' /\ pre' ++ y :: post = l2.
Proof.
  revert pre. induction l1 as [| a l1 IH]; intros pre Heq Hnot.
  - exists pre. now split.
  - destruct pre as [| b pre]; cbn in Heq; injection Heq as Hhead Htail.
    + exfalso. apply Hnot. now left.
    + subst b. destruct (IH pre Htail) as (pre' & Hpre & Hrest).
      * intro Hin. apply Hnot. now right.
      * exists pre'. split; [now rewrite Hpre | exact Hrest].
Qed.

Ltac in_cases :=
  repeat match goal with
    | H : In _ [] |- _ => destruct H
    | H : In _ (_ :: _) |- _ => destruct H as [H | H]
    | H : In _ (_ ++ _) |- _ => apply in_app_or in H; destruct H as [H | H]
    | H : In _ (if ?b then _ else _) |- _ => destruct b
    | H : In _ (cool_down_log _) |- _ => unfold cool_down_log in H
    end.

(** In a sorted batch the last update has the greatest identifier. *)
Lemma fold_max_sorted (l : list Z) (a d : Z) :
  Sorted Z.le (a :: l) -> fold_left Z.max l a = last (a :: l) d.
Proof.
  revert a. induction l as [| b l IH]; intros a Hs; [reflexivity |].
  cbn [fold_left]. inversion Hs as [| ? ? Hrest Hhd]; subst.
  inversion Hhd as [| ? ? Hab]; subst.
  rewrite Z.max_r by exact Hab.
  rewrite (IH b Hrest). reflexivity.
Qed.

Lemma last_map (A B : Type) (f : A -> B) (l : list A) (d : A) :
  last (map f l) (f d) = f (last l d).
Proof.
  induction l as [| a l IH]; [reflexivity |].
  destruct l as [| b l]; [reflexivity |]. exact IH.
Qed.

Lemma ascending_last_max (updates : list Update) :
  updates <> [] -> ascending updates -> last_id updates = max_update_id updates.
Proof.
  destruct updates as [| first rest]; [congruence |]. intros _ Hs.
  unfold ascending in Hs. cbn [map] in Hs.
  unfold max_update_id, last_id.
  rewrite (fold_max_sorted _ _ (update_id (mkUpdate 0 None)) Hs).
  change (update_id first :: map update_id rest)
    with (map update_id (first :: rest)).
  now rewrite last_map.
Qed.

(** ** C1, C2: the cursor in one cycle *)

Section CursorInCycle.
Context {E : Type} (host : Host E).

Lemma cycle_emitted {w w' : World E} {o inner} :
  cycle host w w' o inner ->
  emitted w w' =
  Log Debug (PollingSince (cursor w))
  :: try_events (pollingParam (botPoller w)) o inner
  ++ (if isPolling (botPoller w)
      then [SetTimeout (next_timeout w) (delay_after w o)] else []).
Proof. intros C. apply emitted_app, (cy_trace _ _ _ _ _ C). Qed.

(** How the callback settled tells how the cycle went. *)
Lemma cycle_settled {w w' : World E} {o inner updates ok} :
  cycle host w w' o inner ->
  In (Settle (OnUpdates updates) ok) (emitted w w') ->
  if ok then o = Dispatched updates
  else exists error, o = DispatchFailed updates error.
Proof.
  intros C Hin. rewrite (cycle_emitted C) in Hin.
  pose proof (cy_inner _ _ _ _ _ C) as Hinner.
  destruct o as [error | | batch | batch error]; cbn [try_events] in Hin;
    in_cases; try discriminate;
    try (apply (forallb_In _ _ _ Hinner) in Hin; discriminate).
  - injection Hin as Hbatch Hok. subst. reflexivity.
  - injection Hin as Hbatch Hok. subst. now exists error.
Qed.

Lemma fetched_rejected o error : fetched o = Rejected error -> o = FetchFailed error.
Proof. destruct o; cbn; congruence. Qed.

Lemma fetched_empty o : fetched o = Fulfilled [] -> nonempty_batch o -> o = NoUpdates.
Proof.
  destruct o as [| | [|] | [|]]; cbn; try congruence; contradiction.
Qed.

(** C1. For every fetch result of a polling cycle: after a failed fetch and
    after an empty batch the cursor is what it was; after a non-empty batch
    whose dispatch completed it is the [update_id] of the last update plus
    one, which for a batch in ascending order of [update_id] (as batches
    are) is the greatest [update_id] of the batch plus one. *)
Theorem cursor_after_cycle (w : World E) :
  let fetch := fst (api_getUpdates host (pollingParam (botPoller w)) (ext w)) in
  let w' := run (pollUpdates host) w in
  (forall error, fetch = Rejected error -> cursor w' = cursor w)
  /\ (fetch = Fulfilled [] -> cursor w' = cursor w)
  /\ (forall updates,
         fetch = Fulfilled updates -> updates <> [] ->
         In (Settle (OnUpdates updates) true) (emitted w w') ->
         cursor w' = last_id updates + 1
         /\ (ascending updates -> cursor w' = max_update_id updates + 1)).
Proof.
  cbv zeta. unfold run.
  destruct (pollUpdates_cycle host w) as [_ (o & inner & C)].
  pose proof (cy_fetched _ _ _ _ _ C) as Hf.
  pose proof (cy_cursor _ _ _ _ _ C) as Hc.
  split; [| split].
  - intros error Hfetch. rewrite Hfetch in Hf.
    apply fetched_rejected in Hf. now subst o.
  - intros Hfetch. rewrite Hfetch in Hf.
    apply fetched_empty in Hf; [| exact (cy_nonempty _ _ _ _ _ C)]. now subst o.
  - intros updates _ Hne Hsettled.
    pose proof (cycle_settled C Hsettled) as Ho. cbn in Ho.
    subst o. rewrite Hc. cbn [cursor_after].
    split; [reflexivity |]. intros Hasc.
    now rewrite (ascending_last_max updates Hne Hasc).
Qed.

End CursorInCycle.

Arguments cycle_emitted {E host w w' o inner} _.
Arguments cycle_settled {E host w w' o inner updates ok} _ _.

(** The earlier variant of the poller computes the maximum itself: on a
    batch with a positive identifier it moves the offset to the greatest
    [update_id] plus one, in whatever order the batch is; an empty batch and
    a failed fetch leave the offset. *)
Lemma legacy_newest_max (updates : list Update) (m : Z) :
  fold_left (fun updateID update =>
               if updateID <? update_id update then update_id update
               else updateID) updates m
  = fold_left Z.max (map update_id updates) m.
Proof.
  revert m. induction updates as [| u updates IH]; intro m; [reflexivity |].
  cbn [fold_left map]. rewrite <- IH. f_equal.
  destruct (Z.ltb_spec m (update_id u)); lia.
Qed.

Lemma fold_max_le (l : list Z) (m : Z) : m <= fold_left Z.max l m.
Proof.
  revert m. induction l as [| a l IH]; intro m; cbn; [lia |].
  specialize (IH (Z.max m a)). lia.
Qed.

Lemma legacy_next_offset (offset : Z) (first : Update) (rest : list Update) :
  0 < update_id first ->
  Legacy.next_offset offset (Fulfilled (first :: rest))
  = max_update_id (first :: rest) + 1.
Proof.
  intros Hpos. unfold Legacy.next_offset, Legacy.newest, Legacy.getUpdates.
  rewrite legacy_newest_max. cbn [map fold_left max_update_id].
  rewrite (Z.max_r 0 (update_id first)) by lia.
  pose proof (fold_max_le (map update_id rest) (update_id first)).
  destruct (Z.eqb_spec (fold_left Z.max (map update_id rest) (update_id first)) 0);
    [lia | reflexivity].
Qed.

Lemma legacy_offset_unchanged (offset : Z) (error : Error) :
  Legacy.next_offset offset (Fulfilled []) = offset
  /\ Legacy.next_offset offset (Rejected error) = offset.
Proof. now split. Qed.

Lemma cursor_after_cycle_witness :
  let w := Demo.world [Fulfilled Demo.batch56] [] in
  Demo.batch56 <> []
  /\ ascending Demo.batch56
  /\ In (Settle (OnUpdates Demo.batch56) true)
        (emitted w (run (pollUpdates Demo.scripted) w))
  /\ cursor (run (pollUpdates Demo.scripted) w) = 7.
Proof.
  cbv zeta.
  assert (Hne : Demo.batch56 <> []) by discriminate.
  assert (Hasc : ascending Demo.batch56).
  { unfold ascending, Demo.batch56. cbn. repeat constructor. lia. }
  assert (Hin : In (Settle (OnUpdates Demo.batch56) true)
                  (emitted (Demo.world [Fulfilled Demo.batch56] [])
                     (run (pollUpdates Demo.scripted)
                        (Demo.world [Fulfilled Demo.batch56] [])))).
  { vm_compute. tauto. }
  assert (Hfetch : fst (api_getUpdates Demo.scripted
                          (pollingParam
                             (botPoller (Demo.world [Fulfilled Demo.batch56] [])))
                          (ext (Demo.world [Fulfilled Demo.batch56] [])))
                   = Fulfilled Demo.batch56).
  { vm_compute. reflexivity. }
  split; [exact Hne |]. split; [exact Hasc |]. split; [exact Hin |].
  exact (proj2 (proj2 (proj2 (cursor_after_cycle Demo.scripted
                                (Demo.world [Fulfilled Demo.batch56] [])))
                  Demo.batch56 Hfetch Hne Hin) Hasc).
Defined.

Section DispatchInCycle.
Context {E : Type} (host : Host E).

Lemma offset_not_registry inner v :
  forallb registry_effect inner = true -> ~ In (OffsetAssigned v) inner.
Proof. intros H Hin. apply (forallb_In _ _ _ H) in Hin. discriminate. Qed.

Lemma param_eq (p q : PollingParam) :
  offset p = offset q -> timeout p = timeout q -> p = q.
Proof. destruct p, q; cbn; congruence. Qed.

(** C2. In every polling cycle the cursor is written only after the
    awaited callback has settled without throwing, and a cycle with a
    non-empty batch does hand the batch to the callback and waits for it.
    If the callback throws, the cursor is not written in that cycle:
    [pollingParam] is what it was, and the next cycle begins by fetching
    with that same [pollingParam]. *)
Theorem dispatch_awaited_before_cursor (w : World E) :
  let fetch := fst (api_getUpdates host (pollingParam (botPoller w)) (ext w)) in
  let w' := run (pollUpdates host) w in
  (forall pre v post,
      emitted w w' = pre ++ OffsetAssigned v :: post ->
      exists updates,
        In (Invoke (OnUpdates updates)) pre
        /\ In (Settle (OnUpdates updates) true) pre
        /\ v = last_id updates + 1)
  /\ (forall updates,
         fetch = Fulfilled updates -> updates <> [] ->
         exists ok pre post,
           emitted w w' =
           pre ++ Invoke (OnUpdates updates) :: post
           /\ In (Settle (OnUpdates updates) ok) post)
  /\ (forall updates,
         In (Settle (OnUpdates updates) false) (emitted w w') ->
         (forall v, ~ In (OffsetAssigned v) (emitted w w'))
         /\ pollingParam (botPoller w') = pollingParam (botPoller w)
         /\ exists rest,
             emitted w' (run (pollUpdates host) w') =
             Log Debug (PollingSince (cursor w))
             :: Invoke (GetUpdates (pollingParam (botPoller w))) :: rest).
Proof.
  cbv zeta. unfold run.
  destruct (pollUpdates_cycle host w) as [_ (o & inner & C)].
  pose proof (cycle_emitted C) as Hem.
  pose proof (cy_inner _ _ _ _ _ C) as Hinner.
  repeat split.
  - intros pre v post Hsplit. rewrite Hem in Hsplit. symmetry in Hsplit.
    destruct o as [error | | batch | batch error].
    + assert (Hin : In (OffsetAssigned v) (pre ++ OffsetAssigned v :: post))
        by (apply in_elt).
      rewrite Hsplit in Hin. cbn [try_events] in Hin. in_cases; discriminate.
    + assert (Hin : In (OffsetAssigned v) (pre ++ OffsetAssigned v :: post))
        by (apply in_elt).
      rewrite Hsplit in Hin. cbn [try_events] in Hin. in_cases; discriminate.
    + exists batch.
      assert (Hl : forall sched,
                 Log Debug (PollingSince (cursor w))
                 :: try_events (pollingParam (botPoller w)) (Dispatched batch) inner
                 ++ sched
                 = (Log Debug (PollingSince (cursor w))
                    :: [Invoke (GetUpdates (pollingParam (botPoller w)));
                        Settle (GetUpdates (pollingParam (botPoller w))) true;
                        Log Debug (GotUpdates (List.length batch));
                        Invoke (OnUpdates batch)]
                    ++ inner ++ [Settle (OnUpdates batch) true])
                   ++ (OffsetAssigned (last_id batch + 1) :: sched)).
      { intro sched. cbn. rewrite <- !app_assoc. reflexivity. }
      rewrite Hl in Hsplit. clear Hl.
      apply split_after in Hsplit.
      * destruct Hsplit as (pre' & -> & Hrest).
        split; [| split].
        -- apply in_or_app. left. cbn. tauto.
        -- apply in_or_app. left. right.
           apply in_or_app. right. apply in_or_app. right. now left.
        -- destruct pre' as [| x pre']; cbn in Hrest.
           ++ now injection Hrest.
           ++ injection Hrest as _ Hrest.
              assert (Hin : In (OffsetAssigned v) (pre' ++ OffsetAssigned v :: post))
                by (apply in_elt).
              rewrite Hrest in Hin. in_cases; discriminate.
      * intro Hin. in_cases; try discriminate.
        now apply (offset_not_registry _ _ Hinner) in Hin.
    + assert (Hin : In (OffsetAssigned v) (pre ++ OffsetAssigned v :: post))
        by (apply in_elt).
      rewrite Hsplit in Hin. cbn [try_events] in Hin.
      in_cases; try discriminate.
      now apply (offset_not_registry _ _ Hinner) in Hin.
  - intros updates Hfetch Hne.
    pose proof (cy_fetched _ _ _ _ _ C) as Hf. rewrite Hfetch in Hf.
    pose proof (cy_nonempty _ _ _ _ _ C) as Hnb.
    rewrite Hem.
    destruct o as [error | | batch | batch error]; cbn in Hf; try congruence;
      injection Hf as ->; cbn [try_events].
    + exists true. eexists [_; _; _; _], _. split.
      * cbn. reflexivity.
      * apply in_or_app. left. apply in_or_app. right. now left.
    + exists false. eexists [_; _; _; _], _. split.
      * cbn. reflexivity.
      * apply in_or_app. left. apply in_or_app. right. now left.
  - intros v Hin.
    pose proof (cycle_settled C H) as [error ->].
    rewrite Hem in Hin. cbn [try_events] in Hin. in_cases; try discriminate.
    now apply (offset_not_registry _ _ Hinner) in Hin.
  - pose proof (cycle_settled C H) as [error ->].
    apply param_eq.
    + exact (cy_cursor _ _ _ _ _ C).
    + exact (cy_timeout _ _ _ _ _ C).
  - pose proof (cycle_settled C H) as [error ->].
    assert (Hparam : pollingParam (botPoller (snd (pollUpdates host w)))
                     = pollingParam (botPoller w)).
    { apply param_eq;
        [exact (cy_cursor _ _ _ _ _ C) | exact (cy_timeout _ _ _ _ _ C)]. }
    destruct (pollUpdates_cycle host (snd (pollUpdates host w)))
      as [_ (o' & inner' & C')].
    rewrite (cycle_emitted C'). unfold cursor. rewrite Hparam.
    destruct o'; cbn [try_events app]; eexists; reflexivity.
Qed.

End DispatchInCycle.

Lemma dispatch_awaited_before_cursor_witness :
  let w := Demo.world [Fulfilled Demo.batch56]
             [Rejected (HostError "handler failed")] in
  let w' := run (pollUpdates Demo.scripted) w in
  In (Settle (OnUpdates Demo.batch56) false) (emitted w w')
  /\ pollingParam (botPoller w') = pollingParam (botPoller w).
Proof.
  assert (Hin : In (Settle (OnUpdates Demo.batch56) false)
                  (emitted
                     (Demo.world [Fulfilled Demo.batch56]
                        [Rejected (HostError "handler failed")])
                     (run (pollUpdates Demo.scripted)
                        (Demo.world [Fulfilled Demo.batch56]
                           [Rejected (HostError "handler failed")])))).
  { vm_compute. tauto. }
  split; [exact Hin |].
  exact (proj1 (proj2 (proj2 (proj2 (dispatch_awaited_before_cursor
                                        Demo.scripted _)) Demo.batch56 Hin))).
Defined.


(** ** C3, C9, C10: starting and stopping *)

Section StartStop.
Context {E : Type} (host : Host E).

(** [startPollUpdates_awaited] on a poller that is not polling and skips the
    backlog. *)
Lemma startPollUpdates_skip (w : World E) :
  isPolling (botPoller w) = false ->
  skippingUpdates (botPoller w) <> Some false ->
  let r := fst (api_getUpdates host (forced (pollingParam (botPoller w))) (ext w)) in
  let w' := run (startPollUpdates_awaited host) w in
  fst (startPollUpdates_awaited host w) = Fulfilled true
  /\ trace w' = trace w ++ skip_events (pollingParam (botPoller w)) r
  /\ cursor w' = skipped_cursor r
  /\ timeout (pollingParam (botPoller w')) = timeout (pollingParam (botPoller w))
  /\ isPolling (botPoller w') = true
  /\ inflight w' = S (inflight w)
  /\ timers w' = timers w.
Proof.
  intros Hidle Hskip. cbv zeta.
  unfold run, startPollUpdates_awaited. js_unfold. cbn. rewrite Hidle. cbn.
  assert (Hrun :
    forall w0 : World E,
      w0 = w ->
      let r := fst (api_getUpdates host (forced (pollingParam (botPoller w))) (ext w)) in
      exists w1,
        skipUpdates host w0 = (Fulfilled tt, w1)
        /\ trace w1 = trace w ++ skip_events (pollingParam (botPoller w)) r
        /\ cursor w1 = skipped_cursor r
        /\ timeout (pollingParam (botPoller w1)) = timeout (pollingParam (botPoller w))
        /\ isPolling (botPoller w1) = isPolling (botPoller w)
        /\ inflight w1 = inflight w
        /\ timers w1 = timers w).
  { intros w0 ->. unfold skipUpdates, skipUpdates_call, skipUpdates_settle,
      set_offset, settling, log, skip_events, skip_warning, forced, cursor.
    js_unfold. cbn.
    destruct (api_getUpdates host
                {| offset := -1; timeout := timeout (pollingParam (botPoller w)) |}
                (ext w)) as [[[| first rest] | error] e1]; cbn;
      eexists; (split; [reflexivity |]); cbn;
      repeat split; rewrite <- ?app_assoc; reflexivity. }
  destruct (skippingUpdates (botPoller w)) as [[|] |]; try congruence;
    destruct (Hrun w eq_refl) as (w1 & -> & Htr & Hcur & Hto & Hip & Hfl & Htm);
    unfold start_polling, set_isPolling, cursor in *; js_unfold; cbn;
    repeat split; try assumption; now rewrite ?Hfl.
Qed.

Lemma stopPollUpdates_idle (w : World E) :
  isPolling (botPoller w) = false -> stopPollUpdates w = (Fulfilled false, w).
Proof.
  intros H. unfold stopPollUpdates. js_unfold. cbn. rewrite H. cbn.
  now rewrite H.
Qed.

Lemma startPollUpdates_polling (w : World E) :
  isPolling (botPoller w) = true -> startPollUpdates_awaited host w = (Fulfilled true, w).
Proof.
  intros H. unfold startPollUpdates_awaited. js_unfold. cbn. rewrite H. cbn.
  reflexivity.
Qed.

(** [startPollUpdates_awaited] always fulfils with [true] and leaves the poller
    polling. *)
Lemma startPollUpdates_polls (w : World E) :
  fst (startPollUpdates_awaited host w) = Fulfilled true
  /\ isPolling (botPoller (run (startPollUpdates_awaited host) w)) = true.
Proof.
  destruct (isPolling (botPoller w)) eqn:Hp.
  - unfold run. rewrite (startPollUpdates_polling w Hp). now split.
  - destruct (skippingUpdates (botPoller w)) as [[|] |] eqn:Hs.
    + destruct (startPollUpdates_skip w Hp) as (H1 & _ & _ & _ & H2 & _);
        [congruence | now split].
    + unfold run, startPollUpdates_awaited, start_polling, set_isPolling.
      js_unfold. cbn. rewrite Hp, Hs. cbn. now split.
    + destruct (startPollUpdates_skip w Hp) as (H1 & _ & _ & _ & H2 & _);
        [congruence | now split].
Qed.

Lemma stopPollUpdates_stops (w : World E) :
  fst (stopPollUpdates w) = Fulfilled false
  /\ isPolling (botPoller (run stopPollUpdates w)) = false.
Proof.
  destruct (isPolling (botPoller w)) eqn:Hp.
  - unfold run, stopPollUpdates, set_isPolling. js_unfold. cbn.
    rewrite Hp. cbn. now split.
  - unfold run. rewrite (stopPollUpdates_idle w Hp). now split.
Qed.

(** What holds of two calls in a row.  [startPollUpdates], awaited, on a
    poller that is polling, and [stopPollUpdates] on one that is not,
    return the flag and change nothing.  Hence a second start made after
    the first one settled, and a second stop, return what the first
    returned and leave the heap (flag, cursor, timers, cycle in flight,
    effects) as the first call left it. *)
Lemma start_stop_idempotent (w : World E) :
  (isPolling (botPoller w) = true ->
   startPollUpdates_awaited host w = (Fulfilled true, w))
  /\ (isPolling (botPoller w) = false ->
      stopPollUpdates w = (Fulfilled false, w))
  /\ (let w1 := run (startPollUpdates_awaited host) w in
      startPollUpdates_awaited host w1 = (fst (startPollUpdates_awaited host w), w1))
  /\ (let w1 := run stopPollUpdates w in
      stopPollUpdates w1 = (fst (stopPollUpdates w), w1)).
Proof.
  split; [apply startPollUpdates_polling |].
  split; [apply stopPollUpdates_idle |].
  split; cbv zeta.
  - destruct (startPollUpdates_polls w) as [-> Hp].
    now apply startPollUpdates_polling.
  - destruct (stopPollUpdates_stops w) as [-> Hp].
    now apply stopPollUpdates_idle.
Qed.

(** *** The call of [startPollUpdates] and its rest *)

(** On a poller that is polling the call returns at once. *)
Lemma startPollUpdates_on_polling (w : World E) :
  isPolling (botPoller w) = true ->
  startPollUpdates w = (Fulfilled (Some true), w).
Proof.
  intros H. unfold startPollUpdates. js_unfold. cbn. rewrite H. cbn.
  reflexivity.
Qed.

(** On a poller that is not polling and skips the backlog, the call
    forces the offset, sends the skip fetch and waits: the flag is still
    [false]. *)
Lemma startPollUpdates_waits (w : World E) :
  isPolling (botPoller w) = false ->
  skippingUpdates (botPoller w) <> Some false ->
  let p := forced (pollingParam (botPoller w)) in
  let w1 := run startPollUpdates w in
  fst (startPollUpdates w) = Fulfilled None
  /\ trace w1 = trace w ++ [OffsetAssigned (-1); Invoke (GetUpdates p)]
  /\ starting w1 = starting w ++ [p]
  /\ pollingParam (botPoller w1) = p
  /\ isPolling (botPoller w1) = false
  /\ skippingUpdates (botPoller w1) = skippingUpdates (botPoller w)
  /\ pollingInterval (botPoller w1) = pollingInterval (botPoller w)
  /\ inflight w1 = inflight w
  /\ timers w1 = timers w
  /\ botMaster w1 = botMaster w
  /\ ext w1 = ext w.
Proof.
  intros Hidle Hskip. cbv zeta.
  unfold run, startPollUpdates, skipUpdates_call, set_offset, forced.
  js_unfold. cbn. rewrite Hidle. cbn.
  destruct (skippingUpdates (botPoller w)) as [[|] |] eqn:Hs; try congruence;
    cbn; rewrite <- app_assoc; repeat split; assumption.
Qed.

(** With the backlog kept the call runs to its end. *)
Lemma startPollUpdates_no_skip (w : World E) :
  isPolling (botPoller w) = false ->
  skippingUpdates (botPoller w) = Some false ->
  let w1 := run startPollUpdates w in
  startPollUpdates w
  = (Fulfilled (Some true), run (startPollUpdates_awaited host) w)
  /\ trace w1 = trace w
  /\ starting w1 = starting w
  /\ isPolling (botPoller w1) = true
  /\ inflight w1 = S (inflight w)
  /\ timers w1 = timers w
  /\ botMaster w1 = botMaster w.
Proof.
  intros Hidle Hskip.
  unfold run, startPollUpdates, startPollUpdates_awaited, start_polling,
    set_isPolling.
  js_unfold. cbn. rewrite Hidle, Hskip. cbn. repeat split.
Qed.

(** The rest of a call that waited never rejects: its promise is
    fulfilled with [true], the poller is polling and a cycle is in
    flight. *)
Lemma startPollUpdates_resume_polls (p : PollingParam) (w : World E) :
  let w' := run (startPollUpdates_resume host p) w in
  fst (startPollUpdates_resume host p w) = Fulfilled true
  /\ isPolling (botPoller w') = true
  /\ inflight w' = S (inflight w)
  /\ timers w' = timers w
  /\ starting w' = starting w
  /\ pollingID (botPoller w') = pollingID (botPoller w)
  /\ botMaster w' = botMaster w
  /\ listeners w' = listeners w.
Proof.
  unfold run, startPollUpdates_resume, skipUpdates_settle, start_polling,
    set_offset, set_isPolling, settling, log.
  js_unfold. cbn.
  destruct (api_getUpdates host p (ext w)) as [[[| first rest] | error] e1];
    cbn; repeat split.
Qed.

(** The event [Skipped] runs the rest of the oldest start that waits, and
    does nothing when none does. *)
Lemma Skipped_resumes (w : World E) (p : PollingParam) (rest : list PollingParam) :
  starting w = p :: rest ->
  let w' := event host Skipped w in
  isPolling (botPoller w') = true
  /\ inflight w' = S (inflight w)
  /\ timers w' = timers w
  /\ starting w' = rest
  /\ pollingID (botPoller w') = pollingID (botPoller w)
  /\ botMaster w' = botMaster w
  /\ listeners w' = listeners w.
Proof.
  intros Hs. cbv zeta. cbn [event]. rewrite Hs.
  match goal with
  | |- context [run (startPollUpdates_resume host p) ?w0] =>
      destruct (startPollUpdates_resume_polls p w0)
        as (_ & H1 & H2 & H3 & H4 & H5 & H6 & H7)
  end.
  cbv zeta in *. cbn [inflight timers starting botPoller botMaster listeners]
    in H2, H3, H4, H5, H6, H7.
  repeat split; assumption.
Qed.

Lemma Skipped_idle (w : World E) : starting w = [] -> event host Skipped w = w.
Proof. intros Hs. cbn [event]. now rewrite Hs. Qed.

(** [startPollUpdates_awaited] is the call of [startPollUpdates] followed
    at once by its rest, the event [Skipped]. *)
Lemma awaited_start (w : World E) :
  starting w = [] ->
  event host Skipped (run startPollUpdates w)
  = run (startPollUpdates_awaited host) w.
Proof.
  intros Hs.
  unfold event, run, startPollUpdates, startPollUpdates_awaited,
    startPollUpdates_resume, skipUpdates_call, skipUpdates_settle, skipUpdates,
    start_polling, call_getUpdates, set_offset, set_isPolling, settling,
    await, awaiting, log.
  js_unfold. cbn.
  destruct (isPolling (botPoller w)) eqn:Hp; cbn.
  - now rewrite Hs.
  - destruct (skippingUpdates (botPoller w)) as [[|] |]; cbn; rewrite Hs; cbn;
      try reflexivity;
      destruct (api_getUpdates host
                  {| offset := -1; timeout := timeout (pollingParam (botPoller w)) |}
                  (ext w)) as [[[| first rest] | error] e1];
      cbn; rewrite ?Hs; reflexivity.
Qed.

(** Two calls in a row, the second made while the first waits for its
    skip fetch: the second passes the test of [isPolling] too, and when
    both fetches have settled two polling cycles are in flight, where one
    call leaves one. *)
Lemma start_twice_polls_twice (w : World E) :
  isPolling (botPoller w) = false ->
  skippingUpdates (botPoller w) <> Some false ->
  starting w = [] ->
  let w1 := run startPollUpdates w in
  let once := events host [Skipped] w1 in
  let twice := events host [Skipped; Skipped] (run startPollUpdates w1) in
  fst (startPollUpdates w1) = Fulfilled None
  /\ inflight once = S (inflight w)
  /\ inflight twice = S (S (inflight w))
  /\ isPolling (botPoller twice) = true.
Proof.
  intros Hidle Hskip Hs. cbv zeta.
  destruct (startPollUpdates_waits w Hidle Hskip)
    as (_ & _ & Hst1 & _ & Hidle1 & Hskip1 & _ & Hfl1 & _).
  rewrite <- Hskip1 in Hskip.
  destruct (startPollUpdates_waits _ Hidle1 Hskip)
    as (Hret & _ & Hst2 & _ & _ & _ & _ & Hfl2 & _).
  rewrite Hs in Hst1. rewrite Hst1 in Hst2. cbn [app] in Hst1, Hst2.
  split; [exact Hret |].
  unfold events. cbn [fold_left].
  destruct (Skipped_resumes _ _ _ Hst1) as (_ & Hf1 & _).
  destruct (Skipped_resumes _ _ _ Hst2) as (_ & Hf2 & _ & Hst3 & _).
  destruct (Skipped_resumes _ _ _ Hst3) as (Hp3 & Hf3 & _).
  split; [now rewrite Hf1, Hfl1 |].
  split; [now rewrite Hf3, Hf2, Hfl2, Hfl1 | exact Hp3].
Qed.

(** The cycle in flight after a start fetches with the [pollingParam] the
    start left. *)
Lemma resume_fetches (w : World E) (n : nat) :
  inflight w = S n ->
  exists rest,
    emitted w (tick host Resume w) =
    Log Debug (PollingSince (cursor w))
    :: Invoke (GetUpdates (pollingParam (botPoller w))) :: rest.
Proof.
  intros Hfl. cbn [tick]. rewrite Hfl. unfold run.
  match goal with
  | |- context [pollUpdates host ?w0] =>
      destruct (pollUpdates_cycle host w0) as [_ (o & inner & C)];
      assert (Hem : emitted w (snd (pollUpdates host w0))
                    = emitted w0 (snd (pollUpdates host w0))) by reflexivity
  end.
  rewrite Hem, (cycle_emitted C).
  destruct o; cbn [try_events app]; eexists; reflexivity.
Qed.

End StartStop.

(** ** Runs of the event loop *)

Section Runs.
Context {E : Type} (host : Host E).

(** A tick either leaves the cursor alone, without fetch or dispatch, or
    is one polling cycle from the same cursor and external state. *)
Lemma tick_cases (t : Tick) (w : World E) :
  keeps_cursor w (tick host t w)
  \/ exists w0 o inner,
      cycle host w0 (tick host t w) o inner
      /\ pollingParam (botPoller w0) = pollingParam (botPoller w)
      /\ ext w0 = ext w
      /\ trace w0 = trace w.
Proof.
  destruct t as [| id | s]; cbn [tick].
  - destruct (inflight w) as [| n].
    + left. apply keeps_cursor_refl.
    + right. unfold run.
      match goal with
      | |- context [pollUpdates host ?w0] =>
          destruct (pollUpdates_cycle host w0) as [_ (o & inner & C)];
          exists w0, o, inner
      end.
      split; [exact C | repeat split].
  - destruct (existsb _ (timers w)).
    + right. unfold run.
      match goal with
      | |- context [pollUpdates host ?w0] =>
          destruct (pollUpdates_cycle host w0) as [_ (o & inner & C)];
          exists w0, o, inner
      end.
      split; [exact C | repeat split].
    + left. apply keeps_cursor_refl.
  - left. generalize (signal_listeners s (listeners w)). intro l.
    revert w. induction l as [| stopCallback l IH]; intro w; cbn [fold_left].
    + apply keeps_cursor_refl.
    + eapply keeps_cursor_trans; [| apply IH].
      apply (cleanup_keeps_cursor host stopCallback w).
Qed.






Lemma tick_grows (t : Tick) (w : World E) :
  exists evs, trace (tick host t w) = trace w ++ evs.
Proof.
  destruct (tick_cases t w) as [[_ (evs & Ht & _)] | (w0 & o & inner & C & _ & _ & Ht)].
  - now exists evs.
  - rewrite (cy_trace _ _ _ _ _ C), Ht. eexists. reflexivity.
Qed.

Lemma ticks_grows (ts : list Tick) (w : World E) :
  exists evs, trace (ticks host ts w) = trace w ++ evs.
Proof.
  revert w. induction ts as [| t ts IH]; intro w.
  - exists []. cbn. now rewrite app_nil_r.
  - change (ticks host (t :: ts) w) with (ticks host ts (tick host t w)).
    destruct (IH (tick host t w)) as (evs2 & H2).
    destruct (tick_grows t w) as (evs1 & H1).
    exists (evs1 ++ evs2). now rewrite H2, H1, app_assoc.
Qed.

Lemma emitted_trans (w w1 w2 : World E) :
  (exists evs, trace w1 = trace w ++ evs) ->
  (exists evs, trace w2 = trace w1 ++ evs) ->
  emitted w w2 = emitted w w1 ++ emitted w1 w2.
Proof.
  intros (evs1 & H1) (evs2 & H2).
  rewrite (emitted_app w w1 evs1 H1), (emitted_app w1 w2 evs2 H2).
  apply emitted_app. now rewrite H2, H1, app_assoc.
Qed.







(** ** C8: deliveries within one run *)


End Runs.

(** ** C3, C10: skipping the backlog *)

Section Backlog.
Context {E : Type} (host : Host E).



(** C10. When the fetch of the skip fails, the cursor stays at the forced
    [-1] (it does not go back to the [0] it had), and the first normal
    cycle fetches with offset [-1]. *)
Theorem failed_skip_leaves_forced_offset (w : World E) (error : Error) :
  isPolling (botPoller w) = false ->
  skippingUpdates (botPoller w) <> Some false ->
  cursor w = 0 ->
  fst (api_getUpdates host (forced (pollingParam (botPoller w))) (ext w))
  = Rejected error ->
  let w' := run (startPollUpdates_awaited host) w in
  cursor w' = -1
  /\ cursor w' <> cursor w
  /\ exists rest,
      emitted w' (tick host Resume w') =
      Log Debug (PollingSince (-1))
      :: Invoke (GetUpdates (forced (pollingParam (botPoller w)))) :: rest.
Proof.
  intros Hidle Hskip Hzero Hfetch. cbv zeta.
  destruct (startPollUpdates_skip host w Hidle Hskip)
    as (_ & _ & Hcur & Hto & _ & Hfl & _).
  rewrite Hfetch in Hcur. cbn [skipped_cursor] in Hcur.
  split; [exact Hcur |]. split; [lia |].
  destruct (resume_fetches host _ (inflight w) Hfl) as (rest & Hrest).
  exists rest. rewrite Hrest, Hcur. repeat f_equal.
  apply param_eq; [exact Hcur | exact Hto].
Qed.

End Backlog.


Lemma failed_skip_leaves_forced_offset_witness :
  let w := boot Demo.poller Demo.master
             (Demo.mkScript [Rejected (TelegramError 502 "Bad Gateway")] [] 0) in
  isPolling (botPoller w) = false
  /\ skippingUpdates (botPoller w) <> Some false
  /\ cursor w = 0
  /\ cursor (run (startPollUpdates_awaited Demo.scripted) w) = -1.
Proof.
  cbv zeta.
  assert (Hidle : isPolling
                    (botPoller
                       (boot Demo.poller Demo.master
                          (Demo.mkScript
                             [Rejected (TelegramError 502 "Bad Gateway")] [] 0)))
                  = false) by reflexivity.
  assert (Hskip : skippingUpdates
                    (botPoller
                       (boot Demo.poller Demo.master
                          (Demo.mkScript
                             [Rejected (TelegramError 502 "Bad Gateway")] [] 0)))
                  <> Some false) by discriminate.
  split; [exact Hidle |]. split; [exact Hskip |]. split; [reflexivity |].
  exact (proj1 (failed_skip_leaves_forced_offset Demo.scripted _
                  (TelegramError 502 "Bad Gateway") Hidle Hskip eq_refl eq_refl)).
Defined.

(** C9 (the code at the input where it fails).  [startPollUpdates()] is
    called twice in a row on a new poller with the default options, the
    second call before the skip fetch of the first has settled.  The flag
    [isPolling] is written after [await this.skipUpdates()], so it is still
    [false] when the second call tests it: the second call sends a skip
    fetch of its own and waits too.  Once both have settled, two polling
    loops run where one call leaves one: twice the fetches, two timeouts
    pending instead of one, and [pollingID] names only the later timeout,
    so that [stopPollUpdates] leaves the other one pending. *)
Theorem second_start_during_skip_starts_again :
  let w := boot Demo.poller Demo.master tt in
  let es := [Skipped; Skipped; Run Resume; Run Resume] in
  let once := events Demo.endless es (run startPollUpdates w) in
  let twice :=
    events Demo.endless es (run startPollUpdates (run startPollUpdates w)) in
  isPolling (botPoller (run startPollUpdates w)) = false
  /\ fst (startPollUpdates (run startPollUpdates w)) = Fulfilled None
  /\ isPolling (botPoller once) = true
  /\ isPolling (botPoller twice) = true
  /\ fetches (emitted w once) = 2%nat
  /\ fetches (emitted w twice) = 4%nat
  /\ timers once = [(0%nat, 1500)]
  /\ timers twice = [(0%nat, 1500); (1%nat, 1500)]
  /\ pollingID (botPoller twice) = Some 1%nat
  /\ timers (run stopPollUpdates once) = []
  /\ timers (run stopPollUpdates twice) = [(0%nat, 1500)].
Proof. vm_compute. repeat split; reflexivity. Qed.





(** ** Objects *)

Section ObjFacts.
Context {V : Type}.
Implicit Types (o : list (string * V)) (k : string).

Lemma get_set o k v k' :
  Obj.get (Obj.set o k v) k' = if String.eqb k' k then Some v else Obj.get o k'.
Proof.
  induction o as [| [k0 v0] o IH]; cbn.
  - reflexivity.
  - destruct (String.eqb_spec k k0) as [-> | Hk]; cbn.
    + destruct (String.eqb k' k0); reflexivity.
    + rewrite IH. destruct (String.eqb_spec k' k0) as [-> | Hk'].
      * destruct (String.eqb_spec k0 k); congruence.
      * reflexivity.
Qed.

Lemma get_delete o k k' :
  Obj.get (Obj.delete o k) k' = if String.eqb k' k then None else Obj.get o k'.
Proof.
  induction o as [| [k0 v0] o IH]; cbn.
  - now destruct (String.eqb k' k).
  - destruct (String.eqb_spec k k0) as [-> | Hk]; cbn.
    + rewrite IH. destruct (String.eqb_spec k' k0); reflexivity.
    + rewrite IH. destruct (String.eqb_spec k' k0) as [-> | Hk'].
      * destruct (String.eqb_spec k0 k); congruence.
      * reflexivity.
Qed.

Lemma In_delete o k kv :
  In kv (Obj.delete o k) -> In kv o /\ fst kv <> k.
Proof.
  induction o as [| [k0 v0] o IH]; cbn; [tauto |].
  destruct (String.eqb_spec k k0) as [-> | Hk].
  - intros H. destruct (IH H). tauto.
  - intros [<- | H]; cbn.
    + split; [now left | congruence].
    + destruct (IH H). tauto.
Qed.


Lemma insert_index_perm n (kv : string * V) l :
  Permutation (map snd (Obj.insert_index n kv l)) (kv :: map snd l).
Proof.
  induction l as [| [m kv'] l IH]; cbn.
  - reflexivity.
  - destruct (n <=? m)%N; cbn.
    + reflexivity.
    + rewrite IH. apply perm_swap.
Qed.

(** [Object.entries] lists every own property once. *)
Lemma entries_perm o : Permutation (Obj.entries o) o.
Proof.
  unfold Obj.entries. induction o as [| kv o IH]; cbn.
  - reflexivity.
  - destruct (Obj.array_index (fst kv)); cbn.
    + rewrite insert_index_perm. cbn. now apply perm_skip.
    + rewrite <- Permutation_middle. now apply perm_skip.
Qed.

End ObjFacts.

Lemma bind_snd {E A B} (c : M E A) (k : A -> M E B) (w : World E) :
  snd (bind c k w)
  = match c w with
    | (Fulfilled a, w1) => snd (k a w1)
    | (Rejected _, w1) => w1
    end.
Proof. unfold bind. now destruct (c w) as [[a | error] w1]. Qed.

(** ** C4: shutdown *)

Section Shutdown.
Context {E : Type} (host : Host E).


Lemma same_listeners_refl (w : World E) : same_listeners w w.
Proof. reflexivity. Qed.

Lemma same_listeners_trans (w1 w2 w3 : World E) :
  same_listeners w1 w2 -> same_listeners w2 w3 -> same_listeners w1 w3.
Proof. unfold same_listeners. congruence. Qed.

Lemma same_listeners_call A (f : HostFn E A) :
  preserves (@same_listeners E) (call f).
Proof. intro w. unfold call. now destruct (f (ext w)). Qed.

(** [loop] adds its two listeners, each one [cleanup] with the stop hook
    of this call, and no other. *)
Lemma loop_listeners (startCallback stopCallback : option (HostFn E unit))
      (w : World E) :
  listeners (run (loop host startCallback stopCallback) w)
  = listeners w ++ [(SIGINT, stopCallback); (SIGTERM, stopCallback)].
Proof.
  unfold run, loop.
  rewrite bind_snd. cbn [process_on]. rewrite bind_snd. cbn [process_on].
  match goal with
  | |- listeners (snd (?rest ?w2)) = _ =>
      assert (Hrest : preserves (@same_listeners E) rest);
      [| rewrite (Hrest w2); cbn; now rewrite <- app_assoc]
  end.
  unfold startPollUpdates, skipUpdates_call, start_polling, call_stopCallback,
    set_offset, set_isPolling, set_me, log, await, awaiting.
  preserving uconstr:(same_listeners_refl) uconstr:(same_listeners_trans)
    ltac:(first [ apply same_listeners_call
                | match goal with
                  | |- preserves _ (emit _) => intro; reflexivity
                  | |- preserves _ (put_poller _) => intro; reflexivity
                  | |- preserves _ (put_master _) => intro; reflexivity
                  | |- preserves _ spawn_pollUpdates => intro; reflexivity
                  | |- preserves _ (suspend_start _) => intro; reflexivity
                  end ]).
Qed.

(** *** The schedule through a run of [cleanup] *)

Lemma same_schedule_refl (w : World E) : same_schedule w w.
Proof. now split. Qed.

Lemma same_schedule_trans (w1 w2 w3 : World E) :
  same_schedule w1 w2 -> same_schedule w2 w3 -> same_schedule w1 w3.
Proof. intros [a1 b1 c1 d1] [a2 b2 c2 d2]. split; congruence. Qed.

Lemma keeps_poller_schedule (w w' : World E) :
  keeps_poller w w' -> same_schedule w w'.
Proof. intros [Hp Ht _ Hi _ Hs _]. now split. Qed.

Lemma same_schedule_emit e : preserves (@same_schedule E) (@emit E e).
Proof. intro w. now split. Qed.

Lemma same_schedule_call A (f : HostFn E A) :
  preserves (@same_schedule E) (call f).
Proof. intro w. apply keeps_poller_schedule, registry_only_call. Qed.

(** What [stopPollUpdates] does to the schedule. *)
Lemma stopPollUpdates_schedule (w : World E) :
  exists w1,
    stopPollUpdates w = (Fulfilled false, w1)
    /\ isPolling (botPoller w1) = false
    /\ pollingID (botPoller w1) = pollingID (botPoller w)
    /\ inflight w1 = inflight w
    /\ timers w1 =
       (if isPolling (botPoller w)
        then cancel (pollingID (botPoller w)) (timers w) else timers w)
    /\ exists evs, trace w1 = trace w ++ evs /\ forallb off_cycle evs = true.
Proof.
  unfold stopPollUpdates, set_isPolling. js_unfold. cbn.
  destruct (isPolling (botPoller w)) eqn:Hp; cbn.
  - eexists. split; [reflexivity |]. cbn. repeat split.
    exists [ClearTimeout (pollingID (botPoller w))]. now split.
  - rewrite Hp. exists w. repeat split; try assumption.
    exists []. now rewrite app_nil_r.
Qed.

(** [cleanup] stops the poller and cancels its timeout; a cycle in flight
    stays in flight. *)
Lemma cleanup_schedule (stopCallback : option (HostFn E unit)) (w : World E) :
  let w' := run (cleanup host stopCallback) w in
  isPolling (botPoller w') = false
  /\ pollingID (botPoller w') = pollingID (botPoller w)
  /\ inflight w' = inflight w
  /\ timers w' =
     (if isPolling (botPoller w)
      then cancel (pollingID (botPoller w)) (timers w) else timers w).
Proof.
  cbv zeta. unfold run, cleanup. rewrite bind_snd.
  destruct (stopPollUpdates_schedule w) as (w1 & -> & Hp & Hid & Hfl & Htm & _).
  match goal with
  | |- context [snd (?rest w1)] =>
      assert (Hrest : preserves (@same_schedule E) rest)
  end.
  { unfold call_stopCallback, log, await, awaiting.
    preserving uconstr:(same_schedule_refl) uconstr:(same_schedule_trans)
      ltac:(first [ apply same_schedule_emit
                  | apply same_schedule_call
                  | intro; apply keeps_poller_schedule,
                      registry_only_remove_all ]). }
  destruct (Hrest w1) as [Hb Ht Hi _]. rewrite Hb, Ht, Hi.
  repeat split; assumption.
Qed.

(** [stopPollUpdates] and [cleanup] leave the starts that wait waiting. *)
Lemma stopPollUpdates_starting (w : World E) :
  starting (run stopPollUpdates w) = starting w.
Proof.
  unfold run, stopPollUpdates, set_isPolling. js_unfold. cbn.
  destruct (isPolling (botPoller w)); reflexivity.
Qed.

Lemma cleanup_starting (stopCallback : option (HostFn E unit)) (w : World E) :
  starting (run (cleanup host stopCallback) w) = starting w.
Proof.
  unfold run, cleanup. rewrite bind_snd.
  pose proof (stopPollUpdates_starting w) as Hstop. unfold run in Hstop.
  destruct (stopPollUpdates w) as [[b | error] w1]; cbn [snd] in Hstop;
    [| exact Hstop].
  match goal with
  | |- context [snd (?rest w1)] =>
      assert (Hrest : preserves (@same_schedule E) rest)
  end.
  { unfold call_stopCallback, log, await, awaiting.
    preserving uconstr:(same_schedule_refl) uconstr:(same_schedule_trans)
      ltac:(first [ apply same_schedule_emit
                  | apply same_schedule_call
                  | intro; apply keeps_poller_schedule,
                      registry_only_remove_all ]). }
  destruct (Hrest w1) as [_ _ _ Hs]. now rewrite Hs.
Qed.

(** No timeout that expires, no cycle that resumes and no signal touches
    the starts that wait. *)
Lemma tick_starting (t : Tick) (w : World E) :
  starting (tick host t w) = starting w.
Proof.
  destruct t as [| id | s]; cbn [tick].
  - destruct (inflight w) as [| n]; [reflexivity |]. unfold run.
    match goal with
    | |- context [pollUpdates host ?w0] =>
        destruct (pollUpdates_cycle host w0) as [_ (o & inner & C)];
        exact (cy_starting _ _ _ _ _ C)
    end.
  - destruct (existsb _ (timers w)); [| reflexivity]. unfold run.
    match goal with
    | |- context [pollUpdates host ?w0] =>
        destruct (pollUpdates_cycle host w0) as [_ (o & inner & C)];
        exact (cy_starting _ _ _ _ _ C)
    end.
  - generalize (signal_listeners s (listeners w)). intro l. revert w.
    induction l as [| stopCallback l IH]; intro w; [reflexivity |].
    cbn [fold_left]. rewrite IH. apply cleanup_starting.
Qed.


(** With no start waiting, the events of a run are its timeouts, cycles
    and signals. *)
Lemma events_ticks (es : list Event) (w : World E) :
  starting w = [] -> exists ts, events host es w = ticks host ts w.
Proof.
  revert w. induction es as [| ev es IH]; intros w Hs; [now exists [] |].
  change (events host (ev :: es) w) with (events host es (event host ev w)).
  destruct ev as [t |].
  - destruct (IH (tick host t w)) as (ts & Hts);
      [now rewrite tick_starting |].
    exists (t :: ts). exact Hts.
  - rewrite (Skipped_idle host w Hs). now apply IH.
Qed.




End Shutdown.

(** ** C5, C6: the idle sweep *)

Section ObjLookup.
Context {V : Type}.
Implicit Types (o : list (string * V)) (k : string).

Lemma get_In o k v : Obj.get o k = Some v -> In (k, v) o.
Proof.
  induction o as [| [k0 v0] o IH]; cbn; [discriminate |].
  destruct (String.eqb_spec k k0) as [-> | Hk].
  - intros H. injection H as ->. now left.
  - intros H. right. now apply IH.
Qed.

Lemma NoDup_In_get o k v :
  NoDup (Obj.keys o) -> In (k, v) o -> Obj.get o k = Some v.
Proof.
  unfold Obj.keys. induction o as [| [k0 v0] o IH]; cbn; [tauto |].
  intros Hnd Hin. inversion Hnd as [| ? ? Hnot Hrest]; subst.
  destruct Hin as [Heq | Hin].
  - injection Heq as -> ->. now rewrite String.eqb_refl.
  - destruct (String.eqb_spec k k0) as [-> | Hk].
    + exfalso. apply Hnot. apply (in_map fst _ _ Hin).
    + now apply IH.
Qed.

(** Deleting the keys of the entries that satisfy [P]. *)
Lemma get_fold_delete (P : V -> bool) (es : list (string * V)) o k :
  Obj.get (fold_left (fun o' kv => if P (snd kv) then Obj.delete o' (fst kv)
                                   else o') es o) k
  = if existsb (fun kv => String.eqb k (fst kv) && P (snd kv)) es then None
    else Obj.get o k.
Proof.
  revert o. induction es as [| [k0 v0] es IH]; intro o; cbn; [reflexivity |].
  rewrite IH. destruct (existsb _ es); [now rewrite orb_true_r |].
  rewrite orb_false_r. destruct (P v0); cbn.
  - rewrite get_delete. now rewrite andb_true_r.
  - now rewrite andb_false_r.
Qed.

Lemma existsb_entry (P : V -> bool) (es : list (string * V)) o k v :
  Permutation es o -> NoDup (Obj.keys o) -> Obj.get o k = Some v ->
  existsb (fun kv => String.eqb k (fst kv) && P (snd kv)) es = P v.
Proof.
  intros Hperm Hnd Hget. destruct (P v) eqn:HP.
  - apply existsb_exists. exists (k, v). split.
    + apply (Permutation_in _ (Permutation_sym Hperm)). now apply get_In.
    + cbn. now rewrite String.eqb_refl, HP.
  - destruct (existsb _ es) eqn:Hex; [| reflexivity].
    apply existsb_exists in Hex. destruct Hex as ([k1 v1] & Hin & Hb).
    cbn in Hb. apply andb_prop in Hb. destruct Hb as [Hk HP1].
    apply String.eqb_eq in Hk. subst k1.
    apply (Permutation_in _ Hperm) in Hin.
    rewrite (NoDup_In_get _ _ _ Hnd Hin) in Hget. injection Hget as ->.
    congruence.
Qed.

End ObjLookup.

Section Sweep.
Context {E : Type} (host : Host E).

Lemma sweep_entries_spec (T : Z) (entries : list (string * Bot)) (w : World E) :
  onRemove_instant host ->
  exists w',
    sweep_entries host T entries w = (Fulfilled tt, w')
    /\ trace w' = trace w ++ sweep_events host T (date_now host (ext w)) entries
    /\ bots (botMaster w') =
       fold_left (fun o kv => if idle T (date_now host (ext w)) (snd kv)
                              then Obj.delete o (fst kv) else o)
         entries (bots (botMaster w))
    /\ date_now host (ext w') = date_now host (ext w).
Proof.
  intros Hret. revert w.
  induction entries as [| [identifier bot] rest IH]; intro w.
  - exists w. cbn. rewrite app_nil_r. repeat split; reflexivity.
  - cbn [sweep_entries fold_left snd fst].
    change (sweep_events host T (date_now host (ext w)) ((identifier, bot) :: rest))
      with ((if date_now host (ext w) - lastActiveTime bot >? T
             then eviction host (identifier, bot) else [])
            ++ sweep_events host T (date_now host (ext w)) rest).
    unfold sweep_one, eviction, await, awaiting, set_bots, log.
    change (idle T (date_now host (ext w)) bot)
      with (date_now host (ext w) - lastActiveTime bot >? T).
    js_unfold. cbn -[sweep_events idle].
    destruct (date_now host (ext w) - lastActiveTime bot >? T) eqn:Hidle;
      cbn -[sweep_events idle].
    + destruct (servant_onRemove host) as [f |] eqn:Hf; cbn -[sweep_events idle].
      * destruct (Hret f (instance bot) (ext w) Hf) as [Hok Hclock].
        destruct (f (instance bot) (ext w)) as [r e1]. cbn in Hok, Hclock.
        subst r. cbn -[sweep_events idle].
        match goal with
        | |- context [sweep_entries host T rest ?w1] =>
            destruct (IH w1) as (w' & -> & Htr & Hb & Hc)
        end.
        exists w'. cbn -[sweep_events idle] in Htr, Hb, Hc.
        rewrite Hclock in Htr, Hb, Hc.
        repeat split; try assumption.
        rewrite Htr, <- !app_assoc. reflexivity.
      * match goal with
        | |- context [sweep_entries host T rest ?w1] =>
            destruct (IH w1) as (w' & -> & Htr & Hb & Hc)
        end.
        exists w'. cbn -[sweep_events idle] in Htr, Hb, Hc.
        repeat split; try assumption.
        rewrite Htr, <- !app_assoc. reflexivity.
    + destruct (IH w) as (w' & Hrun & Htr & Hb & Hc).
      destruct w; cbn -[sweep_events idle] in *. rewrite Hrun.
      exists w'. repeat split; assumption.
Qed.

Lemma idle_spec (T now : Z) (bot : Bot) :
  idle T now bot = true <-> lastActiveTime bot + T < now.
Proof. unfold idle. rewrite Z.gtb_lt. lia. Qed.

(** C5 (amended). On a master whose [destroyTimeout] is [T], a post-batch
    sweep at time [now] evicts a session last active at [t] exactly when
    [now - t > T], that is strictly after [t + T]: it then calls [onRemove]
    (if the servant has it), waits for it, and deletes the entry.  At
    [now <= t + T], the instant [t + T] included, the session stays and
    nothing is done to it.  (No [onRemove] throws, and the clock reads
    [now] during the sweep.) *)
Theorem idle_sweep (T : Z) (w : World E) :
  destroyTimeout (botMaster w) = Some T ->
  NoDup (Obj.keys (bots (botMaster w))) ->
  onRemove_instant host ->
  let now := date_now host (ext w) in
  let w' := run (sweep host) w in
  emitted w w' = sweep_events host T now (Obj.entries (bots (botMaster w)))
  /\ forall identifier bot,
      Obj.get (bots (botMaster w)) identifier = Some bot ->
      (lastActiveTime bot + T < now ->
       Obj.get (bots (botMaster w')) identifier = None
       /\ exists pre post,
           emitted w w' = pre ++ eviction host (identifier, bot) ++ post)
      /\ (now <= lastActiveTime bot + T ->
          Obj.get (bots (botMaster w')) identifier = Some bot
          /\ ~ In (Delete identifier) (emitted w w')).
Proof.
  intros HT Hnd Hret. cbv zeta.
  destruct (sweep_entries_spec T (Obj.entries (bots (botMaster w))) w Hret)
    as (w' & Hsweep & Htr & Hb & _).
  assert (Hrun : run (sweep host) w = w').
  { unfold run, sweep, bind, get_world. now rewrite HT, Hsweep. }
  rewrite Hrun. pose proof (emitted_app _ _ _ Htr) as Hem.
  split; [exact Hem |].
  intros identifier bot Hget.
  assert (Hafter :
    Obj.get (bots (botMaster w')) identifier
    = if idle T (date_now host (ext w)) bot then None else Some bot).
  { rewrite Hb, (get_fold_delete (idle T (date_now host (ext w)))).
    rewrite (existsb_entry (idle T (date_now host (ext w))) _ _ _ _
               (entries_perm _) Hnd Hget).
    now rewrite Hget. }
  split.
  - intros Hlate. apply idle_spec in Hlate. rewrite Hlate in Hafter.
    split; [exact Hafter |].
    assert (Hin : In (identifier, bot) (Obj.entries (bots (botMaster w)))).
    { apply (Permutation_in _ (Permutation_sym (entries_perm _))).
      now apply get_In. }
    apply in_split in Hin. destruct Hin as (l1 & l2 & Hl).
    rewrite Hem, Hl. unfold sweep_events.
    rewrite flat_map_app. cbn [flat_map snd]. rewrite Hlate.
    eexists _, _. reflexivity.
  - intros Hearly.
    assert (Hnot : idle T (date_now host (ext w)) bot = false).
    { destruct (idle T (date_now host (ext w)) bot) eqn:Hi; [| reflexivity].
      apply idle_spec in Hi. lia. }
    rewrite Hnot in Hafter. split; [exact Hafter |].
    rewrite Hem. unfold sweep_events. intros Hin.
    apply in_flat_map in Hin. destruct Hin as ([k v] & Hentry & Hev).
    cbn [snd] in Hev. destruct (idle T (date_now host (ext w)) v) eqn:Hv;
      [| destruct Hev].
    assert (Hk : k = identifier).
    { unfold eviction in Hev. cbn [fst snd] in Hev.
      destruct (servant_onRemove host); in_cases; congruence. }
    subst k. apply (Permutation_in _ (entries_perm _)) in Hentry.
    rewrite (NoDup_In_get _ _ _ Hnd Hentry) in Hget. injection Hget as ->.
    congruence.
Qed.

(** With the field itself [null] the sweep does nothing. *)
Lemma sweep_disabled (w : World E) :
  destroyTimeout (botMaster w) = None -> sweep host w = (Fulfilled tt, w).
Proof. intros H. unfold sweep. unfold bind. cbn. now rewrite H. Qed.

End Sweep.

Lemma scripted_onRemove_instant : onRemove_instant Demo.scripted.
Proof. intros f i e H. injection H as <-. now split. Qed.

Lemma idle_sweep_witness :
  let w := Demo.registry Demo.default_opts 301001 in
  destroyTimeout (botMaster w) = Some 300000
  /\ NoDup (Obj.keys (bots (botMaster w)))
  /\ onRemove_instant Demo.scripted
  /\ Obj.get (bots (botMaster w)) "7" = Some Demo.session7
  /\ lastActiveTime Demo.session7 + 300000 < date_now Demo.scripted (ext w)
  /\ Obj.get (bots (botMaster (run (sweep Demo.scripted) w))) "7" = None.
Proof.
  cbv zeta.
  assert (HT : destroyTimeout (botMaster (Demo.registry Demo.default_opts 301001))
               = Some 300000) by reflexivity.
  assert (Hnd : NoDup (Obj.keys
                         (bots (botMaster (Demo.registry Demo.default_opts 301001))))).
  { cbn. repeat constructor. intros []. }
  assert (Hget : Obj.get (bots (botMaster (Demo.registry Demo.default_opts 301001)))
                   "7" = Some Demo.session7) by reflexivity.
  assert (Hlate : lastActiveTime Demo.session7 + 300000
                  < date_now Demo.scripted
                      (ext (Demo.registry Demo.default_opts 301001)))
    by (cbn; lia).
  split; [exact HT |]. split; [exact Hnd |].
  split; [exact scripted_onRemove_instant |].
  split; [exact Hget |]. split; [exact Hlate |].
  exact (proj1 (proj1 (proj2 (idle_sweep Demo.scripted 300000 _ HT Hnd
                                scripted_onRemove_instant)
                         "7" Demo.session7 Hget) Hlate)).
Defined.

(** C5 as stated fails at the instant [t + T]: the session of user 7, last
    active at 1000, outlives the sweep that follows a batch at time
    1000 + 300000. *)
Lemma not_evicted_at_threshold :
  let w := Demo.registry Demo.default_opts 301000 in
  let w' := run (onUpdates Demo.scripted [Demo.update 9 8]) w in
  destroyTimeout (botMaster w) = Some 300000
  /\ date_now Demo.scripted (ext w') = lastActiveTime Demo.session7 + 300000
  /\ Obj.get (bots (botMaster w')) "7" = Some Demo.session7
  /\ ~ In (Delete "7") (emitted w w').
Proof.
  cbv zeta. split; [reflexivity |]. split; [reflexivity |].
  split; [vm_compute; reflexivity |].
  vm_compute. intros H.
  repeat (destruct H as [H | H]; [discriminate |]). exact H.
Qed.

(** [opts["destroyTimeout"] || 5 * 60 * 1000] is never [null]. *)
Lemma destroyTimeout_never_null (opts : MasterOpts) :
  destroyTimeout (new_BotMaster opts) <> None.
Proof. discriminate. Qed.

(** C6, on the code: built with the option [destroyTimeout] set to [null],
    the master has the threshold 300000, and the sweep after a batch at time
    400000 evicts the session of user 7, last active at 1000. *)
Lemma null_destroyTimeout_still_evicts :
  let opts := mkMasterOpts None None None in
  let w := Demo.registry opts 400000 in
  let w' := run (onUpdates Demo.scripted [Demo.update 9 8]) w in
  opt_destroyTimeout opts = None
  /\ destroyTimeout (new_BotMaster opts) = Some 300000
  /\ Obj.get (bots (botMaster w)) "7" = Some Demo.session7
  /\ Obj.get (bots (botMaster w')) "7" = None
  /\ In (Delete "7") (emitted w w').
Proof.
  cbv zeta. split; [reflexivity |]. split; [reflexivity |].
  split; [reflexivity |]. split; [vm_compute; reflexivity |].
  vm_compute. tauto.
Qed.




(** A signal that arrives while the start [loop] issued still waits for
    its skip fetch: [cleanup] finds the poller not polling, so its
    [stopPollUpdates] does nothing, and when the fetch settles the start
    goes on, sets the flag and polls, after the stop hook has run. *)
Lemma signal_during_skip_does_not_stop :
  let w := run (loop Demo.scripted None (Some Demo.settled_hook))
             (boot Demo.master_poller Demo.master
                (Demo.mkScript [Fulfilled []; Fulfilled Demo.batch56] [] 0)) in
  let w1 := tick Demo.scripted (Kill SIGINT) w in
  let w2 := events Demo.scripted [Skipped; Run Resume] w1 in
  isPolling (botPoller w) = false
  /\ List.length (starting w) = 1%nat
  /\ stop_hook_calls (emitted w w1) = 1%nat
  /\ isPolling (botPoller w1) = false
  /\ isPolling (botPoller w2) = true
  /\ List.length (timers w2) = 1%nat
  /\ List.length (bots (botMaster w2)) = 2%nat.
Proof. vm_compute. repeat split; reflexivity. Qed.

(** ** C7: sessions are created once *)

Section Sessions.
Context {E : Type} (host : Host E).

Lemma lawful_app (pre l1 l2 : list Effect) :
  lawful host pre (l1 ++ l2) <-> lawful host pre l1 /\ lawful host (pre ++ l1) l2.
Proof.
  revert pre. induction l1 as [| e l1 IH]; intro pre; cbn.
  - rewrite app_nil_r. tauto.
  - rewrite IH, <- app_assoc. cbn. tauto.
Qed.

Lemma lawful_split (pre post evs : list Effect) (e : Effect) :
  lawful host [] evs -> evs = pre ++ e :: post -> allowed host pre e.
Proof.
  intros Hl ->. apply lawful_app in Hl. destruct Hl as [_ Hl]. cbn in Hl.
  tauto.
Qed.

Lemma registered_app (evs l : list Effect) (k : string) :
  registered (evs ++ l) k = fold_left (register k) l (registered evs k).
Proof. unfold registered. apply fold_left_app. Qed.

(** A registered instance was constructed. *)
Lemma registered_New (evs : list Effect) (k : string) (i : Instance) :
  registered evs k = Some i -> In (New i) evs.
Proof.
  induction evs as [| e evs IH] using rev_ind; [discriminate |].
  rewrite registered_app. cbn. intros H. apply in_or_app.
  destruct e as [| | | | | | | j | k']; cbn in H; try (left; now apply IH).
  - destruct (String.eqb (inst_identifier j) k).
    + injection H as ->. right. now left.
    + left. now apply IH.
  - destruct (String.eqb k' k); [discriminate | left; now apply IH].
Qed.

Lemma register_silent (k : string) (r : option Instance) (e : Effect) :
  silent e -> register k r e = r.
Proof. destruct e; cbn; tauto. Qed.

(** The invariant after more effects. *)
Lemma inv_extend (evs suffix : list Effect) (w w' : World E) :
  registry_inv host evs w ->
  lawful host evs suffix ->
  (forall k,
      fold_left (register k) suffix
        (option_map instance (Obj.get (bots (botMaster w)) k))
      = option_map instance (Obj.get (bots (botMaster w')) k)) ->
  (forall k b, Obj.get (bots (botMaster w')) k = Some b ->
               servant_onCreate host <> None ->
               onCreate_done (evs ++ suffix) (instance b)) ->
  (next_handle w <= next_handle w')%nat ->
  (forall e i, In e suffix -> mentions e i -> (handle i < next_handle w')%nat) ->
  registry_inv host (evs ++ suffix) w'.
Proof.
  intros [Hl Hr Hc Hh] Hls Hreg Hcre Hle Hnew. split.
  - apply lawful_app. now split.
  - intro k. now rewrite registered_app, Hr, Hreg.
  - exact Hcre.
  - intros e i Hin Hm. apply in_app_or in Hin. destruct Hin as [Hin | Hin].
    + specialize (Hh e i Hin Hm). lia.
    + now apply (Hnew e i).
Qed.

Lemma onCreate_done_app (evs suffix : list Effect) (i : Instance) :
  onCreate_done evs i -> onCreate_done (evs ++ suffix) i.
Proof.
  intros [H1 (ok & H2)]. split; [| exists ok]; apply in_or_app; now left.
Qed.

(** [process] keeps the invariant, however it ends. *)
Lemma process_reached (base : list Effect) (update : Update) (w : World E) :
  reached host base w ->
  reached host base (snd (process host (identify host update) update w)).
Proof.
  intros (evs & Htr & I). pose proof I as [Hl Hr Hc Hh].
  unfold process, invoke, set_bots. js_unfold. cbn.
  destruct (Obj.get (bots (botMaster w)) (identify host update)) as [bot |] eqn:Hget;
    cbn; [| now exists evs].
  destruct (servant_processUpdate host) as [f |]; cbn; [| now exists evs].
  assert (Hreg : registered evs (identify host update) = Some (instance bot))
    by (now rewrite Hr, Hget).
  assert (Hallowed : lawful host evs [Invoke (ProcessUpdate (instance bot) update)]).
  { cbn. split; [| exact Logic.I]. split; [exact Hreg |].
    intros Hoc. exact (Hc _ _ Hget Hoc). }
  assert (Hfresh : forall e i,
             In e [Invoke (ProcessUpdate (instance bot) update)] ->
             mentions e i -> (handle i < next_handle w)%nat).
  { intros e i [<- | []] Hm. cbn in Hm. subst i.
    apply (Hh (New (instance bot))); [| reflexivity].
    exact (registered_New _ _ _ Hreg). }
  destruct (f (instance bot) update (ext w)) as [[[] | error] e1]; cbn.
  - exists (evs ++ [Invoke (ProcessUpdate (instance bot) update)]). split.
    + cbn. now rewrite Htr, app_assoc.
    + apply (inv_extend evs _ w); cbn; try assumption; try lia.
      * intro k. rewrite get_set.
        destruct (String.eqb_spec k (identify host update)) as [-> | Hk];
          [now rewrite Hget | reflexivity].
      * intros k b Hb Hoc. rewrite get_set in Hb.
        apply onCreate_done_app.
        destruct (String.eqb_spec k (identify host update)) as [-> | Hk].
        -- injection Hb as <-. cbn. exact (Hc _ _ Hget Hoc).
        -- exact (Hc _ _ Hb Hoc).
  - exists (evs ++ [Invoke (ProcessUpdate (instance bot) update)]). split.
    + cbn. now rewrite Htr, app_assoc.
    + apply (inv_extend evs _ w); cbn; try assumption; try lia.
      * reflexivity.
      * intros k b Hb Hoc. apply onCreate_done_app. exact (Hc _ _ Hb Hoc).
Qed.

(** [create], entered for an identifier without a session, keeps the
    invariant, also when [onCreate] throws. *)
Lemma create_reached (base : list Effect) (identifier : string) (w : World E) :
  reached host base w ->
  Obj.get (bots (botMaster w)) identifier = None ->
  reached host base (snd (create host identifier w)).
Proof.
  intros (evs & Htr & I) Hget. pose proof I as [Hl Hr Hc Hh].
  set (i := mkInstance (next_handle w) identifier).
  assert (Hnew : allowed host evs (New i)).
  { cbn. split; [now rewrite Hr, Hget |].
    intros e' Hin Hm. specialize (Hh e' i Hin Hm). cbn in Hh. lia. }
  assert (Hreg : forall (suffix : list Effect) (o : list (string * Bot)) k,
             Forall silent suffix ->
             o = Obj.set (bots (botMaster w)) identifier (mkBot 0 i) ->
             fold_left (register k) (New i :: suffix)
               (option_map instance (Obj.get (bots (botMaster w)) k))
             = option_map instance (Obj.get o k)).
  { intros suffix o k Hs ->. cbn [fold_left register inst_identifier i].
    rewrite get_set, (String.eqb_sym identifier k).
    destruct (String.eqb k identifier); cbn.
    - induction Hs as [| e l He _ IH]; [reflexivity |].
      cbn. now rewrite (register_silent _ _ _ He).
    - generalize (option_map instance (Obj.get (bots (botMaster w)) k)).
      induction Hs as [| e l He _ IH]; intro r; [reflexivity |].
      cbn. now rewrite (register_silent _ _ _ He). }
  unfold create, await, awaiting, set_bots, log. js_unfold. cbn. fold i.
  destruct (servant_onCreate host) as [f |] eqn:Hoc; cbn.
  - destruct (f i (ext w)) as [[[] | error] e1]; cbn.
    + exists (evs ++ [New i; Log Debug (Creating identifier);
                      Invoke (OnCreate i); Settle (OnCreate i) true]).
      split; [cbn; rewrite Htr, <- !app_assoc; reflexivity |].
      apply (inv_extend evs _ w); cbn [next_handle botMaster bots];
        try assumption; try lia.
      * cbn [lawful allowed] in *. tauto.
      * intro k. apply Hreg; [repeat constructor | reflexivity].
      * intros k b Hb _. rewrite get_set in Hb.
        destruct (String.eqb_spec k identifier) as [-> | Hk].
        -- injection Hb as <-. cbn [instance]. split.
           ++ apply in_or_app. right. cbn. tauto.
           ++ exists true. apply in_or_app. right. cbn. tauto.
        -- apply onCreate_done_app. apply (Hc _ _ Hb). congruence.
      * intros e j Hin Hm. in_cases; subst e; cbn in Hm; try contradiction;
          subst j; cbn; lia.
    + exists (evs ++ [New i; Log Debug (Creating identifier);
                      Invoke (OnCreate i); Settle (OnCreate i) false]).
      split; [cbn; rewrite Htr, <- !app_assoc; reflexivity |].
      apply (inv_extend evs _ w); cbn [next_handle botMaster bots];
        try assumption; try lia.
      * cbn [lawful allowed] in *. tauto.
      * intro k. apply Hreg; [repeat constructor | reflexivity].
      * intros k b Hb _. rewrite get_set in Hb.
        destruct (String.eqb_spec k identifier) as [-> | Hk].
        -- injection Hb as <-. cbn [instance]. split.
           ++ apply in_or_app. right. cbn. tauto.
           ++ exists false. apply in_or_app. right. cbn. tauto.
        -- apply onCreate_done_app. apply (Hc _ _ Hb). congruence.
      * intros e j Hin Hm. in_cases; subst e; cbn in Hm; try contradiction;
          subst j; cbn; lia.
  - exists (evs ++ [New i; Log Debug (Creating identifier)]).
    split; [cbn; rewrite Htr, <- !app_assoc; reflexivity |].
    apply (inv_extend evs _ w); cbn [next_handle botMaster bots];
      try assumption; try lia.
    * cbn [lawful allowed] in *. tauto.
    * intro k. apply Hreg; [repeat constructor | reflexivity].
    * intros k b Hb Hsome. congruence.
    * intros e j Hin Hm. in_cases; subst e; cbn in Hm; try contradiction;
        subst j; cbn; lia.
Qed.

(** One turn of the sweep keeps the invariant. *)
Lemma sweep_one_reached (base : list Effect) (T : Z) (entry : string * Bot)
      (w : World E) :
  reached host base w -> reached host base (snd (sweep_one host T entry w)).
Proof.
  intros (evs & Htr & I). pose proof I as [Hl Hr Hc Hh].
  destruct entry as [identifier bot].
  assert (Hreg : forall (pre : list Effect) k,
             Forall silent pre ->
             fold_left (register k) (pre ++ [Delete identifier])
               (option_map instance (Obj.get (bots (botMaster w)) k))
             = option_map instance
                 (Obj.get (Obj.delete (bots (botMaster w)) identifier) k)).
  { intros pre k Hs. rewrite fold_left_app, get_delete.
    rewrite (String.eqb_sym k identifier). cbn.
    destruct (String.eqb identifier k); [reflexivity |].
    generalize (option_map instance (Obj.get (bots (botMaster w)) k)).
    induction Hs as [| e l He _ IH]; intro r; [reflexivity |].
    cbn. now rewrite (register_silent _ _ _ He). }
  assert (Hkeep : forall k b,
             Obj.get (Obj.delete (bots (botMaster w)) identifier) k = Some b ->
             Obj.get (bots (botMaster w)) k = Some b).
  { intros k b. rewrite get_delete. now destruct (String.eqb k identifier). }
  unfold sweep_one, await, awaiting, set_bots, log. js_unfold. cbn.
  destruct (date_now host (ext w) - lastActiveTime bot >? T); cbn;
    [| now exists evs].
  destruct (servant_onRemove host) as [f |]; cbn.
  - destruct (f (instance bot) (ext w)) as [[[] | error] e1]; cbn.
    + exists (evs ++ [Invoke (OnRemove (instance bot));
                      Settle (OnRemove (instance bot)) true;
                      Log Debug (Removing identifier); Delete identifier]).
      split; [cbn; rewrite Htr, <- !app_assoc; reflexivity |].
      apply (inv_extend evs _ w); cbn [next_handle botMaster bots];
        try assumption; try lia.
      * cbn. tauto.
      * intro k. apply (Hreg [_; _; _]). repeat constructor.
      * intros k b Hb Hoc. apply onCreate_done_app, (Hc k b); auto.
      * intros e j Hin Hm. in_cases; subst e; cbn in Hm; contradiction.
    + exists (evs ++ [Invoke (OnRemove (instance bot));
                      Settle (OnRemove (instance bot)) false]).
      split; [cbn; rewrite Htr, <- !app_assoc; reflexivity |].
      apply (inv_extend evs _ w); cbn [next_handle botMaster bots];
        try assumption; try lia.
      * cbn. tauto.
      * reflexivity.
      * intros k b Hb Hoc. apply onCreate_done_app, (Hc k b); auto.
      * intros e j Hin Hm. in_cases; subst e; cbn in Hm; contradiction.
  - exists (evs ++ [Log Debug (Removing identifier); Delete identifier]).
    split; [cbn; rewrite Htr, <- !app_assoc; reflexivity |].
    apply (inv_extend evs _ w); cbn [next_handle botMaster bots];
      try assumption; try lia.
    * cbn. tauto.
    * intro k. apply (Hreg [_]). repeat constructor.
    * intros k b Hb Hoc. apply onCreate_done_app, (Hc k b); auto.
    * intros e j Hin Hm. in_cases; subst e; cbn in Hm; contradiction.
Qed.

Lemma on_update_reached (base : list Effect) (update : Update) (w : World E) :
  reached host base w -> reached host base (snd (on_update host update w)).
Proof.
  intros Hw. unfold on_update. rewrite bind_snd. cbn [get_world].
  rewrite bind_snd.
  destruct (Obj.get (bots (botMaster w)) (identify host update)) eqn:Hget.
  - cbn [ret]. now apply process_reached.
  - destruct (Obj.is_inherited (identify host update)).
    + cbn [ret]. now apply process_reached.
    + pose proof (create_reached base _ w Hw Hget) as Hc.
      destruct (create host (identify host update) w) as [[[] | error] w1];
        cbn [snd] in Hc; [now apply process_reached | exact Hc].
Qed.

Lemma dispatch_reached (base : list Effect) (updates : list Update) (w : World E) :
  reached host base w -> reached host base (snd (dispatch host updates w)).
Proof.
  revert w. induction updates as [| update rest IH]; intros w Hw; [exact Hw |].
  cbn [dispatch]. rewrite bind_snd.
  pose proof (on_update_reached base update w Hw) as H1.
  destruct (on_update host update w) as [[[] | error] w1]; cbn [snd] in H1;
    [now apply IH | exact H1].
Qed.

Lemma sweep_entries_reached (base : list Effect) (T : Z)
      (entries : list (string * Bot)) (w : World E) :
  reached host base w -> reached host base (snd (sweep_entries host T entries w)).
Proof.
  revert w. induction entries as [| entry rest IH]; intros w Hw; [exact Hw |].
  cbn [sweep_entries]. rewrite bind_snd.
  pose proof (sweep_one_reached base T entry w Hw) as H1.
  destruct (sweep_one host T entry w) as [[[] | error] w1]; cbn [snd] in H1;
    [now apply IH | exact H1].
Qed.

Lemma onUpdates_reached (base : list Effect) (updates : list Update) (w : World E) :
  reached host base w -> reached host base (run (onUpdates host updates) w).
Proof.
  intros Hw. unfold run, onUpdates. rewrite bind_snd.
  pose proof (dispatch_reached base updates w Hw) as H1.
  destruct (dispatch host updates w) as [[[] | error] w1]; cbn [snd] in H1;
    [| exact H1].
  unfold sweep. rewrite bind_snd. cbn [get_world].
  destruct (destroyTimeout (botMaster w1)); [| exact H1].
  now apply sweep_entries_reached.
Qed.

Lemma batches_reached (base : list Effect) (bs : list (list Update)) (w : World E) :
  reached host base w -> reached host base (batches host bs w).
Proof.
  revert w. induction bs as [| updates bs IH]; intros w Hw; [exact Hw |].
  apply IH. now apply onUpdates_reached.
Qed.

(** *** Within one call of [onUpdates] *)

Lemma orderly_app (pre l1 l2 : list Effect) :
  orderly host pre (l1 ++ l2) <-> orderly host pre l1 /\ orderly host (pre ++ l1) l2.
Proof.
  revert pre. induction l1 as [| e l1 IH]; intro pre; cbn.
  - rewrite app_nil_r. tauto.
  - rewrite IH, <- app_assoc. cbn. tauto.
Qed.

Lemma orderly_split (pre post evs : list Effect) (e : Effect) :
  orderly host [] evs -> evs = pre ++ e :: post -> created_first host pre e.
Proof.
  intros Hl ->. apply orderly_app in Hl. destruct Hl as [_ Hl]. cbn in Hl.
  tauto.
Qed.

Lemma onCreate_returned_app (evs suffix : list Effect) (i : Instance) :
  onCreate_returned evs i -> onCreate_returned (evs ++ suffix) i.
Proof. intros [H1 H2]. split; apply in_or_app; now left. Qed.

(** Effects that construct nothing and call no [processUpdate] may
    always follow. *)
Lemma orderly_no_session (pre evs : list Effect) :
  forallb no_session evs = true -> orderly host pre evs.
Proof.
  revert pre. induction evs as [| e evs IH]; intros pre H; [exact I |].
  cbn in H. apply andb_prop in H. destruct H as [He Hrest].
  split; [| now apply IH].
  destruct e as [| c | | | | | | |]; try exact I. now destruct c.
Qed.

Lemma all_created_no_session (pre evs : list Effect) :
  forallb no_session evs = true ->
  all_created host pre -> all_created host (pre ++ evs).
Proof.
  intros H Hpre i Hin Hoc. apply in_app_or in Hin. destruct Hin as [Hin | Hin].
  - apply onCreate_returned_app. now apply Hpre.
  - apply (forallb_In _ _ _ H) in Hin. discriminate.
Qed.

(** A call of [processUpdate] may follow when every instance constructed
    so far had its [onCreate] return. *)
Lemma all_created_process (pre : list Effect) (i : Instance) (u : Update) :
  all_created host pre ->
  orderly host pre [Invoke (ProcessUpdate i u)]
  /\ all_created host (pre ++ [Invoke (ProcessUpdate i u)]).
Proof.
  intros Hpre. split.
  - split; [| exact I]. intros Hin Hoc. now apply Hpre.
  - intros j Hin Hoc. apply in_app_or in Hin. destruct Hin as [Hin | Hin].
    + apply onCreate_returned_app. now apply Hpre.
    + destruct Hin as [Hin | []]. discriminate.
Qed.

(** One turn of the loop over the batch. *)
Lemma on_update_orderly (pre : list Effect) (update : Update) (w : World E) :
  all_created host pre ->
  exists evs,
    trace (snd (on_update host update w)) = trace w ++ evs
    /\ orderly host pre evs
    /\ match fst (on_update host update w) with
       | Fulfilled _ => all_created host (pre ++ evs)
       | Rejected _ => True
       end.
Proof.
  intros Hpre.
  assert (Hnone : orderly host pre [] /\ all_created host (pre ++ []))
    by (rewrite app_nil_r; now split).
  assert (Hnew : forall (i : Instance) (k : string) (tail : list Effect),
             (servant_onCreate host <> None ->
              onCreate_returned
                (New i :: Log Debug (Creating k) :: tail) i) ->
             forallb no_session (Log Debug (Creating k) :: tail) = true ->
             forall u,
               orderly host pre (New i :: Log Debug (Creating k) :: tail
                                   ++ [Invoke (ProcessUpdate i u)])
               /\ all_created host
                    (pre ++ New i :: Log Debug (Creating k) :: tail
                            ++ [Invoke (ProcessUpdate i u)])).
  { intros i k tail Hret Hq u.
    assert (Hall : all_created host
                     (pre ++ New i :: Log Debug (Creating k) :: tail)).
    { intros j Hin Hoc. apply in_app_or in Hin.
      destruct Hin as [Hin | [Hin | Hin]].
      - apply onCreate_returned_app. now apply Hpre.
      - injection Hin as <-. destruct (Hret Hoc) as [H1 H2].
        split; apply in_or_app; now right.
      - apply (forallb_In _ _ _ Hq) in Hin. discriminate. }
    destruct (all_created_process _ i u Hall) as [H1 H2].
    split.
    - change (New i :: Log Debug (Creating k) :: tail
                ++ [Invoke (ProcessUpdate i u)])
        with ((New i :: Log Debug (Creating k) :: tail)
                ++ [Invoke (ProcessUpdate i u)]).
      apply orderly_app. split; [| exact H1].
      split; [exact I |]. now apply orderly_no_session.
    - rewrite <- app_assoc in H2. exact H2. }
  unfold on_update, create, process, set_bots, log, await, awaiting, invoke.
  js_unfold. cbn -[Obj.is_inherited].
  destruct (Obj.get (bots (botMaster w)) (identify host update)) as [bot |] eqn:Hg;
    cbn -[Obj.is_inherited].
  - rewrite ?Hg.
    destruct (servant_processUpdate host) as [f |]; cbn.
    + destruct (all_created_process pre (instance bot) update Hpre) as [H1 H2].
      destruct (f (instance bot) update (ext w)) as [[[] | error] e1]; cbn;
        eexists; (split; [reflexivity |]); now split.
    + exists []. rewrite app_nil_r. now split.
  - destruct (Obj.is_inherited (identify host update)); cbn.
    + rewrite ?Hg. exists []. rewrite app_nil_r. now split.
    + destruct (servant_onCreate host) as [c |] eqn:Hoc; cbn.
      * destruct (c _ (ext w)) as [[[] | error] e1]; cbn.
        -- rewrite get_set, String.eqb_refl.
           match goal with
           | |- context [New ?i] =>
               destruct (Hnew i (identify host update)
                           [Invoke (OnCreate i); Settle (OnCreate i) true])
                 with (u := update) as [H1 H2];
               [intros _; split; cbn; tauto | reflexivity |]
           end.
           destruct (servant_processUpdate host) as [f |]; cbn.
           ++ destruct (f _ update e1) as [[[] | error] e2]; cbn;
                eexists; (split; [rewrite <- !app_assoc; reflexivity |]);
                now split.
           ++ eexists. split; [rewrite <- !app_assoc; reflexivity |].
              split; [| exact I]. cbn. tauto.
        -- eexists. split; [rewrite <- !app_assoc; reflexivity |].
           split; [| exact I]. cbn. tauto.
      * rewrite get_set, String.eqb_refl.
        match goal with
        | |- context [New ?i] =>
            destruct (Hnew i (identify host update) [])
              with (u := update) as [H1 H2];
            [intros Hsome; congruence | reflexivity |]
        end.
        destruct (servant_processUpdate host) as [f |]; cbn.
        -- destruct (f _ update (ext w)) as [[[] | error] e2]; cbn;
             eexists; (split; [rewrite <- !app_assoc; reflexivity |]);
             now split.
        -- eexists. split; [rewrite <- !app_assoc; reflexivity |].
           split; [| exact I]. cbn. tauto.
Qed.

Lemma dispatch_orderly (pre : list Effect) (updates : list Update) (w : World E) :
  all_created host pre ->
  exists evs,
    trace (snd (dispatch host updates w)) = trace w ++ evs
    /\ orderly host pre evs.
Proof.
  revert pre w. induction updates as [| update rest IH]; intros pre w Hpre.
  - exists []. cbn. now rewrite app_nil_r.
  - cbn [dispatch]. rewrite bind_snd.
    destruct (on_update_orderly pre update w Hpre) as (evs1 & Ht1 & Ho1 & Hall).
    destruct (on_update host update w) as [[[] | error] w1];
      cbn [fst snd] in Ht1, Hall.
    + destruct (IH (pre ++ evs1) w1 Hall) as (evs2 & Ht2 & Ho2).
      exists (evs1 ++ evs2). split; [now rewrite Ht2, Ht1, app_assoc |].
      apply orderly_app. now split.
    + exists evs1. now split.
Qed.

(** The sweep constructs nothing and calls no [processUpdate]. *)
Lemma sweep_entries_no_session (T : Z) (entries : list (string * Bot))
      (w : World E) :
  exists evs,
    trace (snd (sweep_entries host T entries w)) = trace w ++ evs
    /\ forallb no_session evs = true.
Proof.
  revert w. induction entries as [| [identifier bot] rest IH]; intro w.
  - exists []. cbn. now rewrite app_nil_r.
  - cbn [sweep_entries]. rewrite bind_snd.
    assert (H1 : exists evs,
               trace (snd (sweep_one host T (identifier, bot) w)) = trace w ++ evs
               /\ forallb no_session evs = true
               /\ True).
    { unfold sweep_one, await, awaiting, set_bots, log. js_unfold. cbn.
      destruct (date_now host (ext w) - lastActiveTime bot >? T); cbn;
        [| exists []; now rewrite app_nil_r].
      destruct (servant_onRemove host) as [f |]; cbn;
        [destruct (f (instance bot) (ext w)) as [[[] | error] e1]; cbn |];
        eexists; (split; [rewrite <- !app_assoc; reflexivity |]); now split. }
    destruct H1 as (evs1 & Ht1 & Hq1 & _).
    destruct (sweep_one host T (identifier, bot) w) as [[[] | error] w1];
      cbn [snd] in Ht1.
    + destruct (IH w1) as (evs2 & Ht2 & Hq2).
      exists (evs1 ++ evs2). split; [now rewrite Ht2, Ht1, app_assoc |].
      now rewrite forallb_app, Hq1, Hq2.
    + exists evs1. now split.
Qed.

Lemma onUpdates_orderly (updates : list Update) (w : World E) :
  exists evs,
    trace (run (onUpdates host updates) w) = trace w ++ evs
    /\ orderly host [] evs.
Proof.
  unfold run, onUpdates. rewrite bind_snd.
  destruct (dispatch_orderly [] updates w) as (evs1 & Ht1 & Ho1);
    [intros i [] |].
  destruct (dispatch host updates w) as [[[] | error] w1]; cbn [snd] in Ht1;
    [| now exists evs1].
  unfold sweep. rewrite bind_snd. cbn [get_world].
  destruct (destroyTimeout (botMaster w1)) as [T |]; [| now exists evs1].
  destruct (sweep_entries_no_session T (Obj.entries (bots (botMaster w1))) w1)
    as (evs2 & Ht2 & Hq2).
  exists (evs1 ++ evs2). split; [now rewrite Ht2, Ht1, app_assoc |].
  apply orderly_app. split; [exact Ho1 | now apply orderly_no_session].
Qed.

(** C7 (amended). Start from any heap whose registry is empty and feed
    [BotMaster.onUpdates] any batches, one after the other, whatever the
    servant's hooks do.  Then every construction of an instance is for an
    identifier that has no instance registered at that moment (none was
    constructed for it since it was last deleted), and the instance is a
    new object; every [processUpdate] call goes to the instance registered
    under the identifier of its update (a further event reuses it), and,
    when the servant has [onCreate], the [onCreate] of that instance was
    invoked and has settled, by returning or by throwing, before.
    Moreover, in any one call of [onUpdates], from any heap, a
    [processUpdate] call on an instance that this call constructed comes
    after the [onCreate] of that instance has returned. *)
Theorem sessions_created_once (bs : list (list Update)) (w : World E) :
  bots (botMaster w) = [] ->
  (forall pre e post,
      emitted w (batches host bs w) = pre ++ e :: post -> allowed host pre e)
  /\ (forall (w0 : World E) updates pre e post,
         emitted w0 (run (onUpdates host updates) w0) = pre ++ e :: post ->
         created_first host pre e).
Proof.
  intros Hempty. split.
  - intros pre e post Hsplit.
    assert (H0 : reached host (trace w) w).
    { exists []. split; [now rewrite app_nil_r |]. split.
      - exact I.
      - intro k. now rewrite Hempty.
      - intros k b. rewrite Hempty. discriminate.
      - intros e' i []. }
    destruct (batches_reached (trace w) bs w H0) as (evs & Htr & [Hl _ _ _]).
    rewrite (emitted_app _ _ _ Htr) in Hsplit.
    exact (lawful_split pre post evs e Hl Hsplit).
  - intros w0 updates pre e post Hsplit.
    destruct (onUpdates_orderly updates w0) as (evs & Htr & Ho).
    rewrite (emitted_app _ _ _ Htr) in Hsplit.
    exact (orderly_split pre post evs e Ho Hsplit).
Qed.

End Sessions.

(** Two messages of user 1 in one batch: one instance, created before the
    first, reused by the second. *)
Lemma sessions_created_once_witness :
  let w := boot Demo.master_poller Demo.master (Demo.mkScript [] [] 0) in
  let i := mkInstance 0 "1" in
  let pre := [New i; Log Debug (Creating "1"); Invoke (OnCreate i);
              Settle (OnCreate i) true;
              Invoke (ProcessUpdate i (Demo.update 5 1))] in
  let e := Invoke (ProcessUpdate i (Demo.update 6 1)) in
  bots (botMaster w) = []
  /\ emitted w (batches Demo.scripted [[Demo.update 5 1; Demo.update 6 1]] w)
     = pre ++ e :: []
  /\ allowed Demo.scripted pre e
  /\ created_first Demo.scripted pre e.
Proof.
  cbv zeta.
  assert (Hsplit :
    emitted (boot Demo.master_poller Demo.master (Demo.mkScript [] [] 0))
      (batches Demo.scripted [[Demo.update 5 1; Demo.update 6 1]]
         (boot Demo.master_poller Demo.master (Demo.mkScript [] [] 0)))
    = [New (mkInstance 0 "1"); Log Debug (Creating "1");
       Invoke (OnCreate (mkInstance 0 "1"));
       Settle (OnCreate (mkInstance 0 "1")) true;
       Invoke (ProcessUpdate (mkInstance 0 "1") (Demo.update 5 1))]
      ++ Invoke (ProcessUpdate (mkInstance 0 "1") (Demo.update 6 1)) :: [])
    by (vm_compute; reflexivity).
  assert (Hcall :
    emitted (boot Demo.master_poller Demo.master (Demo.mkScript [] [] 0))
      (run (onUpdates Demo.scripted [Demo.update 5 1; Demo.update 6 1])
         (boot Demo.master_poller Demo.master (Demo.mkScript [] [] 0)))
    = [New (mkInstance 0 "1"); Log Debug (Creating "1");
       Invoke (OnCreate (mkInstance 0 "1"));
       Settle (OnCreate (mkInstance 0 "1")) true;
       Invoke (ProcessUpdate (mkInstance 0 "1") (Demo.update 5 1))]
      ++ Invoke (ProcessUpdate (mkInstance 0 "1") (Demo.update 6 1)) :: [])
    by (vm_compute; reflexivity).
  split; [reflexivity |]. split; [exact Hsplit |].
  destruct (sessions_created_once Demo.scripted
              [[Demo.update 5 1; Demo.update 6 1]]
              (boot Demo.master_poller Demo.master (Demo.mkScript [] [] 0))
              eq_refl) as [H1 H2].
  split; [exact (H1 _ _ _ Hsplit) |].
  exact (H2 (boot Demo.master_poller Demo.master (Demo.mkScript [] [] 0))
            [Demo.update 5 1; Demo.update 6 1]
            [New (mkInstance 0 "1"); Log Debug (Creating "1");
             Invoke (OnCreate (mkInstance 0 "1"));
             Settle (OnCreate (mkInstance 0 "1")) true;
             Invoke (ProcessUpdate (mkInstance 0 "1") (Demo.update 5 1))]
            (Invoke (ProcessUpdate (mkInstance 0 "1") (Demo.update 6 1)))
            [] Hcall).
Defined.

(** C7 as stated fails: [onUpdates] registers the instance before it
    awaits [onCreate].  When [onCreate] throws, the batch is abandoned and
    the instance stays; when the batch is delivered again its first
    [processUpdate] call goes to that instance, whose [onCreate] has not
    returned and is not called again. *)
Lemma processed_without_completed_onCreate :
  let w := boot Demo.master_poller Demo.master tt in
  let i := mkInstance 0 "1" in
  let pre := [New i; Log Debug (Creating "1"); Invoke (OnCreate i);
              Settle (OnCreate i) false] in
  let e := Invoke (ProcessUpdate i (Demo.update 5 1)) in
  bots (botMaster w) = []
  /\ servant_onCreate Demo.refusing <> None
  /\ emitted w (batches Demo.refusing [[Demo.update 5 1]; [Demo.update 5 1]] w)
     = pre ++ [e]
  /\ ~ onCreate_returned pre i.
Proof.
  cbv zeta. split; [reflexivity |]. split; [discriminate |].
  split; [vm_compute; reflexivity |].
  intros [_ Hin]. cbn in Hin.
  repeat (destruct Hin as [Hin | Hin]; [discriminate |]). exact Hin.
Qed.


(** * Further properties of the code *)

(** ** BotPoller: what its methods return, and the schedule *)

Section Schedule.
Context {E : Type} (host : Host E).

(** X1. No method of the poller rejects, whatever the server and the
    callback do: [startPollUpdates], awaited, fulfils with [true] (a failed
    skip of the backlog is logged, not thrown), its call throws nothing
    before it waits and its rest, run when the skip fetch has settled,
    fulfils with [true]; a polling cycle [pollUpdates] fulfils (a rejected
    fetch and a throwing callback end in the cool-down branch), and
    [stopPollUpdates] fulfils with [false]. *)
Theorem poller_never_rejects (w : World E) :
  fst (startPollUpdates_awaited host w) = Fulfilled true
  /\ fst (pollUpdates host w) = Fulfilled tt
  /\ fst (stopPollUpdates w) = Fulfilled false
  /\ (exists r, fst (startPollUpdates w) = Fulfilled r)
  /\ (forall p, fst (startPollUpdates_resume host p w) = Fulfilled true).
Proof.
  split; [apply (startPollUpdates_polls host) |].
  split; [apply (pollUpdates_cycle host) |].
  split; [apply stopPollUpdates_stops |].
  split.
  - unfold startPollUpdates, skipUpdates_call, start_polling, set_offset,
      set_isPolling.
    js_unfold. cbn.
    destruct (isPolling (botPoller w)); cbn; [now eexists |].
    destruct (skippingUpdates (botPoller w)) as [[|] |]; cbn; now eexists.
  - intro p. apply (startPollUpdates_resume_polls host).
Qed.

(** X2. How a cycle ends.  On a poller that is polling, [pollUpdates]
    sets exactly one timeout and stores its handle in [pollingID]; the
    delay is [coolDownInterval] when the fetch was rejected or the callback
    threw, and [pollingInterval] otherwise (an empty batch included).  On a
    poller that was stopped, the cycle sets no timeout and leaves
    [pollingID] alone. *)
Theorem cool_down_iff_failed (w : World E) :
  let w' := run (pollUpdates host) w in
  if isPolling (botPoller w) then
    pollingID (botPoller w') = Some (next_timeout w)
    /\ exists delay,
        timers w' = timers w ++ [(next_timeout w, delay)]
        /\ (cycle_failed host w w' -> delay = coolDownInterval (botPoller w))
        /\ (~ cycle_failed host w w' -> delay = pollingInterval (botPoller w))
  else
    pollingID (botPoller w') = pollingID (botPoller w)
    /\ timers w' = timers w
    /\ forall id delay, ~ In (SetTimeout id delay) (emitted w w').
Proof.
  cbv zeta. unfold run.
  destruct (pollUpdates_cycle host w) as [_ (o & inner & C)].
  rewrite (cy_pollingID _ _ _ _ _ C), (cy_timers _ _ _ _ _ C).
  pose proof (cy_inner _ _ _ _ _ C) as Hinner.
  unfold cycle_failed.
  destruct (isPolling (botPoller w)) eqn:Hp.
  - split; [reflexivity |]. exists (delay_after w o).
    split; [reflexivity |]. split.
    + intros [[error He] | [updates Hin]].
      * rewrite <- (cy_fetched _ _ _ _ _ C) in He.
        apply fetched_rejected in He. now subst o.
      * destruct (cycle_settled C Hin) as [error ->]. reflexivity.
    + intros Hnot.
      destruct o as [error | | updates | updates error]; try reflexivity;
        exfalso; apply Hnot.
      * left. exists error. now rewrite <- (cy_fetched _ _ _ _ _ C).
      * right. exists updates. rewrite (cycle_emitted C).
        cbn [try_events]. apply in_cons, in_or_app. left.
        apply in_or_app. right. apply in_or_app. right.
        apply in_or_app. left. now left.
  - rewrite app_nil_r. split; [reflexivity |]. split; [reflexivity |].
    intros id delay Hin. rewrite (cycle_emitted C), Hp in Hin.
    destruct o as [error | | updates | updates error]; cbn [try_events] in Hin;
      in_cases; try discriminate;
      apply (forallb_In _ _ _ Hinner) in Hin; discriminate.
Qed.

Lemma cancel_handle (id : option nat) (ts : list (nat * Z)) :
  (List.length ts <= 1)%nat ->
  (forall t, In t ts -> id = Some (fst t)) ->
  cancel id ts = [].
Proof.
  destruct ts as [| t [| t' ts]]; cbn [List.length]; intros Hlen Hid.
  - now destruct id.
  - rewrite (Hid t (or_introl eq_refl)). cbn. now rewrite Nat.eqb_refl.
  - lia.
Qed.

Lemma cancel_fired (id : nat) (ts : list (nat * Z)) :
  (List.length ts <= 1)%nat ->
  existsb (fun t => Nat.eqb (fst t) id) ts = true ->
  cancel (Some id) ts = [].
Proof.
  destruct ts as [| t [| t' ts]]; cbn [List.length]; intros Hlen Hex.
  - reflexivity.
  - cbn in *. rewrite orb_false_r in Hex. now rewrite Hex.
  - lia.
Qed.

(** A cycle that runs with nothing else pending leaves a tidy schedule. *)
Lemma cycle_tidy (w0 w' : World E) o inner :
  cycle host w0 w' o inner -> inflight w0 = O -> timers w0 = [] -> tidy w'.
Proof.
  intros C Hfl Htm.
  pose proof (cy_timers _ _ _ _ _ C) as Ht. rewrite Htm in Ht.
  pose proof (cy_pollingID _ _ _ _ _ C) as Hid.
  pose proof (cy_isPolling _ _ _ _ _ C) as Hp.
  pose proof (cy_inflight _ _ _ _ _ C) as Hi. rewrite Hfl in Hi.
  destruct (isPolling (botPoller w0)); cbn in Ht; split; rewrite ?Ht, ?Hi.
  - cbn. lia.
  - intros t [<- | []]. exact Hid.
  - congruence.
  - cbn. lia.
  - intros t [].
  - reflexivity.
Qed.

Lemma cleanup_tidy (stopCallback : option (HostFn E unit)) (w : World E) :
  tidy w -> tidy (run (cleanup host stopCallback) w).
Proof.
  intros [Hone Hid Hstop].
  destruct (cleanup_schedule host stopCallback w) as (Hp & _ & Hfl & Htm).
  assert (Hnone : timers (run (cleanup host stopCallback) w) = []).
  { rewrite Htm. destruct (isPolling (botPoller w)).
    - apply cancel_handle; [lia | exact Hid].
    - now apply Hstop. }
  split; rewrite ?Hnone, ?Hfl.
  - cbn. lia.
  - intros t [].
  - reflexivity.
Qed.

Lemma tick_tidy (t : Tick) (w : World E) : tidy w -> tidy (tick host t w).
Proof.
  intros T. pose proof T as [Hone Hid Hstop].
  destruct t as [| id | s]; cbn [tick].
  - destruct (inflight w) as [| n] eqn:Hfl; [exact T |].
    unfold run.
    match goal with
    | |- context [pollUpdates host ?w0] =>
        destruct (pollUpdates_cycle host w0) as [_ (o & inner & C)];
        apply (cycle_tidy _ _ _ _ C)
    end; cbn.
    + lia.
    + destruct (timers w); [reflexivity | cbn in Hone; lia].
  - destruct (existsb _ (timers w)) eqn:Hex; [| exact T].
    unfold run.
    match goal with
    | |- context [pollUpdates host ?w0] =>
        destruct (pollUpdates_cycle host w0) as [_ (o & inner & C)];
        apply (cycle_tidy _ _ _ _ C)
    end; cbn.
    + destruct (timers w); [discriminate | cbn in Hone; lia].
    + apply cancel_fired; [lia | exact Hex].
  - generalize (signal_listeners s (listeners w)). intro l.
    revert w T Hone Hid Hstop.
    induction l as [| stopCallback l IH]; intros w T _ _ _; cbn [fold_left].
    + exact T.
    + pose proof (cleanup_tidy stopCallback w T) as T'.
      destruct T' as [H1 H2 H3] eqn:HT. now apply IH.
Qed.

Lemma ticks_tidy (ts : list Tick) (w : World E) :
  tidy w -> tidy (ticks host ts w).
Proof.
  revert w. induction ts as [| t ts IH]; intros w T; [exact T |].
  change (ticks host (t :: ts) w) with (ticks host ts (tick host t w)).
  now apply IH, tick_tidy.
Qed.

Lemma start_tidy (w : World E) :
  timers w = [] -> inflight w = O -> tidy (run (startPollUpdates_awaited host) w).
Proof.
  intros Htm Hfl.
  destruct (isPolling (botPoller w)) eqn:Hp.
  - unfold run. rewrite (startPollUpdates_polling host w Hp). cbn.
    split; rewrite ?Htm, ?Hfl; [cbn; lia | intros t [] | reflexivity].
  - assert (H : inflight (run (startPollUpdates_awaited host) w) = S (inflight w)
                /\ timers (run (startPollUpdates_awaited host) w) = timers w).
    { destruct (skippingUpdates (botPoller w)) as [[|] |] eqn:Hs.
      - destruct (startPollUpdates_skip host w Hp) as (_ & _ & _ & _ & _ & H1 & H2);
          [congruence | now split].
      - unfold run, startPollUpdates_awaited, set_isPolling. js_unfold. cbn.
        rewrite Hp, Hs. cbn. now split.
      - destruct (startPollUpdates_skip host w Hp) as (_ & _ & _ & _ & _ & H1 & H2);
          [congruence | now split]. }
    destruct H as [H1 H2].
    split; rewrite ?H1, ?H2, ?Htm, ?Hfl; [cbn; lia | intros t [] | reflexivity].
Qed.

(** X3. One cycle at a time.  After [startPollUpdates], awaited, on a
    poller with nothing pending, and through every run of the event loop (cycles
    resumed, timeouts fired, signals received), at most one polling cycle
    is pending, either in flight or as a timeout; the pending timeout is
    the one [pollingID] names; and a stopped poller has no timeout. *)
Theorem one_cycle_at_a_time (w : World E) (ts : list Tick) :
  timers w = [] -> inflight w = O ->
  tidy (ticks host ts (run (startPollUpdates_awaited host) w)).
Proof. intros Htm Hfl. now apply ticks_tidy, start_tidy. Qed.

Lemma fetches_app (l1 l2 : list Effect) :
  fetches (l1 ++ l2) = (fetches l1 + fetches l2)%nat.
Proof. unfold fetches. now rewrite filter_app, length_app. Qed.

Lemma fetches_off_cycle (evs : list Effect) :
  forallb off_cycle evs = true -> fetches evs = O.
Proof.
  induction evs as [| e evs IH]; [reflexivity |]. cbn [forallb].
  intros H. apply andb_prop in H. destruct H as [He Hevs].
  change (e :: evs) with ([e] ++ evs). rewrite fetches_app, (IH Hevs).
  destruct e as [[] | | | | | | | |]; try reflexivity; discriminate.
Qed.

(** A cycle makes one fetch. *)
Lemma fetches_cycle (w w' : World E) o inner :
  cycle host w w' o inner -> fetches (emitted w w') = 1%nat.
Proof.
  intros C. rewrite (cycle_emitted C).
  pose proof (cy_inner _ _ _ _ _ C) as Hinner.
  apply registry_off_cycle, fetches_off_cycle in Hinner.
  change (Log Debug (PollingSince (cursor w)) :: ?l)
    with ([Log Debug (PollingSince (cursor w))] ++ l).
  rewrite !fetches_app.
  assert (Hs : fetches (if isPolling (botPoller w)
                        then [SetTimeout (next_timeout w) (delay_after w o)]
                        else []) = O) by now destruct (isPolling (botPoller w)).
  rewrite Hs.
  destruct o; cbn [try_events]; rewrite ?fetches_app, ?Hinner; reflexivity.
Qed.

(** One step of the event loop on a stopped poller. *)
Lemma tick_stopped (t : Tick) (w : World E) :
  isPolling (botPoller w) = false -> timers w = [] ->
  let w' := tick host t w in
  isPolling (botPoller w') = false
  /\ timers w' = []
  /\ (fetches (emitted w w') + inflight w' = inflight w)%nat.
Proof.
  intros Hp Htm. cbv zeta.
  destruct t as [| id | s]; cbn [tick].
  - destruct (inflight w) as [| n] eqn:Hfl.
    + rewrite emitted_refl, Hfl. now repeat split.
    + unfold run.
      match goal with
      | |- context [pollUpdates host ?w0] =>
          destruct (pollUpdates_cycle host w0) as [_ (o & inner & C)];
          assert (Hem : emitted w (snd (pollUpdates host w0))
                        = emitted w0 (snd (pollUpdates host w0))) by reflexivity
      end.
      rewrite Hem, (fetches_cycle _ _ _ _ C).
      rewrite (cy_isPolling _ _ _ _ _ C), (cy_timers _ _ _ _ _ C),
        (cy_inflight _ _ _ _ _ C). cbn. rewrite Hp, Htm. now repeat split.
  - rewrite Htm. cbn. rewrite emitted_refl, Htm. now repeat split.
  - generalize (signal_listeners s (listeners w)). intro l.
    revert w Hp Htm.
    induction l as [| stopCallback l IH]; intros w Hp Htm; cbn [fold_left].
    + rewrite emitted_refl. now repeat split.
    + destruct (cleanup_schedule host stopCallback w) as (Hp1 & _ & Hfl1 & Htm1).
      rewrite Hp, Htm in Htm1.
      destruct (cleanup_keeps_cursor host stopCallback w)
        as [_ (evs1 & Ht1 & Hoff1)].
      destruct (IH _ Hp1 Htm1) as (Hp2 & Htm2 & Hn2).
      split; [exact Hp2 |]. split; [exact Htm2 |].
      match goal with
      | |- context [fold_left ?f l ?w1] =>
          assert (Hgrow : exists evs, trace (fold_left f l w1) = trace w1 ++ evs)
      end.
      { clear. generalize (run (cleanup host stopCallback) w). intro w1.
        revert w1. induction l as [| sc l IH]; intro w1; cbn [fold_left].
        - exists []. now rewrite app_nil_r.
        - destruct (IH (run (cleanup host sc) w1)) as (evs2 & H2).
          destruct (cleanup_keeps_cursor host sc w1) as [_ (evs1 & H1 & _)].
          exists (evs1 ++ evs2). rewrite H2. unfold run.
          now rewrite H1, app_assoc. }
      rewrite (emitted_trans w (run (cleanup host stopCallback) w));
        [| now exists evs1 | exact Hgrow].
      pose proof (emitted_app w (run (cleanup host stopCallback) w) evs1 Ht1)
        as Hem1.
      rewrite fetches_app, Hem1, (fetches_off_cycle _ Hoff1).
      cbn. rewrite <- Hfl1. exact Hn2.
Qed.

Lemma ticks_stopped (ts : list Tick) (w : World E) :
  isPolling (botPoller w) = false -> timers w = [] ->
  let w' := ticks host ts w in
  isPolling (botPoller w') = false
  /\ timers w' = []
  /\ (fetches (emitted w w') + inflight w' = inflight w)%nat.
Proof.
  revert w. induction ts as [| t ts IH]; intros w Hp Htm; cbv zeta.
  - cbn. rewrite emitted_refl. now repeat split.
  - change (ticks host (t :: ts) w) with (ticks host ts (tick host t w)).
    destruct (tick_stopped t w Hp Htm) as (Hp1 & Htm1 & Hn1).
    destruct (IH _ Hp1 Htm1) as (Hp2 & Htm2 & Hn2).
    split; [exact Hp2 |]. split; [exact Htm2 |].
    rewrite (emitted_trans w (tick host t w));
      [| apply (tick_grows host) | apply (ticks_grows host)].
    rewrite fetches_app. lia.
Qed.

(** X4. Stopping takes effect.  After [stopPollUpdates] on a poller with
    a tidy schedule and no start that still waits for its skip fetch,
    whatever the event loop runs next: the poller stays stopped, no timeout
    is pending ever again, and the fetches made from then on are at most
    the cycles that were in flight at the stop, hence at most one. *)
Theorem stop_takes_effect (w : World E) (es : list Event) :
  tidy w -> starting w = [] ->
  let w1 := run stopPollUpdates w in
  let w2 := events host es w1 in
  isPolling (botPoller w2) = false
  /\ timers w2 = []
  /\ (fetches (emitted w1 w2) <= inflight w <= 1)%nat.
Proof.
  intros [Hone Hid Hstop] Hs. cbv zeta.
  destruct (events_ticks host es (run stopPollUpdates w)) as (ts & ->);
    [now rewrite stopPollUpdates_starting |].
  unfold run.
  destruct (stopPollUpdates_schedule w) as (w1 & -> & Hp & _ & Hfl & Htm & _).
  cbn [snd].
  assert (Hnone : timers w1 = []).
  { rewrite Htm. destruct (isPolling (botPoller w)).
    - apply cancel_handle; [lia | exact Hid].
    - now apply Hstop. }
  destruct (ticks_stopped ts w1 Hp Hnone) as (Hp2 & Htm2 & Hn2).
  split; [exact Hp2 |]. split; [exact Htm2 |]. lia.
Qed.


End Schedule.

Lemma one_cycle_at_a_time_witness :
  let w := boot Demo.poller Demo.master tt in
  timers w = [] /\ inflight w = O
  /\ tidy (ticks Demo.endless [Resume; Fire 0%nat; Kill SIGINT; Resume]
             (run (startPollUpdates_awaited Demo.endless) w)).
Proof.
  cbv zeta. split; [reflexivity |]. split; [reflexivity |].
  exact (one_cycle_at_a_time Demo.endless (boot Demo.poller Demo.master tt)
           [Resume; Fire 0%nat; Kill SIGINT; Resume] eq_refl eq_refl).
Defined.

Lemma stop_takes_effect_witness :
  let w := events Demo.endless [Skipped; Run Resume]
             (run startPollUpdates (boot Demo.poller Demo.master tt)) in
  let w1 := run stopPollUpdates w in
  let w2 := events Demo.endless [Run (Fire 0%nat); Skipped; Run Resume] w1 in
  tidy w
  /\ starting w = []
  /\ isPolling (botPoller w) = true
  /\ isPolling (botPoller w2) = false
  /\ timers w2 = []
  /\ (fetches (emitted w1 w2) <= inflight w <= 1)%nat.
Proof.
  cbv zeta.
  assert (T : tidy (events Demo.endless [Skipped; Run Resume]
                      (run startPollUpdates (boot Demo.poller Demo.master tt)))).
  { split.
    - vm_compute. lia.
    - vm_compute. intros t [<- | []]. reflexivity.
    - vm_compute. discriminate. }
  split; [exact T |]. split; [reflexivity |]. split; [reflexivity |].
  exact (stop_takes_effect Demo.endless _
           [Run (Fire 0%nat); Skipped; Run Resume] T eq_refl).
Defined.


(** ** The earlier poller: the offset loop *)

Lemma fold_max_ge (l : list Z) (m x : Z) :
  In x l -> x <= fold_left Z.max l m.
Proof.
  revert m. induction l as [| a l IH]; intros m Hin; [destruct Hin |].
  cbn [fold_left]. destruct Hin as [-> | Hin].
  - pose proof (fold_max_le l (Z.max m x)). lia.
  - now apply IH.
Qed.

Lemma fold_max_base (l : list Z) (a b : Z) :
  fold_left Z.max l (Z.max a b) = Z.max a (fold_left Z.max l b).
Proof.
  revert b. induction l as [| c l IH]; intro b; cbn [fold_left]; [reflexivity |].
  now rewrite <- Z.max_assoc, IH.
Qed.

Lemma fold_max_bounded (l : list Z) (m : Z) :
  Forall (fun x => x <= m) l -> fold_left Z.max l m = m.
Proof.
  induction 1 as [| a l Ha _ IH]; cbn [fold_left]; [reflexivity |].
  now rewrite Z.max_l.
Qed.

(** X6. The earlier [pollUpdates] moves the offset past the greatest
    [update_id] of the batch, wherever in the batch it stands, as soon as
    one update of the batch has a positive [update_id]. *)
Theorem legacy_offset_past_max (offset : Z) (updates : list Update) :
  Exists (fun u => 0 < update_id u) updates ->
  Legacy.next_offset offset (Fulfilled updates) = max_update_id updates + 1.
Proof.
  intros Hex. apply Exists_exists in Hex. destruct Hex as (u & Hin & Hpos).
  unfold Legacy.next_offset, Legacy.newest, Legacy.getUpdates.
  rewrite legacy_newest_max.
  destruct updates as [| first rest]; [destruct Hin |].
  cbn [map fold_left max_update_id]. rewrite fold_max_base.
  assert (Hu : update_id u <= fold_left Z.max (map update_id rest) (update_id first)).
  { destruct Hin as [-> | Hin]; [apply fold_max_le |].
    apply fold_max_ge, in_map, Hin. }
  rewrite Z.max_r by lia.
  destruct (Z.eqb_spec (fold_left Z.max (map update_id rest) (update_id first)) 0);
    [lia | reflexivity].
Qed.

Lemma legacy_offset_past_max_witness :
  let updates := [Demo.update 9 1; Demo.update 0 2; Demo.update 4 1] in
  Exists (fun u => 0 < update_id u) updates
  /\ Legacy.next_offset 3 (Fulfilled updates) = 10.
Proof.
  cbv zeta.
  assert (Hex : Exists (fun u => 0 < update_id u)
                  [Demo.update 9 1; Demo.update 0 2; Demo.update 4 1])
    by (apply Exists_cons_hd; reflexivity).
  split; [exact Hex |].
  exact (legacy_offset_past_max 3 _ Hex).
Defined.

(** X7. The earlier [pollUpdates] keeps its offset when the fetch failed
    (its [getUpdates] turns the failure into an empty batch) and when no
    update of the batch has a positive [update_id]: a batch that holds
    only the update number [0] is asked for again. *)
Theorem legacy_offset_kept (offset : Z) (fetch : Settled (list Update)) :
  Forall (fun u => update_id u <= 0) (Legacy.getUpdates fetch) ->
  Legacy.next_offset offset fetch = offset.
Proof.
  intros Hall. unfold Legacy.next_offset, Legacy.newest.
  rewrite legacy_newest_max, fold_max_bounded; [reflexivity |].
  apply Forall_map. exact Hall.
Qed.

Lemma legacy_offset_kept_witness :
  Forall (fun u => update_id u <= 0)
         (Legacy.getUpdates (Fulfilled [Demo.update 0 1]))
  /\ Forall (fun u => update_id u <= 0)
            (Legacy.getUpdates (Rejected (HostError "network")))
  /\ Legacy.next_offset 3 (Fulfilled [Demo.update 0 1]) = 3
  /\ Legacy.next_offset 3 (Rejected (HostError "network")) = 3.
Proof.
  assert (H0 : Forall (fun u => update_id u <= 0)
                 (Legacy.getUpdates (Fulfilled [Demo.update 0 1])))
    by (repeat constructor; cbn; lia).
  assert (H1 : Forall (fun u => update_id u <= 0)
                 (Legacy.getUpdates (Rejected (HostError "network"))))
    by constructor.
  split; [exact H0 |]. split; [exact H1 |].
  split; [exact (legacy_offset_kept 3 _ H0) | exact (legacy_offset_kept 3 _ H1)].
Defined.

(** ** BotMaster.loop *)

Section Loop.
Context {E : Type} (host : Host E).

Lemma master_kept_refl (w : World E) : master_kept w w.
Proof. split; [reflexivity | exists []; now rewrite app_nil_r]. Qed.

Lemma master_kept_trans (w1 w2 w3 : World E) :
  master_kept w1 w2 -> master_kept w2 w3 -> master_kept w1 w3.
Proof.
  intros [m1 [ev1 t1]] [m2 [ev2 t2]]. split; [congruence |].
  exists (ev1 ++ ev2). now rewrite t2, t1, app_assoc.
Qed.

(** What the call of [startPollUpdates] that [loop] makes leaves behind
    when it returns. *)
Lemma startPollUpdates_returns (w : World E) :
  let p := forced (pollingParam (botPoller w)) in
  let w' := run startPollUpdates w in
  (exists r, fst (startPollUpdates w) = Fulfilled r)
  /\ botMaster w' = botMaster w
  /\ timers w' = timers w
  /\ if waits_for_skip (botPoller w) then
       trace w' = trace w ++ [OffsetAssigned (-1); Invoke (GetUpdates p)]
       /\ isPolling (botPoller w') = false
       /\ pollingParam (botPoller w') = p
       /\ starting w' = starting w ++ [p]
       /\ inflight w' = inflight w
     else
       trace w' = trace w
       /\ isPolling (botPoller w') = true
       /\ pollingParam (botPoller w') = pollingParam (botPoller w)
       /\ starting w' = starting w
       /\ inflight w' = (if isPolling (botPoller w) then inflight w
                         else S (inflight w)).
Proof.
  cbv zeta. unfold waits_for_skip.
  destruct (isPolling (botPoller w)) eqn:Hp; cbn [negb andb].
  - unfold run. rewrite (startPollUpdates_on_polling w Hp). cbn [fst snd].
    split; [eexists; reflexivity |]. now repeat split.
  - destruct (skippingUpdates (botPoller w)) as [[|] |] eqn:Hs.
    + destruct (startPollUpdates_waits w Hp)
        as (H1 & H2 & H3 & H4 & H5 & _ & _ & H8 & H9 & H10 & _);
        [congruence |].
      split; [eexists; exact H1 |]. repeat split; assumption.
    + destruct (startPollUpdates_no_skip host w Hp Hs)
        as (H1 & H2 & H3 & H4 & H5 & H6 & H7).
      split; [rewrite H1; eexists; reflexivity |].
      repeat split; try assumption.
      unfold run, startPollUpdates, start_polling, set_isPolling.
      js_unfold. cbn. rewrite Hp, Hs. reflexivity.
    + destruct (startPollUpdates_waits w Hp)
        as (H1 & H2 & H3 & H4 & H5 & _ & _ & H8 & H9 & H10 & _);
        [congruence |].
      split; [eexists; exact H1 |]. repeat split; assumption.
Qed.

(** X8. A start hook that throws ends [loop]: [loop] rejects with what
    the hook threw, [getMe] is not called and the poller is not started;
    the two signal listeners were installed before and stay. *)
Theorem loop_start_hook_throws
        (startCallback stopCallback : option (HostFn E unit))
        (w : World E) (error : Error) :
  fst (hook_result startCallback (ext w)) = Rejected error ->
  let w' := run (loop host startCallback stopCallback) w in
  fst (loop host startCallback stopCallback w) = Rejected error
  /\ emitted w w' = [ProcessOn SIGINT; ProcessOn SIGTERM;
                     Invoke StartCallback; Settle StartCallback false]
  /\ botPoller w' = botPoller w
  /\ botMaster w' = botMaster w
  /\ inflight w' = inflight w
  /\ listeners w' = listeners w ++ [(SIGINT, stopCallback); (SIGTERM, stopCallback)].
Proof.
  intros Hs. cbv zeta.
  destruct startCallback as [f |]; cbn in Hs; [| discriminate].
  unfold run, loop, await, awaiting, log. js_unfold. cbn -[startPollUpdates].
  destruct (f (ext w)) as [[[] | err] e1]; cbn in Hs; [discriminate |].
  injection Hs as ->. cbn -[startPollUpdates].
  repeat split.
  - apply emitted_app. cbn. now rewrite <- !app_assoc.
  - now rewrite <- app_assoc.
Qed.

(** X9. When [getMe] fails, [loop] gives up: it logs the failure, calls
    the stop hook if there is one and settles as the hook does; the
    identity, the registry and the poller are as before, no fetch is made
    and no cycle is started. *)
Theorem loop_aborts_without_identity
        (startCallback stopCallback : option (HostFn E unit))
        (w : World E) (error : Error) :
  let e1 := snd (hook_result startCallback (ext w)) in
  let e2 := snd (api_getMe host e1) in
  fst (hook_result startCallback (ext w)) = Fulfilled tt ->
  fst (api_getMe host e1) = Rejected error ->
  let w' := run (loop host startCallback stopCallback) w in
  fst (loop host startCallback stopCallback w)
  = fst (hook_result stopCallback e2)
  /\ emitted w w' =
     [ProcessOn SIGINT; ProcessOn SIGTERM]
     ++ hook_events StartCallback startCallback true
     ++ [Invoke GetMe; Settle GetMe false;
         Log Warn (Text "Failed to get bot info, exit.");
         Log Err (Thrown error)]
     ++ hook_events StopCallback stopCallback
          (fulfilled (fst (hook_result stopCallback e2)))
  /\ botPoller w' = botPoller w
  /\ botMaster w' = botMaster w
  /\ timers w' = timers w
  /\ inflight w' = inflight w.
Proof.
  cbv zeta. intros Hs Hme.
  unfold run, loop, call_stopCallback, await, awaiting, log. js_unfold.
  destruct startCallback as [f |]; cbn -[startPollUpdates] in *.
  - destruct (f (ext w)) as [[[] | err] e1]; cbn in Hs; [| discriminate].
    cbn -[startPollUpdates] in *.
    destruct (api_getMe host e1) as [[me | err] e2]; cbn in Hme;
      [discriminate |]. injection Hme as ->. cbn -[startPollUpdates].
    destruct stopCallback as [g |]; cbn -[startPollUpdates].
    + destruct (g e2) as [[[] | err] e3]; cbn -[startPollUpdates];
        (split; [reflexivity |]);
        (split; [apply emitted_app; cbn; now rewrite <- !app_assoc |]);
        repeat split.
    + split; [reflexivity |].
      split; [apply emitted_app; cbn; now rewrite <- !app_assoc |].
      repeat split.
  - destruct (api_getMe host (ext w)) as [[me | err] e2]; cbn in Hme;
      [discriminate |]. injection Hme as ->. cbn -[startPollUpdates].
    destruct stopCallback as [g |]; cbn -[startPollUpdates].
    + destruct (g e2) as [[[] | err] e3]; cbn -[startPollUpdates];
        (split; [reflexivity |]);
        (split; [apply emitted_app; cbn; now rewrite <- !app_assoc |]);
        repeat split.
    + split; [reflexivity |].
      split; [apply emitted_app; cbn; now rewrite <- !app_assoc |].
      repeat split.
Qed.

(** X10. When [getMe] answers, [loop] stores the identity it returned
    and then calls [startPollUpdates] without waiting for it: [botID] and
    [botName] are those of the answer, the registry is untouched, and
    [loop] fulfils when that call returns.  On a poller that is not polling
    and skips the backlog (the default), that is with the skip fetch sent
    (the only effect after the answer of [getMe]), the cursor forced to
    [-1], the start waiting and the poller not yet polling; otherwise the
    poller is polling.  If no other start waited, the poller is polling
    once the skip fetch has settled. *)
Theorem loop_identity_before_polling
        (startCallback stopCallback : option (HostFn E unit))
        (w : World E) (me : Me) :
  let e1 := snd (hook_result startCallback (ext w)) in
  let p := forced (pollingParam (botPoller w)) in
  fst (hook_result startCallback (ext w)) = Fulfilled tt ->
  fst (api_getMe host e1) = Fulfilled me ->
  let w' := run (loop host startCallback stopCallback) w in
  fst (loop host startCallback stopCallback w) = Fulfilled tt
  /\ botID (botMaster w') = Some (me_id me)
  /\ botName (botMaster w') = Some (me_username me)
  /\ bots (botMaster w') = bots (botMaster w)
  /\ destroyTimeout (botMaster w') = destroyTimeout (botMaster w)
  /\ emitted w w' =
     [ProcessOn SIGINT; ProcessOn SIGTERM]
     ++ hook_events StartCallback startCallback true
     ++ [Invoke GetMe; Settle GetMe true; Log Debug Listening]
     ++ (if waits_for_skip (botPoller w)
         then [OffsetAssigned (-1); Invoke (GetUpdates p)] else [])
  /\ (if waits_for_skip (botPoller w) then
        isPolling (botPoller w') = false
        /\ cursor w' = -1
        /\ starting w' = starting w ++ [p]
        /\ inflight w' = inflight w
      else
        isPolling (botPoller w') = true
        /\ cursor w' = cursor w
        /\ starting w' = starting w)
  /\ (starting w = [] ->
      isPolling (botPoller (event host Skipped w')) = true).
Proof.
  cbv zeta. intros Hs Hme.
  unfold run, loop, set_me, await, awaiting, log.
  set (tail := bind startPollUpdates (fun _ => ret tt)).
  assert (Hstart : forall w1 : World E,
             fst (tail w1) = Fulfilled tt
             /\ snd (tail w1) = run startPollUpdates w1).
  { intro w1. destruct (startPollUpdates_returns w1) as ((r & Hr) & _).
    unfold run, tail, bind, ret.
    destruct (startPollUpdates w1) as [r' w2]. cbn in Hr |- *. subst r'.
    now split. }
  assert (Hend : forall (w1 : World E) (pre : list Effect),
             botPoller w1 = botPoller w -> starting w1 = starting w ->
             inflight w1 = inflight w -> trace w1 = trace w ++ pre ->
             let w2 := run startPollUpdates w1 in
             botMaster w2 = botMaster w1
             /\ emitted w w2
                = pre ++ (if waits_for_skip (botPoller w)
                          then [OffsetAssigned (-1);
                                Invoke (GetUpdates
                                          (forced (pollingParam (botPoller w))))]
                          else [])
             /\ (if waits_for_skip (botPoller w) then
                   isPolling (botPoller w2) = false
                   /\ cursor w2 = -1
                   /\ starting w2
                      = starting w ++ [forced (pollingParam (botPoller w))]
                   /\ inflight w2 = inflight w
                 else
                   isPolling (botPoller w2) = true
                   /\ cursor w2 = cursor w
                   /\ starting w2 = starting w)
             /\ (starting w = [] ->
                 isPolling (botPoller (event host Skipped w2)) = true)).
  { intros w1 pre Hb Hst Hfl Htr. cbv zeta.
    destruct (startPollUpdates_returns w1) as (_ & Hm & _ & Hcase).
    cbv zeta in Hcase. rewrite Hb in Hcase.
    split; [exact Hm |].
    destruct (waits_for_skip (botPoller w)).
    - destruct Hcase as (H1 & H2 & H3 & H4 & H5).
      split; [apply emitted_app; now rewrite H1, Htr, <- app_assoc |].
      split.
      + unfold cursor. rewrite H3, H4, Hst, H5, Hfl. now repeat split.
      + intros Hnone. rewrite Hst, Hnone in H4. cbn [app] in H4.
        now destruct (Skipped_resumes host _ _ _ H4) as (Hp & _).
    - destruct Hcase as (H1 & H2 & H3 & H4 & H5).
      split; [apply emitted_app; now rewrite H1, Htr, app_nil_r |].
      split.
      + unfold cursor. rewrite H3, H4, Hst. now repeat split.
      + intros Hnone. rewrite Hst, Hnone in H4.
        now rewrite (Skipped_idle host _ H4). }
  clearbody tail. js_unfold.
  destruct startCallback as [f |]; cbn in Hs, Hme |- *.
  - destruct (f (ext w)) as [[[] | err] e1]; cbn in Hs; [| discriminate].
    cbn in Hs, Hme |- *.
    destruct (api_getMe host e1) as [[me' | err] e2]; cbn in Hme;
      [| discriminate]. injection Hme as ->. cbn.
    match goal with
    | |- context [tail ?w1] =>
        destruct (Hstart w1) as (Hr & ->);
        destruct (Hend w1 [ProcessOn SIGINT; ProcessOn SIGTERM;
                           Invoke StartCallback; Settle StartCallback true;
                           Invoke GetMe; Settle GetMe true; Log Debug Listening])
          as (Hm & Hem & Hcase & Hsk);
        [reflexivity | reflexivity | reflexivity
        | cbn; now rewrite <- !app_assoc |]
    end.
    cbn in Hm. rewrite Hr.
    split; [reflexivity |].
    do 4 (split; [now rewrite Hm |]).
    split; [exact Hem |]. split; [exact Hcase | exact Hsk].
  - destruct (api_getMe host (ext w)) as [[me' | err] e2]; cbn in Hme;
      [| discriminate]. injection Hme as ->. cbn.
    match goal with
    | |- context [tail ?w1] =>
        destruct (Hstart w1) as (Hr & ->);
        destruct (Hend w1 [ProcessOn SIGINT; ProcessOn SIGTERM;
                           Invoke GetMe; Settle GetMe true; Log Debug Listening])
          as (Hm & Hem & Hcase & Hsk);
        [reflexivity | reflexivity | reflexivity
        | cbn; now rewrite <- !app_assoc |]
    end.
    cbn in Hm. rewrite Hr.
    split; [reflexivity |].
    do 4 (split; [now rewrite Hm |]).
    split; [exact Hem |]. split; [exact Hcase | exact Hsk].
Qed.

End Loop.

Lemma loop_start_hook_throws_witness :
  let w := boot Demo.master_poller Demo.master tt in
  let w' := run (loop Demo.endless Sample.failing_hook None) w in
  fst (hook_result Sample.failing_hook (ext w))
  = Rejected (HostError "no database")
  /\ fst (loop Demo.endless Sample.failing_hook None w)
     = Rejected (HostError "no database")
  /\ isPolling (botPoller w') = false.
Proof.
  cbv zeta. split; [reflexivity |].
  split; [| reflexivity].
  exact (proj1 (loop_start_hook_throws Demo.endless Sample.failing_hook None
                  (boot Demo.master_poller Demo.master tt)
                  (HostError "no database") eq_refl)).
Defined.

Lemma loop_aborts_without_identity_witness :
  let w := boot Demo.master_poller Demo.master tt in
  let w' := run (loop Sample.offline None Sample.quiet_hook) w in
  fst (api_getMe Sample.offline (ext w)) = Rejected (HostError "network")
  /\ botPoller w' = botPoller w
  /\ botMaster w' = botMaster w
  /\ timers w' = timers w
  /\ inflight w' = inflight w.
Proof.
  cbv zeta. split; [reflexivity |].
  exact (proj2 (proj2 (loop_aborts_without_identity Sample.offline None
                         Sample.quiet_hook
                         (boot Demo.master_poller Demo.master tt)
                         (HostError "network") eq_refl eq_refl))).
Defined.

Lemma loop_identity_before_polling_witness :
  let w := boot Demo.master_poller Demo.master tt in
  let w' := run (loop Demo.endless Sample.quiet_hook None) w in
  fst (api_getMe Demo.endless (ext w)) = Fulfilled (mkMe 7 "azbot")
  /\ botID (botMaster w') = Some 7
  /\ botName (botMaster w') = Some "azbot"
  /\ isPolling (botPoller w') = false
  /\ isPolling (botPoller (event Demo.endless Skipped w')) = true.
Proof.
  cbv zeta. split; [reflexivity |].
  pose proof (loop_identity_before_polling Demo.endless Sample.quiet_hook None
                (boot Demo.master_poller Demo.master tt) (mkMe 7 "azbot")
                eq_refl eq_refl) as H.
  cbv zeta in H.
  destruct H as (_ & H1 & H2 & _ & _ & _ & H3 & H4).
  split; [exact H1 |]. split; [exact H2 |].
  split; [exact (proj1 H3) | exact (H4 eq_refl)].
Defined.

(** ** BotMaster.onUpdates: the loop over the batch *)

Section Dispatch.
Context {E : Type} (host : Host E).

Lemma processed_app (l1 l2 : list Effect) :
  processed (l1 ++ l2) = processed l1 ++ processed l2.
Proof. apply flat_map_app. Qed.

(** One turn of the loop hands its update to [processUpdate] once, or
    throws before it gets there. *)
Lemma on_update_processed (update : Update) (w : World E) :
  exists evs,
    trace (snd (on_update host update w)) = trace w ++ evs
    /\ match fst (on_update host update w) with
       | Fulfilled _ => processed evs = [update]
       | Rejected _ => processed evs = [update] \/ processed evs = []
       end.
Proof.
  unfold on_update, create, process, set_bots, log, await, awaiting, invoke.
  js_unfold. cbn -[Obj.is_inherited].
  destruct (Obj.get (bots (botMaster w)) (identify host update)) as [bot |] eqn:Hg;
    cbn -[Obj.is_inherited].
  - rewrite ?Hg.
    destruct (servant_processUpdate host) as [f |]; cbn.
    + destruct (f (instance bot) update (ext w)) as [[[] | error] e1]; cbn;
        eexists; (split; [reflexivity |]); cbn; auto.
    + exists []. rewrite app_nil_r. cbn. auto.
  - destruct (Obj.is_inherited (identify host update)); cbn.
    + rewrite ?Hg. exists []. rewrite app_nil_r. cbn. auto.
    + destruct (servant_onCreate host) as [c |]; cbn.
      * destruct (c _ (ext w)) as [[[] | error] e1]; cbn.
        -- rewrite get_set, String.eqb_refl.
           destruct (servant_processUpdate host) as [f |]; cbn.
           ++ destruct (f _ update e1) as [[[] | error] e2]; cbn;
                eexists; (split; [rewrite <- !app_assoc; reflexivity |]);
                cbn; auto.
           ++ eexists. split; [rewrite <- !app_assoc; reflexivity |].
              cbn. auto.
        -- eexists. split; [rewrite <- !app_assoc; reflexivity |].
           cbn. auto.
      * rewrite get_set, String.eqb_refl.
        destruct (servant_processUpdate host) as [f |]; cbn.
        -- destruct (f _ update (ext w)) as [[[] | error] e2]; cbn;
             eexists; (split; [rewrite <- !app_assoc; reflexivity |]);
             cbn; auto.
        -- eexists. split; [rewrite <- !app_assoc; reflexivity |].
           cbn. auto.
Qed.

(** X11. The loop of [onUpdates] hands the updates of the batch to
    [processUpdate] in the order of the batch, each one once and none
    skipped; it stops at the first turn that throws, so what was handed
    over is a prefix of the batch, and the whole batch when the loop
    completes. *)
Theorem dispatch_in_batch_order (updates : list Update) (w : World E) :
  exists rest,
    updates = processed (emitted w (run (dispatch host updates) w)) ++ rest
    /\ (fst (dispatch host updates w) = Fulfilled tt -> rest = []).
Proof.
  assert (H : exists evs rest,
             trace (snd (dispatch host updates w)) = trace w ++ evs
             /\ updates = processed evs ++ rest
             /\ (fst (dispatch host updates w) = Fulfilled tt -> rest = [])).
  { revert w. induction updates as [| update updates IH]; intro w.
    - exists [], []. cbn. rewrite app_nil_r. now repeat split.
    - cbn [dispatch]. unfold bind.
      destruct (on_update_processed update w) as (evs1 & Ht1 & Hp1).
      destruct (on_update host update w) as [[[] | error] w1]; cbn [fst snd] in *.
      + destruct (IH w1) as (evs2 & rest & Ht2 & Hu & Hr).
        exists (evs1 ++ evs2), rest. rewrite Ht2, Ht1, app_assoc, processed_app, Hp1.
        split; [reflexivity |]. split; [cbn; now f_equal | exact Hr].
      + destruct Hp1 as [Hp1 | Hp1].
        * exists evs1, updates. rewrite Hp1.
          split; [exact Ht1 |]. split; [reflexivity | discriminate].
        * exists evs1, (update :: updates). rewrite Hp1.
          split; [exact Ht1 |]. split; [reflexivity | discriminate]. }
  destruct H as (evs & rest & Ht & Hu & Hr).
  exists rest. unfold run. rewrite (emitted_app _ _ _ Ht).
  split; [exact Hu | exact Hr].
Qed.

End Dispatch.

(** ** Shutdown with a servant that throws *)

Section Teardown.
Context {E : Type} (host : Host E).

(** The loop of [cleanup] over the sessions: what it emits, and that it
    completes only if no [onRemove] threw. *)
Lemma remove_all_outcome (entries : list (string * Bot)) (w : World E) :
  exists evs,
    trace (snd (remove_all host entries w)) = trace w ++ evs
    /\ forallb teardown_effect evs = true
    /\ (fst (remove_all host entries w) = Fulfilled tt ->
        forall i, ~ In (Settle (OnRemove i) false) evs).
Proof.
  revert w. induction entries as [| [identifier bot] rest IH]; intro w.
  - exists []. cbn. rewrite app_nil_r. repeat split. intros _ i [].
  - cbn [remove_all]. unfold await, awaiting, set_bots. js_unfold. cbn.
    destruct (servant_onRemove host) as [f |]; cbn.
    + destruct (f (instance bot) (ext w)) as [[[] | error] e1]; cbn.
      * match goal with
        | |- context [remove_all host rest ?w1] =>
            destruct (IH w1) as (evs & Ht & Hall & Hok)
        end.
        cbn in Ht. eexists.
        split; [rewrite Ht, <- !app_assoc; reflexivity |]. split.
        -- cbn. exact Hall.
        -- intros Hf i Hin. cbn in Hin.
           destruct Hin as [Hin | [Hin | [Hin | Hin]]]; try discriminate.
           exact (Hok Hf i Hin).
      * eexists. split; [rewrite <- !app_assoc; reflexivity |].
        split; [reflexivity | discriminate].
    + match goal with
      | |- context [remove_all host rest ?w1] =>
          destruct (IH w1) as (evs & Ht & Hall & Hok)
      end.
      cbn in Ht. eexists.
      split; [rewrite Ht, <- !app_assoc; reflexivity |]. split.
      * cbn. exact Hall.
      * intros Hf i Hin. cbn in Hin.
        destruct Hin as [Hin | Hin]; try discriminate.
        exact (Hok Hf i Hin).
Qed.

Lemma teardown_no_exit (evs : list Effect) :
  forallb teardown_effect evs = true ->
  stop_hook_calls evs = O /\ shutdown_runs evs = O.
Proof.
  unfold stop_hook_calls, shutdown_runs.
  induction evs as [| e evs IH]; [now split |]. cbn [forallb filter].
  intros H. apply andb_prop in H. destruct H as [He Hevs].
  destruct (IH Hevs) as [IH1 IH2].
  destruct e as [[] | [] | | | | | | |]; try discriminate; now split.
Qed.

(** X12. An [onRemove] that throws during shutdown ends the shutdown:
    [cleanup] rejects, the exit is not logged and the stop hook is not
    called.  The poller was stopped before, and stays stopped. *)
Theorem cleanup_stops_at_throwing_onRemove
        (stopCallback : option (HostFn E unit)) (w : World E) (i : Instance) :
  let w' := run (cleanup host stopCallback) w in
  In (Settle (OnRemove i) false) (emitted w w') ->
  (exists error, fst (cleanup host stopCallback w) = Rejected error)
  /\ stop_hook_calls (emitted w w') = O
  /\ shutdown_runs (emitted w w') = O
  /\ isPolling (botPoller w') = false.
Proof.
  cbv zeta. intros Hin.
  assert (Hp : isPolling (botPoller (run (cleanup host stopCallback) w)) = false)
    by apply (cleanup_schedule host).
  cut ((exists error, fst (cleanup host stopCallback w) = Rejected error)
       /\ stop_hook_calls (emitted w (run (cleanup host stopCallback) w)) = O
       /\ shutdown_runs (emitted w (run (cleanup host stopCallback) w)) = O).
  { intros (H1 & H2 & H3). now repeat split. }
  clear Hp. revert Hin.
  unfold run, cleanup, stopPollUpdates, set_isPolling, call_stopCallback, log,
    await, awaiting.
  js_unfold. cbn.
  destruct (isPolling (botPoller w)); cbn;
    match goal with
    | |- context [remove_all host ?es ?w1] =>
        destruct (remove_all_outcome es w1) as (evs & Ht & Hall & Hok);
        destruct (remove_all host es w1) as [[[] | err] w2]
    end; cbn in *;
    try (destruct stopCallback as [f |]; cbn;
         [destruct (f (ext w2)) as [[[] | err'] e1]; cbn |]);
    match goal with
    | |- In _ (emitted ?w0 ?wf) -> _ =>
        let Hem := fresh "Hem" in
        eassert (Hem : emitted w0 wf = _)
          by (apply emitted_app; cbn; rewrite Ht, <- ?app_assoc; reflexivity);
        rewrite Hem; clear Hem; intro Hin
    end;
    try (exfalso; in_cases; try discriminate; exact (Hok eq_refl i Hin));
    destruct (teardown_no_exit evs Hall) as [H1 H2];
    (split; [eexists; reflexivity |]);
    unfold stop_hook_calls, shutdown_runs in *;
    rewrite ?filter_app, ?length_app, ?H1, ?H2, ?app_nil_r; cbn;
    rewrite ?H1, ?H2; now split.
Qed.

End Teardown.

Lemma cleanup_stops_at_throwing_onRemove_witness :
  let w' := run (cleanup Sample.stubborn Sample.quiet_hook) Sample.one_session in
  In (Settle (OnRemove (mkInstance 0 "7")) false) (emitted Sample.one_session w')
  /\ stop_hook_calls (emitted Sample.one_session w') = O
  /\ bots (botMaster w') = [("7", Demo.session7)].
Proof.
  cbv zeta.
  assert (Hin : In (Settle (OnRemove (mkInstance 0 "7")) false)
                  (emitted Sample.one_session
                     (run (cleanup Sample.stubborn Sample.quiet_hook)
                        Sample.one_session))).
  { vm_compute. tauto. }
  split; [exact Hin |]. split; [| reflexivity].
  exact (proj1 (proj2 (cleanup_stops_at_throwing_onRemove Sample.stubborn
                         Sample.quiet_hook Sample.one_session _ Hin))).
Defined.

(** ** Identifiers that name a member of Object.prototype *)

Section Inherited.
Context {E : Type} (host : Host E).

(** No turn of the loop gives the registry an own property named like a
    member of [Object.prototype]. *)
Lemma on_update_absent (k : string) (update : Update) (w : World E) :
  Obj.is_inherited k = true ->
  Obj.get (bots (botMaster w)) k = None ->
  Obj.get (bots (botMaster (snd (on_update host update w)))) k = None.
Proof.
  intros Hk Hnone.
  unfold on_update, create, process, set_bots, log, await, awaiting, invoke.
  js_unfold. cbn -[Obj.is_inherited].
  destruct (Obj.get (bots (botMaster w)) (identify host update)) as [bot |] eqn:Hg;
    cbn -[Obj.is_inherited].
  - assert (Hne : String.eqb k (identify host update) = false).
    { destruct (String.eqb_spec k (identify host update)); [| reflexivity].
      subst k. congruence. }
    destruct (servant_processUpdate host) as [f |]; cbn; rewrite ?Hg; cbn;
      [| exact Hnone].
    destruct (f (instance bot) update (ext w)) as [[[] | error] e1]; cbn;
      rewrite ?get_set, ?Hne; exact Hnone.
  - destruct (Obj.is_inherited (identify host update)) eqn:Hi;
      cbn -[Obj.is_inherited].
    + rewrite ?Hg. exact Hnone.
    + assert (Hne : String.eqb k (identify host update) = false).
      { destruct (String.eqb_spec k (identify host update)); [| reflexivity].
        subst k. congruence. }
      destruct (servant_onCreate host) as [c |]; cbn.
      * destruct (c _ (ext w)) as [[[] | error] e1]; cbn.
        -- rewrite get_set, String.eqb_refl.
           destruct (servant_processUpdate host) as [f |]; cbn.
           ++ destruct (f _ update e1) as [[[] | error] e2]; cbn;
                rewrite ?get_set, ?Hne; exact Hnone.
           ++ rewrite ?get_set, ?Hne; exact Hnone.
        -- rewrite ?get_set, ?Hne; exact Hnone.
      * rewrite get_set, String.eqb_refl.
        destruct (servant_processUpdate host) as [f |]; cbn.
        -- destruct (f _ update (ext w)) as [[[] | error] e2]; cbn;
             rewrite ?get_set, ?Hne; exact Hnone.
        -- rewrite ?get_set, ?Hne; exact Hnone.
Qed.

(** The turn for an update with such an identifier throws at once. *)
Lemma on_update_inherited (update : Update) (w : World E) :
  Obj.is_inherited (identify host update) = true ->
  Obj.get (bots (botMaster w)) (identify host update) = None ->
  on_update host update w
  = (Rejected (TypeError "Cannot read properties of undefined"), w).
Proof.
  intros Hi Hnone. unfold on_update, process. js_unfold.
  cbn -[Obj.is_inherited]. rewrite Hnone, Hi. cbn. now rewrite Hnone.
Qed.

Lemma dispatch_inherited (updates : list Update) (update : Update) (w : World E) :
  In update updates ->
  Obj.is_inherited (identify host update) = true ->
  Obj.get (bots (botMaster w)) (identify host update) = None ->
  (exists error, fst (dispatch host updates w) = Rejected error)
  /\ Obj.get (bots (botMaster (snd (dispatch host updates w))))
             (identify host update) = None.
Proof.
  intros Hin Hi. revert w Hin.
  induction updates as [| first rest IH]; intros w Hin Hnone; [destruct Hin |].
  cbn [dispatch]. unfold bind.
  destruct Hin as [-> | Hin].
  - rewrite (on_update_inherited update w Hi Hnone). cbn.
    split; [eexists; reflexivity | exact Hnone].
  - pose proof (on_update_absent _ first w Hi Hnone) as Habs.
    destruct (on_update host first w) as [[[] | error] w1]; cbn [fst snd] in *.
    + now apply IH.
    + split; [eexists; reflexivity | exact Habs].
Qed.

(** X13. An update whose identifier is the name of a member of
    [Object.prototype] (["constructor"], ["toString"], ...) cannot be
    served: [this.bots[identifier] == null] is false for it, so no session
    is created, and reading ["instance"] of what is found throws.  A batch
    that holds such an update makes [onUpdates] reject, and the registry
    never gets a session of that name. *)
Theorem inherited_identifier_rejects
        (updates : list Update) (update : Update) (w : World E) :
  In update updates ->
  Obj.is_inherited (identify host update) = true ->
  Obj.get (bots (botMaster w)) (identify host update) = None ->
  (exists error, fst (onUpdates host updates w) = Rejected error)
  /\ Obj.get (bots (botMaster (run (onUpdates host updates) w)))
             (identify host update) = None.
Proof.
  intros Hin Hi Hnone.
  destruct (dispatch_inherited updates update w Hin Hi Hnone)
    as [[error Herr] Habs].
  unfold run, onUpdates, bind.
  destruct (dispatch host updates w) as [r w1]. cbn [fst snd] in *. subst r.
  cbn. split; [eexists; reflexivity | exact Habs].
Qed.

End Inherited.

Lemma inherited_identifier_rejects_witness :
  let updates := [Sample.says 5 "hello"; Sample.says 6 "constructor"] in
  let w := boot Demo.master_poller Demo.master tt in
  In (Sample.says 6 "constructor") updates
  /\ Obj.is_inherited (identify Sample.by_text (Sample.says 6 "constructor")) = true
  /\ fst (onUpdates Sample.by_text updates w)
     = Rejected (TypeError "Cannot read properties of undefined")
  /\ Obj.get (bots (botMaster (run (onUpdates Sample.by_text updates) w)))
             "constructor" = None.
Proof.
  cbv zeta.
  assert (Hin : In (Sample.says 6 "constructor")
                  [Sample.says 5 "hello"; Sample.says 6 "constructor"])
    by (right; left; reflexivity).
  split; [exact Hin |]. split; [reflexivity |]. split; [reflexivity |].
  exact (proj2 (inherited_identifier_rejects Sample.by_text _ _
                  (boot Demo.master_poller Demo.master tt)
                  Hin eq_refl eq_refl)).
Defined.

(** ** bot-utils.js: identifiers *)

Lemma to_int_printable (n : Z) :
  Z.to_int n <> Decimal.Pos Decimal.Nil /\ Z.to_int n <> Decimal.Neg Decimal.Nil.
Proof.
  destruct n; cbn; split; try discriminate; intro H; injection H;
    apply Unsigned.to_uint_nonnil.
Qed.

(** Numbers that differ are written differently. *)
Lemma template_inj (n m : Z) : template n = template m -> n = m.
Proof.
  unfold template. intros H. apply to_int_inj.
  destruct (to_int_printable n), (to_int_printable m).
  apply (f_equal NilZero.int_of_string) in H.
  rewrite !NilZero.isi in H by assumption. congruence.
Qed.

Lemma perFromID_template (update : Update) :
  perFromID update = template (sender update).
Proof.
  unfold perFromID, sender.
  destruct (message update) as [m |]; [destruct (from_id m) |]; reflexivity.
Qed.

Lemma perChatID_template (update : Update) :
  perChatID update = template (chat update).
Proof.
  unfold perChatID, chat.
  destruct (message update) as [m |]; [destruct (chat_id m) |]; reflexivity.
Qed.

(** X14. [perFromID] gives two updates the same identifier exactly when
    they have the same sender, and [perChatID] exactly when they have the
    same chat, where an update without a message, a sender or a chat counts
    as one of sender (chat) [0]: sessions of different users never share an
    identifier, and every malformed update lands in the session ["0"]. *)
Theorem identifiers_separate_senders (u v : Update) :
  (perFromID u = perFromID v <-> sender u = sender v)
  /\ (perChatID u = perChatID v <-> chat u = chat v)
  /\ (message u = None -> perFromID u = "0" /\ perChatID u = "0").
Proof.
  rewrite !perFromID_template, !perChatID_template.
  split; [| split].
  - split; [apply template_inj | congruence].
  - split; [apply template_inj | congruence].
  - unfold sender, chat. intros ->. now split.
Qed.

(** ** bot-utils.js: snake_case *)

Lemma is_upper_to_lower (a : ascii) : is_upper (to_lower a) = false.
Proof. destruct a as [[] [] [] [] [] [] [] []]; reflexivity. Qed.


Lemma to_lower_fixed (a : ascii) : is_upper a = false -> to_lower a = a.
Proof. unfold to_lower. now intros ->. Qed.



Lemma underscore_upper_no_upper (matching : bool) (s : string) :
  no_upper (underscore_upper matching s) = true.
Proof.
  revert matching. induction s as [| a s IH]; intro matching; [reflexivity |].
  cbn [underscore_upper]. destruct (is_upper a) eqn:Ha.
  - destruct matching; cbn [no_upper]; rewrite is_upper_to_lower, IH; reflexivity.
  - cbn [no_upper]. now rewrite Ha, IH.
Qed.

Lemma no_upper_fixed (s : string) :
  no_upper s = true ->
  lower_head s = s
  /\ (forall matching, lower_after_underscore matching s = s)
  /\ (forall matching, underscore_upper matching s = s).
Proof.
  induction s as [| a s IH]; [now repeat split |].
  cbn [no_upper]. intros H. apply andb_prop in H. destruct H as [Ha Hs].
  apply negb_true_iff in Ha. destruct (IH Hs) as (_ & IH2 & IH3).
  cbn [lower_head lower_after_underscore underscore_upper]. rewrite Ha.
  split; [reflexivity |]. split; intro matching; now rewrite ?IH2, ?IH3.
Qed.

(** X15. The result of [toSnakeCase] holds no ASCII capital, whatever
    the input. *)
Theorem toSnakeCase_no_capitals (s : string) : no_upper (toSnakeCase s) = true.
Proof. apply underscore_upper_no_upper. Qed.

(** X16. [toSnakeCase] leaves a name without capitals as it is: the
    option names [offset] and [timeout] reach the server unchanged. *)
Theorem toSnakeCase_keeps_snake_case (s : string) :
  no_upper s = true -> toSnakeCase s = s.
Proof.
  intros H. destruct (no_upper_fixed s H) as (H1 & H2 & H3).
  unfold toSnakeCase. now rewrite H1, H2, H3.
Qed.

Lemma toSnakeCase_keeps_snake_case_witness :
  no_upper "allowed_updates" = true
  /\ toSnakeCase "allowed_updates" = "allowed_updates".
Proof.
  split; [reflexivity |].
  exact (toSnakeCase_keeps_snake_case "allowed_updates" eq_refl).
Defined.

(** X17. [toSnakeCase] is idempotent. *)
Theorem toSnakeCase_idempotent (s : string) :
  toSnakeCase (toSnakeCase s) = toSnakeCase s.
Proof.
  destruct (no_upper_fixed _ (underscore_upper_no_upper false
              (lower_after_underscore false (lower_head s)))) as (H1 & H2 & H3).
  unfold toSnakeCase at 1. fold (toSnakeCase s) in *. now rewrite H1, H2, H3.
Qed.





(** ** bot-utils.js: toSnakeCaseObject *)

Lemma JValue_nested_ind (P : JValue -> Prop) :
  (forall p, P (JPrim p)) ->
  (forall props, Forall (fun kv => P (snd kv)) props -> P (JObject props)) ->
  forall v, P v.
Proof.
  intros Hp Ho. fix IH 1. intros [p | props]; [apply Hp | apply Ho].
  induction props as [| kv rest IHr]; constructor; [apply IH | exact IHr].
Qed.

Section EntriesOfMap.
Context {V W : Type} (f : V -> W).

Let g (kv : string * V) : string * W := (fst kv, f (snd kv)).

Lemma insert_index_map (n : N) (kv : string * V) (l : list (N * (string * V))) :
  Obj.insert_index n (g kv) (map (fun x => (fst x, g (snd x))) l)
  = map (fun x => (fst x, g (snd x))) (Obj.insert_index n kv l).
Proof.
  induction l as [| [m kv'] l IH]; [reflexivity |]. cbn.
  destruct (n <=? m)%N; [reflexivity |]. cbn. now rewrite IH.
Qed.

(** [Object.entries] looks at the names only: converting the values
    before or after it is the same. *)
Lemma entries_map (o : list (string * V)) :
  Obj.entries (map g o) = map g (Obj.entries o).
Proof.
  unfold Obj.entries. rewrite map_app, map_map. f_equal.
  - assert (H : Obj.index_part (map g o)
                = map (fun x => (fst x, g (snd x))) (Obj.index_part o)).
    { induction o as [| kv o IH]; [reflexivity |]. cbn.
      destruct (Obj.array_index (fst kv)); [| exact IH].
      now rewrite IH, insert_index_map. }
    rewrite H, map_map. reflexivity.
  - induction o as [| kv o IH]; [reflexivity |]. cbn.
    destruct (Obj.array_index (fst kv)); [exact IH |]. cbn. now rewrite IH.
Qed.
End EntriesOfMap.

Lemma find_app_last (A : Type) (p : A -> bool) (l : list A) (a : A) :
  find p (l ++ [a])
  = match find p l with
    | Some x => Some x
    | None => if p a then Some a else None
    end.
Proof.
  induction l as [| b l IH]; [reflexivity |]. cbn.
  destruct (p b); [reflexivity | exact IH].
Qed.

(** A property of the result of the loop is the value of the last entry
    whose name converts to it, or what [result] held before. *)
Lemma get_assign (result entries : list (string * JValue)) (k : string) :
  k <> "__proto__" ->
  Obj.get (assign result entries) k
  = match last_named k entries with
    | Some v => Some v
    | None => Obj.get result k
    end.
Proof.
  intros Hk. revert result.
  induction entries as [| entry entries IH]; intro result; [reflexivity |].
  unfold assign in *. cbn [fold_left]. rewrite IH.
  unfold last_named. cbn [rev]. rewrite find_app_last.
  destruct (find _ (rev entries)) as [x |]; [reflexivity |]. cbn [option_map].
  destruct (String.eqb_spec (toSnakeCase (fst entry)) "__proto__") as [Hp | Hp].
  - destruct (String.eqb_spec (toSnakeCase (fst entry)) k); [congruence |].
    reflexivity.
  - rewrite get_set, String.eqb_sym.
    now destruct (String.eqb (toSnakeCase (fst entry)) k).
Qed.

(** The loop gives [result] no property named [__proto__]. *)
Lemma get_assign_proto (result entries : list (string * JValue)) :
  Obj.get (assign result entries) "__proto__" = Obj.get result "__proto__".
Proof.
  revert result. induction entries as [| entry entries IH]; intro result;
    [reflexivity |].
  unfold assign in *. cbn [fold_left]. rewrite IH.
  destruct (String.eqb_spec (toSnakeCase (fst entry)) "__proto__") as [Hp | Hp];
    [reflexivity |].
  rewrite get_set.
  destruct (String.eqb_spec "__proto__" (toSnakeCase (fst entry)));
    [congruence | reflexivity].
Qed.

Lemma assign_app (result es1 es2 : list (string * JValue)) :
  assign result (es1 ++ es2) = assign (assign result es1) es2.
Proof. apply fold_left_app. Qed.

Lemma last_named_map (k : string) (entries : list (string * JValue)) :
  last_named k (map (fun kv => (fst kv, snake_value (snd kv))) entries)
  = option_map snake_value (last_named k entries).
Proof.
  unfold last_named. rewrite <- map_rev.
  induction (rev entries) as [| entry l IH]; [reflexivity |].
  cbn [map find fst snd].
  destruct (String.eqb (toSnakeCase (fst entry)) k); [reflexivity | exact IH].
Qed.

(** The loops of [toSnakeCaseObject] as one loop over all the entries. *)
Lemma toSnakeCaseObject_assign (objects : list (list (string * JValue))) :
  toSnakeCaseObject objects
  = assign [] (map (fun kv => (fst kv, snake_value (snd kv)))
                   (all_entries objects)).
Proof.
  unfold toSnakeCaseObject, all_entries. generalize (@nil (string * JValue)).
  induction objects as [| object objects IH]; intro result; [reflexivity |].
  cbn [fold_left flat_map]. rewrite IH, map_app, assign_app, entries_map.
  reflexivity.
Qed.

Lemma toSnakeCaseObject_get (objects : list (list (string * JValue)))
      (k : string) :
  Obj.get (toSnakeCaseObject objects) k
  = if String.eqb k "__proto__" then None
    else option_map snake_value (last_named k (all_entries objects)).
Proof.
  rewrite toSnakeCaseObject_assign.
  destruct (String.eqb_spec k "__proto__") as [-> | Hk].
  - now rewrite get_assign_proto.
  - rewrite get_assign, last_named_map by exact Hk.
    now destruct (last_named k (all_entries objects)).
Qed.

(** X19. What [toSnakeCaseObject] returns under a name [k]: the value of
    the last entry, over all the objects given and in the order of
    [Object.entries], whose name converts to [k], itself converted if it is
    an object; and nothing if no name converts to [k].  So a later object
    overrides an earlier one, and of two spellings of one option
    ([chatId], [chat_id]) the one enumerated last wins.  The result never
    has a property [__proto__] of its own. *)
Theorem toSnakeCaseObject_last_wins (objects : list (list (string * JValue)))
        (k : string) :
  Obj.get (toSnakeCaseObject objects) k
  = if String.eqb k "__proto__" then None
    else option_map snake_value (last_named k (all_entries objects)).
Proof. apply toSnakeCaseObject_get. Qed.

Lemma set_Forall (Q : string * JValue -> Prop) (o : list (string * JValue))
      (k : string) (v : JValue) :
  Forall Q o -> (forall k', String.eqb k k' = true -> Q (k', v)) ->
  Forall Q (Obj.set o k v).
Proof.
  intros Ho Hk. induction Ho as [| [k' v'] o Hhd Htl IH]; cbn.
  - constructor; [apply Hk, String.eqb_refl | constructor].
  - destruct (String.eqb k k') eqn:He; constructor; auto.
Qed.

Lemma assign_snake_keys (result entries : list (string * JValue)) :
  Forall (fun kv => no_upper (fst kv) = true /\ snake_keys (snd kv)) result ->
  Forall (fun kv => snake_keys (snd kv)) entries ->
  Forall (fun kv => no_upper (fst kv) = true /\ snake_keys (snd kv))
         (assign result entries).
Proof.
  intros Hr He. revert result Hr.
  induction He as [| entry entries Hhd Htl IH]; intros result Hr; [exact Hr |].
  unfold assign in *. cbn [fold_left]. apply IH.
  destruct (String.eqb (toSnakeCase (fst entry)) "__proto__"); [exact Hr |].
  apply set_Forall; [exact Hr |].
  intros k' Hk. apply String.eqb_eq in Hk. subst k'. cbn.
  split; [apply underscore_upper_no_upper | exact Hhd].
Qed.

Lemma snake_value_keys (v : JValue) : snake_keys (snake_value v).
Proof.
  induction v as [p | props IH] using JValue_nested_ind; cbn [snake_value].
  - constructor.
  - constructor. apply assign_snake_keys; [constructor |].
    rewrite entries_map. apply Forall_map. cbn [snd].
    apply (Permutation_Forall (Permutation_sym (entries_perm props))).
    exact IH.
Qed.

(** X20. Every property name of the result of [toSnakeCaseObject], at
    every depth, is free of ASCII capitals, whatever was passed. *)
Theorem toSnakeCaseObject_deep (objects : list (list (string * JValue))) :
  snake_keys (JObject (toSnakeCaseObject objects)).
Proof.
  constructor. rewrite toSnakeCaseObject_assign.
  apply assign_snake_keys; [constructor |].
  apply Forall_map. cbn [snd]. apply Forall_forall. intros kv _.
  apply snake_value_keys.
Qed.

Lemma get_None_iff {V : Type} (o : list (string * V)) (k : string) :
  Obj.get o k = None <-> ~ In k (Obj.keys o).
Proof.
  unfold Obj.keys. induction o as [| [k' v] o IH]; cbn; [tauto |].
  destruct (String.eqb_spec k k') as [-> | Hk].
  - split; [discriminate | intros H; exfalso; apply H; now left].
  - rewrite IH. split; [intros H [Heq | Hin]; [congruence | tauto] | tauto].
Qed.

(** X21. An object whose names are free of capitals comes through
    [toSnakeCaseObject] with the same properties: each name other than
    [__proto__] holds what it held, converted in turn if it is an object.
    The polling parameters [offset] and [timeout] of [getUpdates] reach
    the server as the poller holds them. *)
Theorem toSnakeCaseObject_keeps_snake_names
        (object : list (string * JValue)) (k : string) :
  NoDup (Obj.keys object) ->
  Forall (fun kv => no_upper (fst kv) = true) object ->
  k <> "__proto__" ->
  Obj.get (toSnakeCaseObject [object]) k
  = option_map snake_value (Obj.get object k).
Proof.
  intros Hnd Hall Hk. rewrite toSnakeCaseObject_get.
  destruct (String.eqb_spec k "__proto__"); [contradiction |]. f_equal.
  unfold all_entries, last_named. cbn [flat_map]. rewrite app_nil_r.
  assert (Hperm : Permutation (rev (Obj.entries object)) object).
  { rewrite <- (entries_perm object) at 2. symmetry. apply Permutation_rev. }
  destruct (find _ (rev (Obj.entries object))) as [[k' v] |] eqn:Hf.
  - apply find_some in Hf. destruct Hf as [Hin Hk']. cbn [fst] in Hk'.
    apply (Permutation_in _ Hperm) in Hin.
    pose proof (proj1 (Forall_forall _ _) Hall _ Hin) as Hno. cbn [fst] in Hno.
    destruct (no_upper_fixed k' Hno) as (H1 & H2 & H3).
    unfold toSnakeCase in Hk'. rewrite H1, H2, H3 in Hk'.
    apply String.eqb_eq in Hk'. subst k'. cbn.
    symmetry. now apply NoDup_In_get.
  - cbn. symmetry. apply get_None_iff. intros Hin.
    apply in_map_iff in Hin. destruct Hin as ([k' v] & Hk' & Hin).
    cbn [fst] in Hk'. subst k'.
    apply (Permutation_in _ (Permutation_sym Hperm)) in Hin.
    pose proof (find_none _ _ Hf _ Hin) as Hno. cbn [fst] in Hno.
    pose proof (proj1 (Forall_forall _ _) Hall _
                  (Permutation_in _ Hperm Hin)) as Hup. cbn [fst] in Hup.
    destruct (no_upper_fixed k Hup) as (H1 & H2 & H3).
    unfold toSnakeCase in Hno. rewrite H1, H2, H3, String.eqb_refl in Hno.
    discriminate.
Qed.

Lemma toSnakeCaseObject_keeps_snake_names_witness :
  let pollingParam := [("offset", JPrim (PNumber 7));
                       ("timeout", JPrim (PNumber 1))] in
  NoDup (Obj.keys pollingParam)
  /\ Forall (fun kv => no_upper (fst kv) = true) pollingParam
  /\ Obj.get (toSnakeCaseObject [pollingParam]) "offset"
     = Some (JPrim (PNumber 7)).
Proof.
  cbv zeta.
  assert (Hnd : NoDup (Obj.keys [("offset", JPrim (PNumber 7));
                                 ("timeout", JPrim (PNumber 1))])).
  { repeat constructor; cbn; intuition discriminate. }
  assert (Hall : Forall (fun kv => no_upper (fst kv) = true)
                   [("offset", JPrim (PNumber 7));
                    ("timeout", JPrim (PNumber 1))])
    by (repeat constructor).
  split; [exact Hnd |]. split; [exact Hall |].
  assert (Hk : "offset" <> "__proto__") by discriminate.
  exact (toSnakeCaseObject_keeps_snake_names _ "offset" Hnd Hall Hk).
Defined.

(** ** From the constructors to the event loop *)

Section Boot.
Context {E : Type} (host : Host E).

Lemma tidy_empty (w : World E) : timers w = [] -> inflight w = O -> tidy w.
Proof.
  intros Ht Hi. split; rewrite ?Ht, ?Hi; [cbn; lia | intros t [] | reflexivity].
Qed.

(** The call of [startPollUpdates] on a heap with nothing pending leaves
    one start waiting, or one cycle in flight. *)
Lemma call_tidy (w : World E) :
  timers w = [] -> inflight w = O -> starting w = [] ->
  tidy (run startPollUpdates w) /\ one_start (run startPollUpdates w).
Proof.
  intros Ht Hi Hs.
  destruct (startPollUpdates_returns host w) as (_ & _ & Htm & Hcase).
  cbv zeta in Hcase. rewrite Ht in Htm.
  destruct (waits_for_skip (botPoller w)).
  - destruct Hcase as (_ & _ & _ & Hst & Hfl). rewrite Hi in Hfl.
    split; [now apply tidy_empty |].
    right. rewrite Hst, Hs. now repeat split.
  - destruct Hcase as (_ & Hp & _ & Hst & Hfl). rewrite Hi in Hfl.
    split; [| left; now rewrite Hst].
    split; rewrite ?Htm, ?Hfl.
    + destruct (isPolling (botPoller w)); cbn; lia.
    + intros t [].
    + reflexivity.
Qed.

(** [loop] on a heap with nothing pending leaves at most the one start it
    issued, waiting or with its first cycle in flight. *)
Lemma loop_tidy (startCallback stopCallback : option (HostFn E unit))
      (w : World E) :
  timers w = [] -> inflight w = O -> starting w = [] ->
  tidy (run (loop host startCallback stopCallback) w)
  /\ one_start (run (loop host startCallback stopCallback) w).
Proof.
  intros Ht Hi Hs.
  unfold run, loop, set_me, call_stopCallback, await, awaiting, log.
  set (tail := bind startPollUpdates (fun _ => ret tt)).
  assert (Hstart : forall w1 : World E,
             timers w1 = [] -> inflight w1 = O -> starting w1 = [] ->
             tidy (snd (tail w1)) /\ one_start (snd (tail w1))).
  { intros w1 H1 H2 H3. pose proof (call_tidy w1 H1 H2 H3) as T.
    unfold run in T. unfold tail, bind, ret.
    destruct (startPollUpdates w1) as [[b | err] w2]; exact T. }
  assert (Hidle : forall w1 : World E,
             timers w1 = [] -> inflight w1 = O -> starting w1 = [] ->
             tidy w1 /\ one_start w1).
  { intros w1 H1 H2 H3. split; [now apply tidy_empty | now left]. }
  clearbody tail. js_unfold.
  destruct startCallback as [f |]; cbn.
  - destruct (f (ext w)) as [[[] | err] e1]; cbn;
      [| now apply Hidle].
    destruct (api_getMe host e1) as [[me | err] e2]; cbn.
    + now apply Hstart.
    + destruct stopCallback as [g |]; cbn;
        [destruct (g e2) as [[[] | err'] e3]; cbn |]; now apply Hidle.
  - destruct (api_getMe host (ext w)) as [[me | err] e2]; cbn.
    + now apply Hstart.
    + destruct stopCallback as [g |]; cbn;
        [destruct (g e2) as [[[] | err'] e3]; cbn |]; now apply Hidle.
Qed.

(** With nothing of the poller pending, nothing the event loop runs
    without a start to resume makes a cycle pending. *)
Lemma tick_idle (t : Tick) (w : World E) :
  inflight w = O -> timers w = [] ->
  inflight (tick host t w) = O /\ timers (tick host t w) = [].
Proof.
  intros Hi Ht. destruct t as [| id | s]; cbn [tick].
  - rewrite Hi. now split.
  - rewrite Ht. cbn. now split.
  - generalize (signal_listeners s (listeners w)). intro l. revert w Hi Ht.
    induction l as [| stopCallback l IH]; intros w Hi Ht; [now split |].
    cbn [fold_left].
    destruct (cleanup_schedule host stopCallback w) as (_ & _ & Hfl & Htm).
    apply IH; [now rewrite Hfl |].
    rewrite Htm, Ht. destruct (isPolling (botPoller w)); [| reflexivity].
    now destruct (pollingID (botPoller w)).
Qed.

(** One event keeps the schedule tidy with at most one start waiting. *)
Lemma event_tidy (ev : Event) (w : World E) :
  tidy w -> one_start w ->
  tidy (event host ev w) /\ one_start (event host ev w).
Proof.
  intros T Hone. destruct ev as [t |].
  - cbn [event]. split; [now apply tick_tidy |].
    destruct Hone as [Hs | (Hlen & Hi & Ht)].
    + left. now rewrite (tick_starting host).
    + right. rewrite (tick_starting host).
      destruct (tick_idle t w Hi Ht) as [Hi' Ht']. now repeat split.
  - destruct Hone as [Hs | (Hlen & Hi & Ht)].
    + rewrite (Skipped_idle host w Hs). split; [exact T | now left].
    + destruct (starting w) as [| p [| q rest]] eqn:Hs; try discriminate.
      destruct (Skipped_resumes host w p [] Hs)
        as (Hp & Hfl & Htm & Hst & _).
      split; [| now left].
      split; rewrite ?Htm, ?Hfl, ?Ht, ?Hi.
      * cbn. lia.
      * intros t [].
      * reflexivity.
Qed.

Lemma events_tidy (es : list Event) (w : World E) :
  tidy w -> one_start w -> tidy (events host es w).
Proof.
  revert w. induction es as [| ev es IH]; intros w T Hone; [exact T |].
  change (events host (ev :: es) w) with (events host es (event host ev w)).
  destruct (event_tidy ev w T Hone) as [T' Hone']. now apply IH.
Qed.

(** X22. A bot started with [loop] on the poller and the master the
    constructors built never has two polling cycles pending: whatever the
    options, the hooks and the server do, and through every run of the
    event loop (the skip fetch of the start settling, cycles resumed,
    timeouts fired, signals received, in any order), at most one cycle is
    in flight or waits as a timeout, and the timeout that waits is the one
    [pollingID] names. *)
Theorem started_bot_has_one_poll_loop
        (p : BotPoller) (m : BotMaster) (e : E)
        (startCallback stopCallback : option (HostFn E unit))
        (es : list Event) :
  tidy (events host es (run (loop host startCallback stopCallback) (boot p m e))).
Proof.
  destruct (loop_tidy startCallback stopCallback (boot p m e))
    as [T Hone]; try reflexivity.
  now apply events_tidy.
Qed.

End Boot.

(** ** The later BotMaster.onUpdates: one reading of the clock *)

Section SetKeys.
Context {V : Type}.

Lemma In_keys_set (o : list (string * V)) (k x : string) (v : V) :
  In x (Obj.keys (Obj.set o k v)) -> In x (Obj.keys o) \/ x = k.
Proof.
  unfold Obj.keys. induction o as [| [k' v'] o IH]; cbn.
  - intros [<- | []]. now right.
  - destruct (String.eqb k k'); cbn; [tauto |].
    intros [<- | H]; [tauto |]. destruct (IH H); tauto.
Qed.

Lemma NoDup_set (o : list (string * V)) (k : string) (v : V) :
  NoDup (Obj.keys o) -> NoDup (Obj.keys (Obj.set o k v)).
Proof.
  induction o as [| [k' v'] o IH]; cbn.
  - intros _. constructor; [intros [] | constructor].
  - intros Hnd. inversion Hnd as [| ? ? Hnot Hrest]; subst.
    destruct (String.eqb_spec k k') as [-> | Hk]; cbn.
    + constructor; assumption.
    + constructor; [| now apply IH].
      intros Hin. apply In_keys_set in Hin. destruct Hin; [tauto | congruence].
Qed.
End SetKeys.

Section LatestSessions.
Context {E : Type} (host : Host E).

Lemma served_set (now : Z) (bs : list (string * Bot)) (k k' : string)
      (i : Instance) (w : World E) :
  bots (botMaster w) = Obj.set bs k' (mkBot now i) ->
  ((exists bot, Obj.get bs k = Some bot /\ lastActiveTime bot = now) \/ k = k') ->
  served now w k.
Proof.
  intros Hb H. unfold served. rewrite Hb, get_set.
  destruct (String.eqb_spec k k') as [-> | Hk].
  - now exists (mkBot now i).
  - destruct H as [H | H]; [exact H | contradiction].
Qed.

(** One turn of the later loop: the session of the update is stamped
    with [now], and the sessions stamped before stay so. *)
Lemma latest_on_update_step (now : Z) (update : Update) (w : World E) :
  let r := Latest.on_update host now update w in
  destroyTimeout (botMaster (snd r)) = destroyTimeout (botMaster w)
  /\ (NoDup (Obj.keys (bots (botMaster w))) ->
      NoDup (Obj.keys (bots (botMaster (snd r)))))
  /\ (fst r = Fulfilled tt ->
      served now (snd r) (identify host update)
      /\ forall k, served now w k -> served now (snd r) k).
Proof.
  cbv zeta.
  unfold Latest.on_update, create, Latest.process, set_bots, log, await,
    awaiting.
  js_unfold. cbn -[Obj.is_inherited].
  destruct (Obj.get (bots (botMaster w)) (identify host update)) as [bot |] eqn:Hg;
    cbn -[Obj.is_inherited].
  - destruct (servant_processUpdate host) as [f |]; cbn; rewrite ?Hg; cbn;
      [| split; [reflexivity |];
             split; [intros Hnd; repeat apply NoDup_set; exact Hnd | discriminate]].
    destruct (f (instance bot) update (ext w)) as [[[] | error] e1]; cbn;
      (split; [reflexivity |]);
      (split; [intros Hnd; repeat apply NoDup_set; exact Hnd |]);
      intros Hf; try discriminate.
    split.
    + eapply served_set; [reflexivity | now right].
    + intros k Hk. eapply served_set; [reflexivity | now left].
  - destruct (Obj.is_inherited (identify host update)) eqn:Hi;
      cbn -[Obj.is_inherited].
    + rewrite ?Hg. split; [reflexivity |];
             split; [intros Hnd; repeat apply NoDup_set; exact Hnd | discriminate].
    + destruct (servant_onCreate host) as [c |]; cbn.
      * destruct (c _ (ext w)) as [[[] | error] e1]; cbn;
          [| split; [reflexivity |];
             split; [intros Hnd; repeat apply NoDup_set; exact Hnd | discriminate]].
        rewrite get_set, String.eqb_refl.
        destruct (servant_processUpdate host) as [f |]; cbn;
          [| split; [reflexivity |];
             split; [intros Hnd; repeat apply NoDup_set; exact Hnd | discriminate]].
        destruct (f _ update e1) as [[[] | error] e2]; cbn;
          (split; [reflexivity |]);
          (split; [intros Hnd; repeat apply NoDup_set; exact Hnd |]);
          intros Hf; try discriminate.
        split.
        -- eapply served_set; [reflexivity | now right].
        -- intros k (b & Hk & Hb). eapply served_set; [reflexivity |].
           destruct (String.eqb_spec k (identify host update)) as [-> | Hne];
             [now right | left].
           exists b. rewrite get_set.
           destruct (String.eqb_spec k (identify host update)); [contradiction |].
           now split.
      * rewrite get_set, String.eqb_refl.
        destruct (servant_processUpdate host) as [f |]; cbn;
          [| split; [reflexivity |];
             split; [intros Hnd; repeat apply NoDup_set; exact Hnd | discriminate]].
        destruct (f _ update (ext w)) as [[[] | error] e2]; cbn;
          (split; [reflexivity |]);
          (split; [intros Hnd; repeat apply NoDup_set; exact Hnd |]);
          intros Hf; try discriminate.
        split.
        -- eapply served_set; [reflexivity | now right].
        -- intros k (b & Hk & Hb). eapply served_set; [reflexivity |].
           destruct (String.eqb_spec k (identify host update)) as [-> | Hne];
             [now right | left].
           exists b. rewrite get_set.
           destruct (String.eqb_spec k (identify host update)); [contradiction |].
           now split.
Qed.

Lemma latest_dispatch_step (now : Z) (updates : list Update) (w : World E) :
  let r := Latest.dispatch host now updates w in
  destroyTimeout (botMaster (snd r)) = destroyTimeout (botMaster w)
  /\ (NoDup (Obj.keys (bots (botMaster w))) ->
      NoDup (Obj.keys (bots (botMaster (snd r)))))
  /\ (fst r = Fulfilled tt ->
      (forall update, In update updates ->
                      served now (snd r) (identify host update))
      /\ forall k, served now w k -> served now (snd r) k).
Proof.
  cbv zeta. revert w. induction updates as [| first rest IH]; intro w.
  - cbn. split; [reflexivity |]. split; [auto |]. intros _.
    split; [intros update [] | auto].
  - cbn [Latest.dispatch]. unfold bind.
    destruct (latest_on_update_step now first w) as (Hd1 & Hn1 & Hs1).
    destruct (Latest.on_update host now first w) as [[[] | error] w1];
      cbn [fst snd] in *;
      [| split; [exact Hd1 | split; [exact Hn1 | discriminate]]].
    destruct (IH w1) as (Hd2 & Hn2 & Hs2).
    destruct (Hs1 eq_refl) as [Hfirst Hkeep1].
    split; [congruence |]. split; [auto |].
    intros Hf. destruct (Hs2 Hf) as [Hrest Hkeep2].
    split; [| auto].
    intros update [<- | Hin]; auto.
Qed.

(** The later sweep deletes the sessions that are idle at [now]. *)
Lemma latest_sweep_entries_bots (now T : Z) (entries : list (string * Bot))
      (w : World E) :
  fst (Latest.sweep_entries host now T entries w) = Fulfilled tt ->
  bots (botMaster (snd (Latest.sweep_entries host now T entries w)))
  = fold_left (fun o kv => if idle T now (snd kv) then Obj.delete o (fst kv)
                           else o)
      entries (bots (botMaster w)).
Proof.
  revert w. induction entries as [| [identifier bot] rest IH]; intro w;
    [reflexivity |].
  cbn [Latest.sweep_entries fold_left fst snd].
  unfold Latest.sweep_one, idle, set_bots, log, await, awaiting.
  js_unfold. cbn.
  destruct (now - lastActiveTime bot >? T); cbn; [| apply IH].
  destruct (servant_onRemove host) as [f |]; cbn.
  - destruct (f (instance bot) (ext w)) as [[[] | error] e1]; cbn;
      [| discriminate].
    intros Hf. now rewrite (IH _ Hf).
  - intros Hf. now rewrite (IH _ Hf).
Qed.

(** X23. The later [onUpdates] reads the clock once per batch, so the
    sweep that ends a batch never evicts a session that an update of this
    batch went to: when [onUpdates] completes on a master whose
    [destroyTimeout] is not negative, every update of the batch has its
    session in the registry, stamped with the time the batch began. *)
Theorem served_sessions_survive (updates : list Update) (w : World E) (T : Z)
        (update : Update) :
  destroyTimeout (botMaster w) = Some T -> 0 <= T ->
  NoDup (Obj.keys (bots (botMaster w))) ->
  fst (Latest.onUpdates host updates w) = Fulfilled tt ->
  In update updates ->
  served (date_now host (ext w)) (run (Latest.onUpdates host updates) w)
         (identify host update).
Proof.
  intros HT Hpos Hnd Hf Hin.
  unfold run, Latest.onUpdates, Latest.sweep in *.
  unfold bind at 1 in Hf. unfold bind at 1. cbn [get_world] in *.
  set (now := date_now host (ext w)) in *.
  unfold bind at 1 in Hf. unfold bind at 1.
  destruct (latest_dispatch_step now updates w) as (Hd & Hn & Hs).
  destruct (Latest.dispatch host now updates w) as [[[] | error] w1];
    cbn [fst snd] in *; [| discriminate].
  destruct (Hs eq_refl) as [Hserved _].
  destruct (Hserved update Hin) as (bot & Hget & Hlast).
  unfold bind, get_world in *. rewrite Hd, HT in *.
  exists bot. split; [| exact Hlast].
  rewrite (latest_sweep_entries_bots _ _ _ _ Hf).
  rewrite (get_fold_delete (idle T now)).
  rewrite (existsb_entry (idle T now) _ _ _ _ (entries_perm _) (Hn Hnd) Hget).
  unfold idle. rewrite Hlast, Z.sub_diag.
  destruct (Z.gtb_spec 0 T); [lia | exact Hget].
Qed.

End LatestSessions.

Lemma served_sessions_survive_witness :
  let w := Demo.registry Demo.default_opts 301001 in
  let updates := [Demo.update 5 7] in
  destroyTimeout (botMaster w) = Some 300000
  /\ fst (Latest.onUpdates Demo.scripted updates w) = Fulfilled tt
  /\ served 301001 (run (Latest.onUpdates Demo.scripted updates) w) "7".
Proof.
  cbv zeta. split; [reflexivity |].
  assert (Hf : fst (Latest.onUpdates Demo.scripted [Demo.update 5 7]
                      (Demo.registry Demo.default_opts 301001))
               = Fulfilled tt) by (vm_compute; reflexivity).
  split; [exact Hf |].
  assert (Hnd : NoDup (Obj.keys (bots (botMaster
                  (Demo.registry Demo.default_opts 301001))))).
  { repeat constructor. intros []. }
  assert (Hpos : 0 <= 300000) by lia.
  exact (served_sessions_survive Demo.scripted [Demo.update 5 7]
           (Demo.registry Demo.default_opts 301001) 300000 (Demo.update 5 7)
           eq_refl Hpos Hnd Hf (or_introl eq_refl)).
Defined.

(** ** bot-utils.js: FormData *)

Section Forms.
Import FormData.

Lemma set_Forall_any {V : Type} (Q : string * V -> Prop)
      (o : list (string * V)) (k : string) (v : V) :
  Forall Q o -> Q (k, v) -> Forall Q (Obj.set o k v).
Proof.
  intros Ho Hk. induction Ho as [| [k' v'] o Hhd Htl IH]; cbn.
  - constructor; [exact Hk | constructor].
  - destruct (String.eqb_spec k k') as [-> | Hne]; constructor; auto.
Qed.

Lemma delete_Forall {V : Type} (Q : string * V -> Prop)
      (o : list (string * V)) (k : string) :
  Forall Q o -> Forall Q (Obj.delete o k).
Proof.
  intros Ho. apply Forall_forall. intros kv Hin.
  apply In_delete in Hin. destruct Hin as [Hin _].
  exact (proj1 (Forall_forall _ _) Ho _ Hin).
Qed.

Lemma built_well_formed (fd : t) : built fd -> well_formed fd.
Proof.
  unfold well_formed.
  induction 1 as [boundary | fd fd' name value filename _ IH Happ
                  | fd name _ IH | fd _ IH].
  - constructor.
  - unfold append in Happ.
    destruct (Obj.get (data fd) name) as [parts |] eqn:Hg.
    + injection Happ as <-. cbn. apply set_Forall_any; [exact IH |]. cbn.
      apply get_In in Hg.
      destruct (proj1 (Forall_forall _ _) IH _ Hg) as [Hi _].
      split; [exact Hi | now destruct parts].
    + destruct (Obj.is_inherited name) eqn:Hi; [discriminate |].
      injection Happ as <-. cbn. apply set_Forall_any; [exact IH |].
      cbn. split; [exact Hi | discriminate].
  - unfold delete. destruct (Obj.get (data fd) name); [| exact IH].
    cbn. now apply delete_Forall.
  - exact IH.
Qed.

(** X24. What [append] adds can be read back: after [append(name,
    value)] succeeded, [getAll(name)] is what the form held under [name]
    followed by the value as it is stored (a string or a buffer as it is,
    anything else as its string), [get(name)] is still the first value
    held, the other names hold what they held, and the body built by an
    earlier [getBuffer] stays in [this.buffer]. *)
Theorem append_then_read (fd fd' : t) (name : string) (value : Raw)
        (filename : option string) :
  append fd name value filename = Fulfilled fd' ->
  getAll fd' name = Fulfilled (Some (held fd name ++ [stored value]))
  /\ get fd' name = Fulfilled (Some (hd (stored value) (held fd name)))
  /\ (forall other, other <> name -> held fd' other = held fd other)
  /\ buffer fd' = buffer fd.
Proof.
  unfold append, getAll, get, held. intros Happ.
  assert (Hother : forall (o : list (string * list Part)) parts other,
             other <> name ->
             Obj.get (Obj.set o name parts) other = Obj.get o other).
  { intros o parts other Hne. rewrite get_set.
    now destruct (String.eqb_spec other name). }
  destruct (Obj.get (data fd) name) as [parts |] eqn:Hg.
  - injection Happ as <-. cbn. rewrite get_set, String.eqb_refl, map_app. cbn.
    split; [reflexivity |]. split; [now destruct parts |].
    split; [| reflexivity]. intros other Hne. now rewrite Hother.
  - destruct (Obj.is_inherited name); [discriminate |].
    injection Happ as <-. cbn. rewrite get_set, String.eqb_refl. cbn.
    split; [reflexivity |]. split; [reflexivity |].
    split; [| reflexivity]. intros other Hne. now rewrite Hother.
Qed.

Lemma append_then_read_witness :
  let fd := new "b" in
  exists fd',
    append fd "chat_id" (RNumber 42) None = Fulfilled fd'
    /\ getAll fd' "chat_id" = Fulfilled (Some [VString "42"]).
Proof.
  cbv zeta. eexists. split; [reflexivity |].
  exact (proj1 (append_then_read (new "b") _ "chat_id" (RNumber 42) None
                  eq_refl)).
Defined.

(** X25. On every form the class builds, a name that objects inherit
    from [Object.prototype] is out of reach: [has] says the field is
    there although it never was added, [append], [get] and [getAll] throw
    a [TypeError], and [delete] changes nothing. *)
Theorem inherited_field_names (fd : t) (name : string) (value : Raw)
        (filename : option string) :
  built fd -> Obj.is_inherited name = true ->
  has fd name = true
  /\ (exists error, append fd name value filename = Rejected error)
  /\ (exists error, get fd name = Rejected error)
  /\ (exists error, getAll fd name = Rejected error)
  /\ delete fd name = fd.
Proof.
  intros Hb Hi. apply built_well_formed in Hb.
  assert (Hnone : Obj.get (data fd) name = None).
  { destruct (Obj.get (data fd) name) as [parts |] eqn:Hg; [| reflexivity].
    apply get_In in Hg.
    destruct (proj1 (Forall_forall _ _) Hb _ Hg) as [Hno _].
    cbn [fst] in Hno. congruence. }
  unfold has, append, get, getAll, delete. rewrite Hnone, Hi.
  repeat split; eexists; reflexivity.
Qed.

Lemma inherited_field_names_witness :
  built (new "b") /\ Obj.is_inherited "constructor" = true
  /\ has (new "b") "constructor" = true.
Proof.
  split; [constructor |]. split; [reflexivity |].
  exact (proj1 (inherited_field_names (new "b") "constructor" RNull None
                  (built_new "b") eq_refl)).
Defined.

Lemma fold_concat_cons (A B : Type) (g : B -> list A) (rest : list B)
      (x : A) (l : list A) :
  fold_left (fun acc curr => acc ++ g curr) rest (x :: l)
  = x :: fold_left (fun acc curr => acc ++ g curr) rest l.
Proof.
  revert l. induction rest as [| c rest IH]; intro l; [reflexivity |].
  cbn [fold_left]. now rewrite <- IH.
Qed.

(** X26. [values()] never yields the values of the form.  On a form
    without fields its [reduce] throws; on any other form the class builds
    it starts from the array of the first field as it is stored, so the
    first thing it yields is a part (the object with [name], [value] and
    [filename]), not a value. *)
Theorem values_yields_parts (fd : t) :
  built fd ->
  match values fd with
  | Rejected _ => data fd = []
  | Fulfilled ys => exists p rest, ys = YPart p :: rest
  end.
Proof.
  intros Hb. apply built_well_formed in Hb. unfold values.
  pose proof (entries_perm (data fd)) as Hperm.
  destruct (Obj.entries (data fd)) as [| [k parts] rest] eqn:He.
  - now apply Permutation_nil.
  - assert (Hin : In (k, parts) (data fd)).
    { apply (Permutation_in _ Hperm). now left. }
    destruct (proj1 (Forall_forall _ _) Hb _ Hin) as [_ Hne]. cbn in Hne.
    destruct parts as [| p parts]; [contradiction |].
    cbn [map]. rewrite fold_concat_cons. eexists _, _. reflexivity.
Qed.

Lemma values_yields_parts_witness :
  let fd := mkFormData None "b"
              [("chat_id", [mkPart "chat_id" (VString "42") None])] in
  built fd
  /\ values fd = Fulfilled [YPart (mkPart "chat_id" (VString "42") None)]
  /\ match values fd with
     | Rejected _ => data fd = []
     | Fulfilled ys => exists p rest, ys = YPart p :: rest
     end.
Proof.
  cbv zeta.
  assert (Hb : built (mkFormData None "b"
                        [("chat_id", [mkPart "chat_id" (VString "42") None])])).
  { apply (built_append (new "b") _ "chat_id" (RNumber 42) None);
      [constructor | reflexivity]. }
  split; [exact Hb |]. split; [reflexivity |].
  exact (values_yields_parts _ Hb).
Defined.

Lemma length_append (s1 s2 : string) :
  String.length (s1 ++ s2) = (String.length s1 + String.length s2)%nat.
Proof. induction s1 as [| a s1 IH]; cbn; [reflexivity | now rewrite IH]. Qed.

Lemma parts_bytes_length (b name : string) (parts : list Part) (rest : string) :
  String.length
    (fold_right (fun o rest' => (part_bytes b name o ++ rest')%string)
                rest parts)
  = (list_sum (map (fun o => String.length (part_bytes b name o)) parts)
     + String.length rest)%nat.
Proof.
  induction parts as [| o parts IH]; [reflexivity |].
  cbn [fold_right map]. rewrite length_append, IH.
  unfold list_sum. cbn [fold_right]. lia.
Qed.

Lemma body_length (b : string) (entries : list (string * list Part)) :
  String.length (body b entries)
  = (parts_length b entries + String.length (CRLF ++ "--" ++ b ++ "--"))%nat.
Proof.
  unfold body, parts_length.
  induction entries as [| [name parts] entries IH]; [reflexivity |].
  cbn [fold_right map fst snd].
  rewrite parts_bytes_length, IH. unfold list_sum. cbn [fold_right]. lia.
Qed.

Lemma list_sum_perm (l l' : list nat) :
  Permutation l l' -> list_sum l = list_sum l'.
Proof. unfold list_sum. induction 1; cbn [fold_right]; lia. Qed.

Lemma parts_length_perm (b : string) (es es' : list (string * list Part)) :
  Permutation es es' -> parts_length b es = parts_length b es'.
Proof. intros H. apply list_sum_perm, Permutation_map, H. Qed.

Lemma parts_length_set (b : string) (o : list (string * list Part))
      (name : string) (p : Part) :
  parts_length b
    (Obj.set o name (match Obj.get o name with
                     | Some parts => parts ++ [p]
                     | None => [p]
                     end))
  = (parts_length b o + String.length (part_bytes b name p))%nat.
Proof.
  unfold parts_length.
  induction o as [| [k parts] o IH]; cbn [Obj.get Obj.set].
  - cbn [map fst snd]. unfold list_sum. cbn [fold_right]. lia.
  - destruct (String.eqb_spec name k) as [-> | Hne]; cbn [map fst snd].
    + rewrite map_app, list_sum_app. cbn [map].
      unfold list_sum. cbn [fold_right]. lia.
    + unfold list_sum in *. cbn [fold_right]. rewrite IH. lia.
Qed.

Lemma part_bytes_length (b name : string) (p : Part) :
  (0 < String.length (part_bytes b name p))%nat.
Proof. unfold part_bytes. rewrite length_append. cbn. lia. Qed.

(** X27. [getLength] answers from the body kept by the last
    [getBuffer], and nothing refreshes it: after [getBuffer] and then a
    successful [append], [getLength] (and with it the Content-Length of
    [getHeaders]) still gives the length of the old body, which is
    strictly less than the length of the body that [getBuffer] builds
    now. *)
Theorem getLength_stale_after_append (fd fd2 : t) (name : string)
        (value : Raw) (filename : option string) :
  append (snd (getBuffer fd)) name value filename = Fulfilled fd2 ->
  fst (getLength fd2) = String.length (fst (getBuffer fd))
  /\ content_length (fst (getHeaders fd2)) = String.length (fst (getBuffer fd))
  /\ (fst (getLength fd2) < String.length (fst (getBuffer fd2)))%nat.
Proof.
  intros Happ.
  assert (H : buffer fd2 = Some (fst (getBuffer fd))
              /\ boundary fd2 = boundary fd
              /\ data fd2
                 = Obj.set (data fd) name
                     (match Obj.get (data fd) name with
                      | Some parts =>
                          parts ++ [mkPart name (stored value) filename]
                      | None => [mkPart name (stored value) filename]
                      end)).
  { unfold append in Happ. cbn -[Obj.is_inherited] in Happ.
    destruct (Obj.get (data fd) name) as [parts |].
    - injection Happ as <-. now repeat split.
    - destruct (Obj.is_inherited name); [discriminate |].
      injection Happ as <-. now repeat split. }
  destruct H as (Hbuf & Hbd & Hdata).
  unfold getHeaders, getLength. rewrite Hbuf. cbn [fst content_length].
  split; [reflexivity |]. split; [reflexivity |].
  unfold getBuffer. cbn [fst]. rewrite !body_length, Hbd, Hdata.
  rewrite (parts_length_perm _ _ _ (entries_perm (Obj.set _ _ _))).
  rewrite parts_length_set.
  rewrite (parts_length_perm _ _ _ (entries_perm (data fd))).
  pose proof (part_bytes_length (boundary fd) name
                (mkPart name (stored value) filename)).
  lia.
Qed.

Lemma getLength_stale_after_append_witness :
  let fd2 := mkFormData (Some (fst (getBuffer (new "b")))) "b"
               [("chat_id", [mkPart "chat_id" (VString "42") None])] in
  append (snd (getBuffer (new "b"))) "chat_id" (RNumber 42) None = Fulfilled fd2
  /\ fst (getLength fd2) = 7%nat
  /\ (fst (getLength fd2) < String.length (fst (getBuffer fd2)))%nat.
Proof.
  cbv zeta.
  assert (Happ : append (snd (getBuffer (new "b"))) "chat_id" (RNumber 42) None
                 = Fulfilled
                     (mkFormData (Some (fst (getBuffer (new "b")))) "b"
                        [("chat_id", [mkPart "chat_id" (VString "42") None])]))
    by reflexivity.
  split; [exact Happ |]. split; [reflexivity |].
  exact (proj2 (proj2 (getLength_stale_after_append (new "b") _ "chat_id"
                         (RNumber 42) None Happ))).
Defined.

End Forms.
